(** * ESXi standalone patcher: a shallow embedding of [esxi_patcher.py]

    The Python program drives remote hosts through sockets, an SSH session
    and the vSphere API.  Every such call is an interaction with the outside
    world.  The embedding threads an explicit [World] through the code:

    - [now] is the clock read by [time.time()] (seconds);
    - [trace] is the list of interactions performed so far, each stamped
      with the clock value at which it was issued.

    What the outside world answers is given by an environment [Env]: a
    family of functions of the current [World] (hence of the whole history
    and of the clock).  The methods of [ESXiStandalonePatcher] are
    translated one by one into a state-and-exception monad over [World].
    Console narration ([print]) and logging are not part of the model.
    Text is ASCII: the whitespace and line-boundary characters of Python
    that lie outside ASCII are not modelled. *)

From stdpp Require Import base list strings gmap.
From Stdlib Require Import Ascii ZArith Lia.

Open Scope Z_scope.

(** ** Python string helpers *)

Module PyStr.

Definition is_empty (s : string) : bool :=
  match s with EmptyString => true | String _ _ => false end.

(** [str.isspace] on an ASCII character: TAB, LF, VT, FF, CR, the four
    separators 0x1c-0x1f and the space. *)
Definition is_space (c : ascii) : bool :=
  let n := nat_of_ascii c in
  ((9 <=? n) && (n <=? 13) || (28 <=? n) && (n <=? 31) || (n =? 32))%nat.

(** Line boundaries of [str.splitlines] within ASCII. *)
Definition is_linebreak (c : ascii) : bool :=
  let n := nat_of_ascii c in
  ((10 <=? n) && (n <=? 13) || (28 <=? n) && (n <=? 30))%nat.

Fixpoint lstrip_with (p : ascii → bool) (s : string) : string :=
  match s with
  | EmptyString => EmptyString
  | String c s' => if p c then lstrip_with p s' else s
  end.

Definition rstrip_with (p : ascii → bool) (s : string) : string :=
  String.rev (lstrip_with p (String.rev s)).

Definition strip (s : string) : string :=
  rstrip_with is_space (lstrip_with is_space s).

(** [s.rstrip('/')] *)
Definition rstrip_slash (s : string) : string :=
  rstrip_with (λ c, Ascii.eqb c "/"%char) s.

(** [cur] is the current line, most recent character first. *)
Fixpoint splitlines_from (cur : string) (s : string) : list string :=
  match s with
  | EmptyString => if is_empty cur then [] else [String.rev cur]
  | String c s' =>
      if is_linebreak c then
        match s' with
        | String c' s'' =>
            if Ascii.eqb c "013"%char && Ascii.eqb c' "010"%char
            then String.rev cur :: splitlines_from EmptyString s''
            else String.rev cur :: splitlines_from EmptyString s'
        | EmptyString => [String.rev cur]
        end
      else splitlines_from (String c cur) s'
  end.

Definition splitlines (s : string) : list string :=
  splitlines_from EmptyString s.

Definition startswith (s pre : string) : bool := String.prefix pre s.

Definition endswith (s suf : string) : bool :=
  String.prefix (String.rev suf) (String.rev s).

(** [sub in s] *)
Fixpoint contains (sub s : string) : bool :=
  String.prefix sub s ||
  match s with
  | EmptyString => false
  | String _ s' => contains sub s'
  end.

Definition is_digit (c : ascii) : bool :=
  let n := nat_of_ascii c in ((48 <=? n) && (n <=? 57))%nat.

(** The first [k] characters of [s] when they are all digits. *)
Fixpoint digits_prefix (k : nat) (s : string) : option string :=
  match k with
  | O => Some EmptyString
  | S k' =>
      match s with
      | String c s' =>
          if is_digit c
          then match digits_prefix k' s' with
               | Some d => Some (String c d)
               | None => None
               end
          else None
      | EmptyString => None
      end
  end.

(** [re.search(r'\d{8}', s)]: the leftmost run of eight digits. *)
Fixpoint search_8_digits (s : string) : option string :=
  match digits_prefix 8 s with
  | Some d => Some d
  | None =>
      match s with
      | EmptyString => None
      | String _ s' => search_8_digits s'
      end
  end.

End PyStr.

(** Every character of the string is an ASCII character.  On such
    strings [PyStr] reads white space, line boundaries and digits as
    Python does; Python knows more of each outside ASCII. *)
Fixpoint ascii_only (s : string) : bool :=
  match s with
  | EmptyString => true
  | String c s' => (nat_of_ascii c <? 128)%nat && ascii_only s'
  end.

(** ** The world, the environment and the monad *)

(** [@dataclass class ESXiHost] *)
Record ESXiHost := {
  name : string;
  ip : string;
  username : string;
  password : string;
  ssh_port : Z;
  api_port : Z
}.

(** The outcome of a library call: it returns a value or raises. *)
Inductive Reply (A : Type) : Type :=
| Done (a : A)
| Fault (msg : string).
Arguments Done {A} a.
Arguments Fault {A} msg.

(** [vim.TaskInfo.State] *)
Inductive TaskState := TaskQueued | TaskRunning | TaskSuccess | TaskError.

(** [host_obj.parent]: whether it has a [name] attribute and whether it is
    a [vim.ClusterComputeResource]. *)
Record Parent := { has_name : bool; is_cluster : bool }.

(** The methods of the patcher whose invocations and results are recorded. *)
Inductive Method :=
| m_connect_api | m_get_host_system | m_is_host_in_cluster
| m_enable_services_via_api | m_disable_services_via_api
| m_wait_for_ssh | m_ssh_connect | m_find_boot_datastore
| m_copy_patch_via_scp | m_enter_maintenance_mode
| m_check_and_shutdown_vms | m_start_vms_after_reboot
| m_install_patch_via_ssh | m_verify_patch_installation
| m_cleanup_patch_file | m_reboot_host | m_wait_for_host_reboot
| m_exit_maintenance_mode | m_test_connection | m_process_host.

(** One interaction with the outside world, with what it answered. *)
Inductive Event :=
| EvCall (m : Method)
| EvRet (m : Method) (r : bool)
| EvSleep (secs : Z)
| EvSsh (cmd : string) (timeout : Z) (ok : bool) (out err : string)
| EvProbe (addr : string) (port : Z) (r : Reply Z)
| EvSmartConnect (addr : string) (port : Z) (r : Reply unit)
| EvDisconnect (r : Reply unit)
| EvHostView (r : Reply (list nat))
| EvParent (r : Reply (option Parent))
| EvServices (enable : bool) (r : bool)
| EvSshConnect (addr : string) (port : Z) (r : Reply unit)
| EvSshClose (r : Reply unit)
| EvPathExists (path : string) (r : bool)
| EvGetSize (path : string) (r : Reply Z)
| EvSftpOpen (r : Reply unit)
| EvSftpStat (path : string) (r : Reply Z)
| EvSftpPut (src dst : string) (r : Reply unit)
| EvSftpClose (r : Reply unit)
| EvInMaintenanceMode (r : Reply bool)
| EvEnterMaintenanceMode (timeout : Z) (r : Reply unit)
| EvExitMaintenanceMode (timeout : Z) (r : Reply unit)
| EvTaskState (r : Reply TaskState)
| EvReboot (r : Reply unit)
| EvSelfTest (host_name : string) (r : bool) (msg : string).

Record World := {
  now : Z;
  trace : list (Z * Event)
}.

(** The world after an interaction [ev] that took [d] seconds. *)
Definition extend (w : World) (d : Z) (ev : Event) : World :=
  {| now := now w + d; trace := trace w ++ [(now w, ev)] |}.

(** What the outside world answers, as a function of the history. *)
Record Env := {
  e_ssh : World → string → Z → bool * string * string;
  e_probe : World → string → Z → Reply Z;
  e_smart_connect : World → string → Z → Reply unit;
  e_disconnect : World → Reply unit;
  e_host_view : World → Reply (list nat);
  e_parent : World → Reply (option Parent);
  e_services : World → bool → bool;
  e_ssh_connect : World → string → Z → Reply unit;
  e_ssh_close : World → Reply unit;
  e_path_exists : World → string → bool;
  e_getsize : World → string → Reply Z;
  e_sftp_open : World → Reply unit;
  e_sftp_stat : World → string → Reply Z;
  e_sftp_put : World → string → string → Reply unit;
  e_sftp_close : World → Reply unit;
  e_in_maintenance : World → Reply bool;
  e_enter_maintenance : World → Z → Reply unit;
  e_exit_maintenance : World → Z → Reply unit;
  e_task_state : World → Reply TaskState;
  e_reboot : World → Reply unit;
  e_self_test : World → string → bool * string;
  (** how long an interaction takes, in seconds *)
  e_elapsed : World → Event → nat
}.

(** A computation returns, raises a Python exception, or exhausts the
    fuel of a loop; the last is not an exception and cannot be caught. *)
Inductive Res (A : Type) : Type :=
| Ok (a : A)
| Raise (msg : string)
| Diverge.
Arguments Ok {A} a.
Arguments Raise {A} msg.
Arguments Diverge {A}.

Definition M (A : Type) : Type := World → Res A * World.

Definition ret {A} (a : A) : M A := λ w, (Ok a, w).

Definition bind {A B} (m : M A) (k : A → M B) : M B :=
  λ w, match m w with
       | (Ok a, w') => k a w'
       | (Raise e, w') => (Raise e, w')
       | (Diverge, w') => (Diverge, w')
       end.

Definition raise {A} (msg : string) : M A := λ w, (Raise msg, w).

(** [try: body except Exception as e: handler(str(e))] *)
Definition try_except {A} (body : M A) (handler : string → M A) : M A :=
  λ w, match body w with
       | (Raise e, w') => handler e w'
       | r => r
       end.

Declare Scope esx_scope.
Delimit Scope esx_scope with esx.
Notation "x <- m ;; k" := (bind m (λ x, k))
  (at level 100, m at next level, right associativity) : esx_scope.
Open Scope esx_scope.

(** A value raised by a library call propagates as an exception. *)
Definition of_reply {A} (r : Reply A) : M A :=
  match r with
  | Done a => ret a
  | Fault msg => raise msg
  end.

(** [for x in xs: acc = body(acc, x)] *)
Fixpoint for_each {A B} (body : B → A → M B) (xs : list A) (acc : B) : M B :=
  match xs with
  | [] => ret acc
  | x :: xs' => acc' <- body acc x ;; for_each body xs' acc'
  end.

(** Python truthiness of an [Optional[...]] that holds an object. *)
Definition is_some {A} (o : option A) : bool :=
  match o with Some _ => true | None => false end.

(** Python truthiness of an [Optional[str]]. *)
Definition nonempty (o : option string) : bool :=
  match o with Some s => negb (PyStr.is_empty s) | None => false end.

(** What an f-string prints for an [Optional[str]]. *)
Definition fmt (o : option string) : string :=
  match o with Some s => s | None => "None" end.

(** The fields of [ESXiStandalonePatcher] after [_load_config]. *)
Record Patcher := {
  hosts : list ESXiHost;
  patch_file : option string;
  patch_name : option string
}.

Section Methods.

Context (env : Env) (self : Patcher).

(** *** Primitive interactions *)

(** Record an interaction and let the clock advance by its duration. *)
Definition perform (ev : Event) : M unit :=
  λ w, (Ok tt, extend w (Z.of_nat (e_elapsed env w ev)) ev).

(** A marker takes no time. *)
Definition mark (ev : Event) : M unit :=
  λ w, (Ok tt, extend w 0 ev).

(** [time.time()] *)
Definition time_time : M Z := λ w, (Ok (now w), w).

(** [time.sleep(secs)] *)
Definition sleep (secs : Z) : M unit :=
  λ w, (Ok tt, extend w secs (EvSleep secs)).

Definition ask {A} (q : World → A) (ev : A → Event) : M A :=
  λ w, let a := q w in bind (perform (ev a)) (λ _, ret a) w.

(** Record the invocation of a method and the truth value of its result. *)
Definition traced {A} (m : Method) (truthy : A → bool) (body : M A) : M A :=
  _ <- mark (EvCall m) ;;
  r <- body ;;
  _ <- mark (EvRet m (truthy r)) ;;
  ret r.

(** One connection attempt: [socket.socket], [settimeout(5)],
    [connect_ex((addr, port))], [close]. *)
Definition probe (addr : string) (port : Z) : M Z :=
  r <- ask (λ w, e_probe env w addr port) (EvProbe addr port) ;;
  of_reply r.

(** [ssh_execute_with_output]: it catches every exception itself and
    returns [(success, stdout.strip(), stderr.strip())]. *)
Definition ssh_execute_with_output (command : string) (timeout : Z)
  : M (bool * string * string) :=
  ask (λ w, e_ssh env w command timeout)
      (λ '(ok, out, err), EvSsh command timeout ok out err).

Definition ssh_execute (command : string) (timeout : Z) : M (bool * string) :=
  r <- ssh_execute_with_output command timeout ;;
  let '(success, stdout, stderr) := r in
  if success then ret (true, stdout)
  else
    let error_msg :=
      if PyStr.is_empty stderr then "Unknown SSH execution error" else stderr in
    ret (false, error_msg).

(** *** Management-plane session *)

Definition _connect_api (host : ESXiHost) : M (option unit) :=
  traced m_connect_api is_some
    (try_except
       (r <- ask (λ w, e_smart_connect env w (ip host) (api_port host))
                 (EvSmartConnect (ip host) (api_port host)) ;;
        si <- of_reply r ;;
        ret (Some si))
       (λ _, ret None)).

(** [container.view[0] if container.view else None] *)
Definition _get_host_system : M (option nat) :=
  traced m_get_host_system is_some
    (try_except
       (r <- ask (e_host_view env) EvHostView ;;
        view <- of_reply r ;;
        ret (head view))
       (λ _, ret None)).

Definition is_host_in_cluster : M bool :=
  traced m_is_host_in_cluster id
    (try_except
       (r <- ask (e_parent env) EvParent ;;
        parent <- of_reply r ;;
        match parent with
        | Some p =>
            if has_name p
            then (if is_cluster p then ret true else ret false)
            else ret false
        | None => ret false
        end)
       (λ _, ret false)).

(** The two service methods are taken at their interface: each catches
    every exception and returns a boolean. *)
Definition enable_services_via_api : M bool :=
  traced m_enable_services_via_api id
    (ask (λ w, e_services env w true) (EvServices true)).

Definition disable_services_via_api : M bool :=
  traced m_disable_services_via_api id
    (ask (λ w, e_services env w false) (EvServices false)).

(** *** Remote shell *)

(** [while time.time() - start_time < timeout] of [wait_for_ssh] *)
Fixpoint wait_for_ssh_loop (fuel : nat) (host : ESXiHost)
    (start_time timeout : Z) : M bool :=
  t <- time_time ;;
  if bool_decide (t - start_time < timeout) then
    match fuel with
    | O => λ w, (Diverge, w)
    | S fuel' =>
        found <- try_except
                   (result <- probe (ip host) (ssh_port host) ;;
                    ret (bool_decide (result = 0)))
                   (λ _, ret false) ;;
        if found then ret true
        else
          _ <- sleep 5 ;;
          wait_for_ssh_loop fuel' host start_time timeout
    end
  else ret false.

Definition wait_for_ssh (host : ESXiHost) (timeout : Z) : M bool :=
  traced m_wait_for_ssh id
    (start_time <- time_time ;;
     wait_for_ssh_loop (Z.to_nat timeout) host start_time timeout).

Definition ssh_connect (host : ESXiHost) : M (option unit) :=
  traced m_ssh_connect is_some
    (try_except
       (r <- ask (λ w, e_ssh_connect env w (ip host) (ssh_port host))
                 (EvSshConnect (ip host) (ssh_port host)) ;;
        client <- of_reply r ;;
        ret (Some client))
       (λ _, ret None)).

Definition find_boot_datastore : M (option string) :=
  traced m_find_boot_datastore nonempty
    (r <- ssh_execute
            "esxcli storage filesystem list | grep -E '^/vmfs/volumes/[^ ]+' | head -1 | awk '{print $1}'"
            60 ;;
     let '(success, output) := r in
     if success && negb (PyStr.is_empty output)
        && PyStr.startswith output "/vmfs/volumes/"
     then ret (Some (PyStr.strip output))
     else
       r <- ssh_execute "ls -d /vmfs/volumes/*/ 2>/dev/null | head -1" 60 ;;
       let '(success, output) := r in
       if success && negb (PyStr.is_empty output)
       then ret (Some (PyStr.rstrip_slash (PyStr.strip output)))
       else ret None).

(** *** Patch transfer *)

Definition exists_patch_file : M bool :=
  match patch_file self with
  | Some f =>
      if PyStr.is_empty f then ret false
      else ask (λ w, e_path_exists env w f) (EvPathExists f)
  | None => ret false
  end.

Definition remote_path (datastore : string) : string :=
  datastore +:+ "/" +:+ fmt (patch_name self).

Definition sftp_close : M unit :=
  r <- ask (e_sftp_close env) EvSftpClose ;; of_reply r.

Definition sftp_stat (path : string) : M Z :=
  r <- ask (λ w, e_sftp_stat env w path) (EvSftpStat path) ;; of_reply r.

Definition copy_patch_via_scp (datastore : string) : M bool :=
  traced m_copy_patch_via_scp id
    (present <- exists_patch_file ;;
     if negb present then ret false
     else
       try_except
         (r <- ask (e_sftp_open env) EvSftpOpen ;;
          _ <- of_reply r ;;
          reachable <- try_except
                         (_ <- sftp_stat datastore ;; ret true)
                         (λ _, ret false) ;;
          if negb reachable then
            _ <- sftp_close ;; ret false
          else
            r <- ask (λ w, e_sftp_put env w (fmt (patch_file self)) (remote_path datastore))
                     (EvSftpPut (fmt (patch_file self)) (remote_path datastore)) ;;
            _ <- of_reply r ;;
            st_size <- sftp_stat (remote_path datastore) ;;
            r <- ask (λ w, e_getsize env w (fmt (patch_file self)))
                     (EvGetSize (fmt (patch_file self))) ;;
            local_size <- of_reply r ;;
            if bool_decide (st_size = local_size) then
              _ <- sftp_close ;; ret true
            else
              _ <- sftp_close ;; ret false)
         (λ _, ret false)).

(** *** Maintenance mode *)

Definition task_state : M TaskState :=
  r <- ask (e_task_state env) EvTaskState ;; of_reply r.

Definition task_finished (st : TaskState) : bool :=
  match st with TaskSuccess | TaskError => true | _ => false end.

(** [while task.info.state not in [success, error]] *)
Fixpoint _wait_for_task_loop (fuel : nat) (start_time timeout : Z) : M unit :=
  st <- task_state ;;
  if task_finished st then ret tt
  else
    t <- time_time ;;
    if bool_decide (t - start_time > timeout)
    then raise "Таймаут ожидания задачи"
    else
      match fuel with
      | O => λ w, (Diverge, w)
      | S fuel' =>
          _ <- sleep 5 ;;
          _wait_for_task_loop fuel' start_time timeout
      end.

Definition _wait_for_task (timeout : Z) : M unit :=
  start_time <- time_time ;;
  _ <- _wait_for_task_loop (Z.to_nat timeout + 2) start_time timeout ;;
  st <- task_state ;;
  match st with
  | TaskError => raise "Ошибка задачи"
  | _ => ret tt
  end.

Definition in_maintenance_mode : M bool :=
  r <- ask (e_in_maintenance env) EvInMaintenanceMode ;; of_reply r.

Definition enter_maintenance_mode (timeout : Z) : M bool :=
  traced m_enter_maintenance_mode id
    (try_except
       (already <- in_maintenance_mode ;;
        if already then ret true
        else
          r <- ask (λ w, e_enter_maintenance env w timeout)
                   (EvEnterMaintenanceMode timeout) ;;
          _ <- of_reply r ;;
          _ <- _wait_for_task 1800 ;;
          ret true)
       (λ _, ret false)).

Definition exit_maintenance_mode : M bool :=
  traced m_exit_maintenance_mode id
    (try_except
       (inside <- in_maintenance_mode ;;
        if negb inside then ret true
        else
          r <- ask (λ w, e_exit_maintenance env w 0)
                   (EvExitMaintenanceMode 0) ;;
          _ <- of_reply r ;;
          _ <- _wait_for_task 1800 ;;
          ret true)
       (λ _, ret false)).

(** *** Workload lifecycle *)

Definition getallvms_cmd : string :=
  "vim-cmd vmsvc/getallvms | tail -n +2 | awk '{print $1}'".
Definition getstate_cmd (vm_id : string) : string :=
  "vim-cmd vmsvc/power.getstate " +:+ vm_id.
Definition shutdown_cmd (vm_id : string) : string :=
  "vim-cmd vmsvc/power.shutdown " +:+ vm_id.
Definition poweroff_cmd (vm_id : string) : string :=
  "vim-cmd vmsvc/power.off " +:+ vm_id.
Definition poweron_cmd (vm_id : string) : string :=
  "vim-cmd vmsvc/power.on " +:+ vm_id.

(** [[vid.strip() for vid in output.splitlines() if vid.strip()]] *)
Definition parse_vm_ids (output : string) : list string :=
  map PyStr.strip
      (filter (λ vid, negb (PyStr.is_empty (PyStr.strip vid)) = true)
              (PyStr.splitlines output)).

(** [while time.time() - start < graceful_timeout]: the result is
    [gracefully_stopped]. *)
Fixpoint wait_graceful (fuel : nat) (vm_id : string)
    (start graceful_timeout : Z) : M bool :=
  t <- time_time ;;
  if bool_decide (t - start < graceful_timeout) then
    match fuel with
    | O => λ w, (Diverge, w)
    | S fuel' =>
        _ <- sleep 5 ;;
        r <- ssh_execute (getstate_cmd vm_id) 60 ;;
        let '(ok, st) := r in
        if ok && PyStr.contains "Powered off" st then ret true
        else wait_graceful fuel' vm_id start graceful_timeout
    end
  else ret false.

(** The body of [for vm_id in vm_ids]; the result is [failed_vms]. *)
Definition shutdown_vm (graceful_timeout : Z) (failed_vms : list string)
    (vm_id : string) : M (list string) :=
  r <- ssh_execute (getstate_cmd vm_id) 60 ;;
  let '(success, state_output) := r in
  if negb success then
    r <- ssh_execute (poweroff_cmd vm_id) 60 ;;
    let '(success_force, _) := r in
    if negb success_force then ret (failed_vms ++ [vm_id])
    else ret failed_vms
  else if negb (PyStr.contains "Powered on" state_output) then ret failed_vms
  else
    _ <- ssh_execute (shutdown_cmd vm_id) 60 ;;
    start <- time_time ;;
    gracefully_stopped <-
      wait_graceful (Z.to_nat graceful_timeout) vm_id start graceful_timeout ;;
    if gracefully_stopped then ret failed_vms
    else
      r <- ssh_execute (poweroff_cmd vm_id) 60 ;;
      let '(ok_force, _) := r in
      if negb ok_force then ret (failed_vms ++ [vm_id])
      else
        _ <- sleep 5 ;;
        r <- ssh_execute (getstate_cmd vm_id) 60 ;;
        let '(ok, st) := r in
        if negb ok || negb (PyStr.contains "Powered off" st)
        then ret (failed_vms ++ [vm_id])
        else ret failed_vms.

Definition check_and_shutdown_vms (graceful_timeout : Z) : M bool :=
  traced m_check_and_shutdown_vms id
    (try_except
       (r <- ssh_execute getallvms_cmd 60 ;;
        let '(success, output) := r in
        if negb success || PyStr.is_empty (PyStr.strip output) then ret true
        else
          let vm_ids := parse_vm_ids output in
          failed_vms <- for_each (shutdown_vm graceful_timeout) vm_ids [] ;;
          match failed_vms with
          | _ :: _ =>
              _ <- ssh_execute getallvms_cmd 60 ;;
              ret false
          | [] => ret true
          end)
       (λ _, ret false)).

(** The body of the loop of [start_vms_after_reboot]; the accumulator is
    [(started_vms, failed)]. *)
Definition start_vm (acc : nat * list string) (vm_id : string)
  : M (nat * list string) :=
  let '(started_vms, failed) := acc in
  r <- ssh_execute (getstate_cmd vm_id) 60 ;;
  let '(success, state_output) := r in
  if success && PyStr.contains "Powered off" state_output then
    r <- ssh_execute (poweron_cmd vm_id) 60 ;;
    let '(success_start, _) := r in
    if success_start then ret (S started_vms, failed)
    else ret (started_vms, failed ++ [vm_id])
  else ret (started_vms, failed).

(** The statements of [start_vms_after_reboot] up to the end of its loop:
    [None] when no workload was listed. *)
Definition start_vms_counters : M (option (nat * list string)) :=
  r <- ssh_execute getallvms_cmd 60 ;;
  let '(success, output) := r in
  if negb success || PyStr.is_empty (PyStr.strip output) then ret None
  else
    let vm_ids := parse_vm_ids output in
    acc <- for_each start_vm vm_ids (O, []) ;;
    ret (Some acc).

Definition start_vms_after_reboot : M bool :=
  traced m_start_vms_after_reboot id
    (try_except
       (counters <- start_vms_counters ;;
        match counters with
        | None => ret true
        | Some (started_vms, failed) => ret true
        end)
       (λ _, ret false)).

(** *** Patch installation *)

(** The command chosen from the extension of the file name. *)
Definition install_cmd (patch_name patch_path : string) : option string :=
  if PyStr.endswith patch_name ".zip" then
    Some ("esxcli software vib install -d '" +:+ patch_path +:+ "' --no-sig-check")
  else if PyStr.endswith patch_name ".vib" then
    Some ("esxcli software vib install -v '" +:+ patch_path +:+ "' --no-sig-check")
  else if PyStr.endswith patch_name ".iso" then
    Some ("esxcli software profile update -d '" +:+ patch_path +:+ "'")
  else None.

Definition install_patch_via_ssh (datastore : string) : M bool :=
  traced m_install_patch_via_ssh id
    (if negb (nonempty (patch_name self)) then ret false
     else
       let patch_path := remote_path datastore in
       match install_cmd (fmt (patch_name self)) patch_path with
       | None => ret false
       | Some cmd =>
           try_except
             (r <- ssh_execute_with_output cmd 1200 ;;
              let '(success, stdout, stderr) := r in
              if success then ret true else ret false)
             (λ _, ret false)
       end).

Definition verify_patch_installation (patch_pattern : option string) : M bool :=
  traced m_verify_patch_installation id
    (let patch_pattern :=
       if negb (nonempty patch_pattern) && nonempty (patch_name self) then
         match PyStr.search_8_digits (fmt (patch_name self)) with
         | Some d => Some d
         | None => patch_pattern
         end
       else patch_pattern in
     if negb (nonempty patch_pattern) then
       r <- ssh_execute "uname -a" 60 ;;
       let '(success, output) := r in
       if success then ret true else ret false
     else
       r <- ssh_execute ("esxcli software vib list | grep -i " +:+ fmt patch_pattern) 60 ;;
       let '(success, output) := r in
       if success && negb (PyStr.is_empty output) then ret true
       else
         _ <- ssh_execute "esxcli software vib list | tail -20" 60 ;;
         _ <- ssh_execute "vmware -v" 60 ;;
         ret false).

Definition cleanup_patch_file (datastore : string) : M bool :=
  traced m_cleanup_patch_file id
    (r <- ssh_execute ("rm -f '" +:+ remote_path datastore +:+ "'") 60 ;;
     let '(success, output) := r in
     if success then ret true else ret false).

(** *** Reboot *)

Definition reboot_host : M bool :=
  traced m_reboot_host id
    (try_except
       (r <- ask (e_reboot env) EvReboot ;;
        _ <- of_reply r ;;
        _ <- sleep 10 ;;
        ret true)
       (λ _, ret false)).

(** [for i in range(60)] of [wait_for_host_reboot]; the result is
    [host_went_down]. *)
Fixpoint wait_down (attempts : nat) (host : ESXiHost) : M bool :=
  match attempts with
  | O => ret false
  | S attempts' =>
      down <- try_except
                (result <- probe (ip host) 22 ;;
                 ret (negb (bool_decide (result = 0))))
                (λ _, ret false) ;;
      if down then ret true
      else
        _ <- sleep 5 ;;
        wait_down attempts' host
  end.

(** [while time.time() - wait_start < max_wait] of
    [wait_for_host_reboot]. *)
Fixpoint wait_up (fuel : nat) (host : ESXiHost) (wait_start max_wait : Z)
  : M bool :=
  t <- time_time ;;
  if bool_decide (t - wait_start < max_wait) then
    match fuel with
    | O => λ w, (Diverge, w)
    | S fuel' =>
        up <- try_except
                (result <- probe (ip host) 22 ;;
                 if bool_decide (result = 0) then
                   _ <- sleep 15 ;;
                   result_api <- probe (ip host) 443 ;;
                   if bool_decide (result_api = 0) then
                     _ <- sleep 25 ;;
                     ret true
                   else ret false
                 else ret false)
                (λ _, ret false) ;;
        if up then ret true
        else
          _ <- sleep 5 ;;
          wait_up fuel' host wait_start max_wait
    end
  else ret false.

Definition wait_for_host_reboot (host : ESXiHost) (timeout : Z) : M bool :=
  traced m_wait_for_host_reboot id
    (start_time <- time_time ;;
     host_went_down <- wait_down 60 host ;;
     let max_wait := 600 in
     wait_start <- time_time ;;
     wait_up (Z.to_nat max_wait) host wait_start max_wait).

(** *** The workflow of one host *)

(** [test_connection], taken at its interface: it catches every
    exception and returns [(success, message)]. *)
Definition test_connection (host : ESXiHost) : M (bool * string) :=
  traced m_test_connection fst
    (ask (λ w, e_self_test env w (name host))
         (λ '(ok, msg), EvSelfTest (name host) ok msg)).

Definition ssh_close : M unit :=
  r <- ask (e_ssh_close env) EvSshClose ;; of_reply r.

Definition disconnect : M unit :=
  r <- ask (e_disconnect env) EvDisconnect ;; of_reply r.

(** The [finally] clause of [process_host], for the current values of
    the local variables [ssh_client] and [api_connection]. *)
Definition teardown (ssh_client api_connection : option unit) : M unit :=
  _ <- (if is_some ssh_client
        then try_except ssh_close (λ _, ret tt) else ret tt) ;;
  if is_some api_connection
  then try_except disconnect (λ _, ret tt) else ret tt.

(** A [return] inside the [try] block: the [finally] clause runs with
    the local variables as they are at that point. *)
Definition leave (ssh_client api_connection : option unit)
    (result : bool * string) : M (bool * string) :=
  _ <- teardown ssh_client api_connection ;;
  ret result.

(** The [except Exception as e] clause of [process_host], followed by the
    [finally] clause, for the part of the [try] block in which the local
    variables have the given values. *)
Definition guarded (ssh_client api_connection : option unit)
    (body : M (bool * string)) : M (bool * string) :=
  try_except body
    (λ e, leave ssh_client api_connection (false, "Исключение: " +:+ e)).

(** [for attempt in range(max_retries)], with [remaining] attempts left;
    the result is [api_connection]. *)
Fixpoint reconnect_api (remaining : nat) (host : ESXiHost) : M (option unit) :=
  match remaining with
  | O => ret None
  | S remaining' =>
      api_connection <- _connect_api host ;;
      if is_some api_connection then ret api_connection
      else
        _ <- (match remaining' with
              | O => ret tt
              | S _ => sleep 30
              end) ;;
        reconnect_api remaining' host
  end.

(** Steps 7 and 8: the branch on the topology of the host.  The result
    is the reason of a fatal failure, if any. *)
Definition quiesce (is_clustered : bool) : M (option string) :=
  if is_clustered then
    entered <- enter_maintenance_mode 0 ;;
    if negb entered then ret (Some "Не удалось перевести в режим обслуживания")
    else
      vm_result <- check_and_shutdown_vms 180 ;;
      ret None
  else
    vm_result <- check_and_shutdown_vms 180 ;;
    entered <- enter_maintenance_mode 0 ;;
    if negb entered then ret (Some "Не удалось перевести в режим обслуживания")
    else ret None.

(** Steps 14 to 18, after the host has come back. *)
Definition restore (host : ESXiHost) (is_clustered : bool)
    (old_ssh_client : option unit) : M (bool * string) :=
  guarded old_ssh_client None
    (api_connection <- reconnect_api 5 host ;;
     guarded old_ssh_client api_connection
       (if negb (is_some api_connection)
        then leave old_ssh_client api_connection
               (false, "Не удалось подключиться после перезагрузки")
        else
          host_obj <- _get_host_system ;;
          if negb (is_some host_obj)
          then leave old_ssh_client api_connection
                 (false, "Не удалось получить объект хоста после перезагрузки")
          else
            ssh_client <- ssh_connect host ;;
            guarded ssh_client api_connection
              (_ <- exit_maintenance_mode ;;
               _ <- (if negb is_clustered && is_some ssh_client
                     then _ <- start_vms_after_reboot ;; ret tt
                     else ret tt) ;;
               _ <- disable_services_via_api ;;
               leave ssh_client api_connection (true, "Успех")))).

(** Steps 9 to 13, on a host in maintenance mode; then the restoration. *)
Definition install_and_reboot (host : ESXiHost) (is_clustered : bool)
    (ssh_client api_connection : option unit) (datastore : option string)
  : M (bool * string) :=
  present <- exists_patch_file ;;
  installed <- (if present then install_patch_via_ssh (fmt datastore)
                else ret true) ;;
  if negb installed
  then leave ssh_client api_connection (false, "Не удалось установить патч")
  else
    _ <- verify_patch_installation None ;;
    present <- exists_patch_file ;;
    _ <- (if present then _ <- cleanup_patch_file (fmt datastore) ;; ret tt
          else ret tt) ;;
    rebooted <- reboot_host ;;
    if negb rebooted
    then leave ssh_client api_connection (false, "Ошибка при перезагрузке")
    else
      _ <- (if is_some ssh_client then ssh_close else ret tt) ;;
      _ <- (if is_some api_connection then disconnect else ret tt) ;;
      back <- wait_for_host_reboot host 600 ;;
      if negb back
      then leave ssh_client api_connection
             (false, "Хост не перезагрузился или недоступен после перезагрузки")
      else
        _ <- sleep 30 ;;
        restore host is_clustered ssh_client.

(** Steps 5 to 8, with an open remote shell; then the rest. *)
Definition patch_and_reboot (host : ESXiHost) (is_clustered : bool)
    (ssh_client api_connection : option unit) : M (bool * string) :=
  datastore <- find_boot_datastore ;;
  if negb (nonempty datastore)
  then leave ssh_client api_connection (false, "Не удалось найти датастор")
  else
    present <- exists_patch_file ;;
    copied <- (if present then copy_patch_via_scp (fmt datastore) else ret true) ;;
    if negb copied
    then leave ssh_client api_connection (false, "Не удалось скопировать патч")
    else
      fatal <- quiesce is_clustered ;;
      match fatal with
      | Some reason => leave ssh_client api_connection (false, reason)
      | None => install_and_reboot host is_clustered ssh_client api_connection datastore
      end.

Definition process_host (host : ESXiHost) : M (bool * string) :=
  traced m_process_host fst
    (guarded None None
       (api_connection <- _connect_api host ;;
        guarded None api_connection
          (if negb (is_some api_connection)
           then leave None api_connection (false, "Ошибка подключения к API")
           else
             host_obj <- _get_host_system ;;
             if negb (is_some host_obj)
             then leave None api_connection (false, "Ошибка получения объекта хоста")
             else
               is_clustered <- is_host_in_cluster ;;
               _ <- enable_services_via_api ;;
               _ <- wait_for_ssh host 120 ;;
               ssh_client <- ssh_connect host ;;
               guarded ssh_client api_connection
                 (if negb (is_some ssh_client)
                  then leave ssh_client api_connection
                         (false, "Не удалось подключиться по SSH")
                  else patch_and_reboot host is_clustered
                         ssh_client api_connection)))).

(** *** The fleet *)

(** [for i, host in enumerate(self.hosts, 1)]; the accumulator is the
    dictionary [results]. *)
Fixpoint process_all (todo : list ESXiHost)
    (results : gmap string (bool * string)) : M (gmap string (bool * string)) :=
  match todo with
  | [] => ret results
  | host :: rest =>
      r <- process_host host ;;
      let results := <[name host := r]> results in
      _ <- (match rest with
            | [] => ret tt
            | _ :: _ => sleep 30
            end) ;;
      process_all rest results
  end.

Definition fail_count (results : gmap string (bool * string)) : nat :=
  length (filter (λ kv, kv.2.1 = false) (map_to_list results)).

Definition success_count (results : gmap string (bool * string)) : nat :=
  length (filter (λ kv, kv.2.1 = true) (map_to_list results)).

(** [run] up to the end of its main loop: the dictionary [results]. *)
Definition run_results : M (gmap string (bool * string)) :=
  _ <- for_each (λ _ host, _ <- test_connection host ;; ret tt) (hosts self) tt ;;
  process_all (hosts self) ∅.

Definition run : M bool :=
  results <- run_results ;;
  ret (bool_decide (fail_count results = 0%nat)).

End Methods.

(** ** Reading traces *)

(** The interactions performed between two worlds. *)
Definition events_since (w w' : World) : list (Z * Event) :=
  drop (length (trace w)) (trace w').

Definition is_marker (ev : Event) : bool :=
  match ev with
  | EvCall _ | EvRet _ _ => true
  | _ => false
  end.

(** The interactions proper: everything but the method markers. *)
Definition interactions (tr : list (Z * Event)) : list Event :=
  List.filter (λ ev, negb (is_marker ev)) (map snd tr).

Definition nonmarker (te : Z * Event) : Prop := is_marker te.2 = false.

(** The method markers of a trace, in order. *)
Definition markers (tr : list (Z * Event)) : list Event :=
  List.filter is_marker (map snd tr).

(** The remote commands of a trace, in order. *)
Definition commands (tr : list (Z * Event)) : list string :=
  omap (λ te, match te.2 with
              | EvSsh cmd _ _ _ _ => Some cmd
              | _ => None
              end) tr.

(** The remote commands with their success flags. *)
Definition command_results (tr : list (Z * Event)) : list (string * bool) :=
  omap (λ te, match te.2 with
              | EvSsh cmd _ ok _ _ => Some (cmd, ok)
              | _ => None
              end) tr.

(** The ports of the connection attempts of a trace, in order. *)
Definition probed_ports (tr : list (Z * Event)) : list Z :=
  omap (λ te, match te.2 with
              | EvProbe _ port _ => Some port
              | _ => None
              end) tr.

(** Every connection attempt of the trace goes to [addr], port 22 or 443. *)
Definition fixed_ports (addr : string) (tr : list (Z * Event)) : Prop :=
  Forall (λ te, match te.2 with
                | EvProbe a port _ => a = addr ∧ (port = 22 ∨ port = 443)
                | _ => True
                end) tr.

(** Some connection attempt to [addr], port [port], succeeded. *)
Definition reached (addr : string) (port : Z) (tr : list (Z * Event)) : Prop :=
  ∃ t, (t, EvProbe addr port (Done 0)) ∈ tr.








(** The methods that decide the claims on the order of steps 7 and 8. *)
Definition is_key (m : Method) : bool :=
  match m with
  | m_is_host_in_cluster | m_enter_maintenance_mode | m_check_and_shutdown_vms => true
  | _ => false
  end.

Definition key_event (ev : Event) : bool :=
  match ev with
  | EvCall m | EvRet m _ => is_key m
  | _ => false
  end.

(** No marker of a key method. *)
Definition free (ms : list Event) : Prop :=
  forallb (λ ev, negb (key_event ev)) ms = true.

Definition is_call (ev : Event) : bool :=
  match ev with EvCall _ => true | _ => false end.

(** No method is invoked. *)
Definition no_call (ms : list Event) : Prop :=
  forallb (λ ev, negb (is_call ev)) ms = true.

(** The computation returns a value, and the markers it adds satisfy [P]. *)
Definition runs {A} (f : M A) (w : World) (P : A → list Event → Prop) : Prop :=
  ∃ a w' seg, f w = (Ok a, w') ∧ trace w' = trace w ++ seg ∧ P a (markers seg).

(** The computation returns a value, with markers that satisfy [P], or
    raises, with markers that satisfy [E]. *)
Definition attempts {A} (f : M A) (w : World)
    (P : A → list Event → Prop) (E : list Event → Prop) : Prop :=
  ∃ res w' seg, f w = (res, w') ∧ trace w' = trace w ++ seg ∧
    match res with
    | Ok a => P a (markers seg)
    | Raise _ => E (markers seg)
    | Diverge => False
    end.

(** The computation returns or raises, and adds no marker of a key method. *)
Definition gentle {A} (f : M A) : Prop :=
  ∀ w, attempts f w (λ _ ms, free ms) (λ ms, free ms).

(** The computation returns a value and adds no marker of a key method. *)
Definition tame {A} (f : M A) : Prop := ∀ w, runs f w (λ _ ms, free ms).

Definition is_quiesce_event (ev : Event) : bool :=
  match ev with
  | EvCall m_enter_maintenance_mode | EvRet m_enter_maintenance_mode _
  | EvCall m_check_and_shutdown_vms | EvRet m_check_and_shutdown_vms _ => true
  | _ => false
  end.

(** Neither maintenance mode nor workload shutdown was reached. *)
Definition unquiesced (ms : list Event) : Prop :=
  forallb (λ ev, negb (is_quiesce_event ev)) ms = true.

Definition maintenance_failure : string :=
  "Не удалось перевести в режим обслуживания".

(** The markers of steps 7 and 8, with the fatal reason if any. *)
Definition quiesce_markers (is_clustered : bool) (fatal : option string)
    (ms : list Event) : Prop :=
  if is_clustered then
    (ms = [EvCall m_enter_maintenance_mode; EvRet m_enter_maintenance_mode false]
     ∧ fatal = Some maintenance_failure)
    ∨ (∃ b, ms = [EvCall m_enter_maintenance_mode; EvRet m_enter_maintenance_mode true;
                  EvCall m_check_and_shutdown_vms; EvRet m_check_and_shutdown_vms b]
            ∧ fatal = None)
  else
    ∃ b, (ms = [EvCall m_check_and_shutdown_vms; EvRet m_check_and_shutdown_vms b;
                EvCall m_enter_maintenance_mode; EvRet m_enter_maintenance_mode false]
          ∧ fatal = Some maintenance_failure)
         ∨ (ms = [EvCall m_check_and_shutdown_vms; EvRet m_check_and_shutdown_vms b;
                  EvCall m_enter_maintenance_mode; EvRet m_enter_maintenance_mode true]
            ∧ fatal = None).

(** The markers from step 9 on: installation, or verification when no
    artifact is present, comes first. *)
Definition after_shape (ms : list Event) : Prop :=
  free ms ∧ ∃ t, ms = EvCall m_install_patch_via_ssh :: t
                 ∨ ms = EvCall m_verify_patch_installation :: t.

(** The markers from steps 7 and 8 on. *)
Definition quiesce_shape (is_clustered : bool) (r : bool * string)
    (ms : list Event) : Prop :=
  ∃ q post fatal,
    ms = q ++ post ∧ quiesce_markers is_clustered fatal q ∧
    match fatal with
    | Some reason => no_call post ∧ free post ∧ r = (false, reason)
    | None => after_shape post
    end.

(** The markers from step 5 on. *)
Definition par_shape (is_clustered : bool) (r : bool * string)
    (ms : list Event) : Prop :=
  free ms ∨ ∃ p2 rest, ms = p2 ++ rest ∧ free p2 ∧ quiesce_shape is_clustered r rest.

(** The markers of a host run: it ends before steps 7 and 8, or it
    determines the topology once and goes through them. *)
Definition host_shape (r : bool * string) (ms : list Event) : Prop :=
  unquiesced ms ∨
  ∃ c p1 p2 rest,
    ms = p1 ++ [EvCall m_is_host_in_cluster; EvRet m_is_host_in_cluster c] ++ p2 ++ rest
    ∧ free p1 ∧ free p2 ∧ quiesce_shape c r rest.

Lemma events_since_app w w' seg :
  trace w' = trace w ++ seg → events_since w w' = seg.
Proof.
  intros E. unfold events_since. rewrite E. apply drop_app_length.
Qed.

(** ** Concrete environments *)

Definition world0 : World := {| now := 0; trace := [] |}.

(** Every call succeeds at once; the shell names a datastore and lists no
    workload; the host is standalone and not in maintenance mode. *)
Definition calm_shell (cmd : string) : bool * string * string :=
  if String.prefix "esxcli storage filesystem list" cmd
  then (true, "/vmfs/volumes/datastore1", "")
  else (true, "", "").

Definition calm : Env := {|
  e_ssh := λ _ cmd _, calm_shell cmd;
  e_probe := λ _ _ _, Done 0;
  e_smart_connect := λ _ _ _, Done tt;
  e_disconnect := λ _, Done tt;
  e_host_view := λ _, Done [1%nat];
  e_parent := λ _, Done None;
  e_services := λ _ _, true;
  e_ssh_connect := λ _ _ _, Done tt;
  e_ssh_close := λ _, Done tt;
  e_path_exists := λ _ _, true;
  e_getsize := λ _ _, Done 1024;
  e_sftp_open := λ _, Done tt;
  e_sftp_stat := λ _ _, Done 1024;
  e_sftp_put := λ _ _ _, Done tt;
  e_sftp_close := λ _, Done tt;
  e_in_maintenance := λ _, Done false;
  e_enter_maintenance := λ _ _, Done tt;
  e_exit_maintenance := λ _ _, Done tt;
  e_task_state := λ _, Done TaskSuccess;
  e_reboot := λ _, Done tt;
  e_self_test := λ _ _, (true, "ok");
  e_elapsed := λ _ _, 0%nat
|}.

(** [e] with another remote shell. *)
Definition with_ssh (f : World → string → Z → bool * string * string) (e : Env) : Env := {|
  e_ssh := f;
  e_probe := e_probe e;
  e_smart_connect := e_smart_connect e;
  e_disconnect := e_disconnect e;
  e_host_view := e_host_view e;
  e_parent := e_parent e;
  e_services := e_services e;
  e_ssh_connect := e_ssh_connect e;
  e_ssh_close := e_ssh_close e;
  e_path_exists := e_path_exists e;
  e_getsize := e_getsize e;
  e_sftp_open := e_sftp_open e;
  e_sftp_stat := e_sftp_stat e;
  e_sftp_put := e_sftp_put e;
  e_sftp_close := e_sftp_close e;
  e_in_maintenance := e_in_maintenance e;
  e_enter_maintenance := e_enter_maintenance e;
  e_exit_maintenance := e_exit_maintenance e;
  e_task_state := e_task_state e;
  e_reboot := e_reboot e;
  e_self_test := e_self_test e;
  e_elapsed := e_elapsed e
|}.

Definition esx1 : ESXiHost := {|
  name := "ESXi-01"; ip := "192.168.1.101";
  username := "root"; password := "secret";
  ssh_port := 22; api_port := 443
|}.

Definition patcher_zip : Patcher := {|
  hosts := [esx1];
  patch_file := Some "/tmp/ESXi650-202403001.zip";
  patch_name := Some "ESXi650-202403001.zip"
|}.



(** [e] with another report of the maintenance state. *)
Definition with_in_maintenance (f : World → Reply bool) (e : Env) : Env := {|
  e_ssh := e_ssh e;
  e_probe := e_probe e;
  e_smart_connect := e_smart_connect e;
  e_disconnect := e_disconnect e;
  e_host_view := e_host_view e;
  e_parent := e_parent e;
  e_services := e_services e;
  e_ssh_connect := e_ssh_connect e;
  e_ssh_close := e_ssh_close e;
  e_path_exists := e_path_exists e;
  e_getsize := e_getsize e;
  e_sftp_open := e_sftp_open e;
  e_sftp_stat := e_sftp_stat e;
  e_sftp_put := e_sftp_put e;
  e_sftp_close := e_sftp_close e;
  e_in_maintenance := f;
  e_enter_maintenance := e_enter_maintenance e;
  e_exit_maintenance := e_exit_maintenance e;
  e_task_state := e_task_state e;
  e_reboot := e_reboot e;
  e_self_test := e_self_test e;
  e_elapsed := e_elapsed e
|}.

(** [e] with other answers to connection attempts. *)
Definition with_probe (f : World → string → Z → Reply Z) (e : Env) : Env := {|
  e_ssh := e_ssh e;
  e_probe := f;
  e_smart_connect := e_smart_connect e;
  e_disconnect := e_disconnect e;
  e_host_view := e_host_view e;
  e_parent := e_parent e;
  e_services := e_services e;
  e_ssh_connect := e_ssh_connect e;
  e_ssh_close := e_ssh_close e;
  e_path_exists := e_path_exists e;
  e_getsize := e_getsize e;
  e_sftp_open := e_sftp_open e;
  e_sftp_stat := e_sftp_stat e;
  e_sftp_put := e_sftp_put e;
  e_sftp_close := e_sftp_close e;
  e_in_maintenance := e_in_maintenance e;
  e_enter_maintenance := e_enter_maintenance e;
  e_exit_maintenance := e_exit_maintenance e;
  e_task_state := e_task_state e;
  e_reboot := e_reboot e;
  e_self_test := e_self_test e;
  e_elapsed := e_elapsed e
|}.


(** Whether the last completed transition of a trace was an entry into
    maintenance mode. *)
Definition in_maintenance_after (tr : list (Z * Event)) : bool :=
  fold_left (λ st te, match te.2 with
                      | EvEnterMaintenanceMode _ (Done _) => true
                      | EvExitMaintenanceMode _ (Done _) => false
                      | _ => st
                      end) tr false.

(** A host that reports the maintenance state its transitions have left
    it in. *)
Definition tracking_host : Env :=
  with_in_maintenance (λ w, Done (in_maintenance_after (trace w))) calm.

(** [e] with another parent of the host object. *)
Definition with_parent (f : World → Reply (option Parent)) (e : Env) : Env := {|
  e_ssh := e_ssh e;
  e_probe := e_probe e;
  e_smart_connect := e_smart_connect e;
  e_disconnect := e_disconnect e;
  e_host_view := e_host_view e;
  e_parent := f;
  e_services := e_services e;
  e_ssh_connect := e_ssh_connect e;
  e_ssh_close := e_ssh_close e;
  e_path_exists := e_path_exists e;
  e_getsize := e_getsize e;
  e_sftp_open := e_sftp_open e;
  e_sftp_stat := e_sftp_stat e;
  e_sftp_put := e_sftp_put e;
  e_sftp_close := e_sftp_close e;
  e_in_maintenance := e_in_maintenance e;
  e_enter_maintenance := e_enter_maintenance e;
  e_exit_maintenance := e_exit_maintenance e;
  e_task_state := e_task_state e;
  e_reboot := e_reboot e;
  e_self_test := e_self_test e;
  e_elapsed := e_elapsed e
|}.

(** [e] with another management plane. *)
Definition with_smart_connect (f : World → string → Z → Reply unit) (e : Env) : Env := {|
  e_ssh := e_ssh e;
  e_probe := e_probe e;
  e_smart_connect := f;
  e_disconnect := e_disconnect e;
  e_host_view := e_host_view e;
  e_parent := e_parent e;
  e_services := e_services e;
  e_ssh_connect := e_ssh_connect e;
  e_ssh_close := e_ssh_close e;
  e_path_exists := e_path_exists e;
  e_getsize := e_getsize e;
  e_sftp_open := e_sftp_open e;
  e_sftp_stat := e_sftp_stat e;
  e_sftp_put := e_sftp_put e;
  e_sftp_close := e_sftp_close e;
  e_in_maintenance := e_in_maintenance e;
  e_enter_maintenance := e_enter_maintenance e;
  e_exit_maintenance := e_exit_maintenance e;
  e_task_state := e_task_state e;
  e_reboot := e_reboot e;
  e_self_test := e_self_test e;
  e_elapsed := e_elapsed e
|}.

(** A host that belongs to a cluster. *)
Definition cluster_member : Env :=
  with_parent (λ _, Done (Some {| has_name := true; is_cluster := true |})) calm.

Definition is_getstate (cmd : string) : bool :=
  String.prefix "vim-cmd vmsvc/power.getstate" cmd.

(** The shell of [calm], except that every state query fails. *)
Definition blind : Env :=
  with_ssh (λ _ cmd _, if is_getstate cmd
                       then (false, "", "unreachable") else (true, "", ""))
           calm.


(** A standalone host with one workload that stays powered on and refuses
    the forced power-off. *)
Definition stubborn : Env :=
  with_ssh (λ _ cmd _,
              if String.eqb cmd getallvms_cmd then (true, "1", "")
              else if is_getstate cmd then (true, "Powered on", "")
              else if String.prefix "vim-cmd vmsvc/power.off" cmd then (false, "", "busy")
              else calm_shell cmd)
           calm.

(** A host whose remote shell listens on port 2222 and whose management
    API listens on port 8443. *)
Definition esx_custom : ESXiHost := {|
  name := "ESXi-02"; ip := "192.168.1.102";
  username := "root"; password := "secret";
  ssh_port := 2222; api_port := 8443
|}.

(** Something answers on ports 22 and 443 of every address; every other
    port refuses the connection. *)
Definition decoy : Env :=
  with_probe (λ _ _ port, if (port =? 22) || (port =? 443) then Done 0 else Done 111)
             calm.

(** Two configured hosts with the same name. *)
Definition twin_a : ESXiHost := {|
  name := "esx"; ip := "10.0.0.1";
  username := "root"; password := "secret";
  ssh_port := 22; api_port := 443
|}.

Definition twin_b : ESXiHost := {|
  name := "esx"; ip := "10.0.0.2";
  username := "root"; password := "secret";
  ssh_port := 22; api_port := 443
|}.

Definition patcher_twins : Patcher := {|
  hosts := [twin_a; twin_b];
  patch_file := None;
  patch_name := None
|}.

(** The management API of 10.0.0.1 refuses the connection. *)
Definition first_host_down : Env :=
  with_smart_connect (λ _ addr _, if String.eqb addr "10.0.0.1"
                                  then Fault "connection refused" else Done tt)
                     calm.

Definition newline : string := String "010"%char EmptyString.

(** Two workloads, both powered off, both starting at the first request. *)
Definition two_off : Env :=
  with_ssh (λ _ cmd _, if String.eqb cmd getallvms_cmd
                       then (true, "1" +:+ newline +:+ "2", "")
                       else if is_getstate cmd then (true, "Powered off", "")
                       else (true, "", ""))
           calm.

(** The integer that a Python [bool] is. *)
Definition py_int (b : bool) : Z := if b then 1 else 0.

(** The dictionary after the assignments [results[k] = v] for the listed
    pairs, in their order, starting from the empty dictionary: a later
    assignment to a key replaces an earlier one. *)
Definition assigned (pairs : list (string * (bool * string)))
  : gmap string (bool * string) :=
  list_to_map (reverse pairs).

(** ** What a computation does to the world *)

(** Whatever the computation does, each event it adds satisfies [ok]. *)
Definition emits {A} (ok : Event → Prop) (f : M A) : Prop :=
  ∀ w, ∃ seg, trace (f w).2 = trace w ++ seg ∧ Forall (λ te, ok te.2) seg.

(** The peers of a host run: the management API and the remote shell at
    the configured ports, and the ports that the waits try. *)
Definition contacts_only (host : ESXiHost) (ev : Event) : Prop :=
  match ev with
  | EvSmartConnect addr port _ => addr = ip host ∧ port = api_port host
  | EvSshConnect addr port _ => addr = ip host ∧ port = ssh_port host
  | EvProbe addr port _ =>
      addr = ip host ∧ (port = ssh_port host ∨ port = 22 ∨ port = 443)
  | _ => True
  end.

(** What [wait_for_ssh] may do: sleep five seconds, or try the port of the
    remote shell of the host. *)
Definition ssh_wait_step (host : ESXiHost) (ev : Event) : Prop :=
  ev = EvSleep 5 ∨ ∃ r, ev = EvProbe (ip host) (ssh_port host) r.

(** What [_wait_for_task] may do: read the state of the task, or sleep
    five seconds. *)
Definition task_wait_step (ev : Event) : Prop :=
  ev = EvSleep 5 ∨ ∃ r, ev = EvTaskState r.

(** The number of sleeps of a trace. *)
Definition sleep_count (tr : list (Z * Event)) : nat :=
  length (List.filter (λ te, match te.2 with EvSleep _ => true | _ => false end) tr).

(** The two commands of [find_boot_datastore]. *)
Definition datastore_cmd : string :=
  "esxcli storage filesystem list | grep -E '^/vmfs/volumes/[^ ]+' | head -1 | awk '{print $1}'".
Definition datastore_fallback_cmd : string :=
  "ls -d /vmfs/volumes/*/ 2>/dev/null | head -1".

(** Every character is a decimal digit. *)
Fixpoint all_digits (s : string) : bool :=
  match s with
  | EmptyString => true
  | String c s' => PyStr.is_digit c && all_digits s'
  end.

(** [d] is a run of eight digits of [s] that begins at position [i]. *)
Definition digit_run_at (s : string) (i : nat) (d : string) : Prop :=
  ∃ pre post, s = pre +:+ d +:+ post ∧ String.length pre = i
              ∧ String.length d = 8%nat ∧ all_digits d = true.

(** What the shutdown sequence may do after its listing: sleep five
    seconds, list the workloads again, or send a state query, a graceful
    shutdown or a forced power-off to one of the listed workloads. *)
Definition shutdown_step (ids : list string) (ev : Event) : Prop :=
  ev = EvSleep 5
  ∨ ∃ cmd s o e,
      ev = EvSsh cmd 60 s o e
      ∧ (cmd = getallvms_cmd
         ∨ ∃ id, id ∈ ids
                 ∧ (cmd = getstate_cmd id ∨ cmd = shutdown_cmd id
                    ∨ cmd = poweroff_cmd id)).


(** ** The ways a host run can go *)

(** The markers of one invocation of a method that returned. *)
Definition invoked (m : Method) (b : bool) : list Event := [EvCall m; EvRet m b].

(** [k] connection attempts that failed. *)
Definition retries (k : nat) : list Event :=
  concat (replicate k (invoked m_connect_api false)).

(** Steps 14 to 18. *)
Definition restore_path (is_clustered : bool) (r : bool * string)
    (ms : list Event) : Prop :=
  (r = (false, "Не удалось подключиться после перезагрузки") ∧ ms = retries 5)
  ∨ ∃ k, (k < 5)%nat ∧
      ((r = (false, "Не удалось получить объект хоста после перезагрузки")
        ∧ ms = retries k ++ invoked m_connect_api true
               ++ invoked m_get_host_system false)
       ∨ ∃ ssh left started off,
           r = (true, "Успех")
           ∧ ms = retries k ++ invoked m_connect_api true
                  ++ invoked m_get_host_system true
                  ++ invoked m_ssh_connect ssh
                  ++ invoked m_exit_maintenance_mode left
                  ++ (if negb is_clustered && ssh
                      then invoked m_start_vms_after_reboot started else [])
                  ++ invoked m_disable_services_via_api off).

(** What follows a reboot command that was accepted. *)
Definition after_reboot_path (is_clustered : bool) (r : bool * string)
    (ms : list Event) : Prop :=
  ((∃ e, r = (false, "Исключение: " +:+ e)) ∧ ms = [])
  ∨ (r = (false, "Хост не перезагрузился или недоступен после перезагрузки")
     ∧ ms = invoked m_wait_for_host_reboot false)
  ∨ ∃ rest, ms = invoked m_wait_for_host_reboot true ++ rest
            ∧ restore_path is_clustered r rest.

(** Steps 9 to 13 and what follows; [has_patch] tells whether a patch
    file is configured. *)
Definition install_path (has_patch is_clustered : bool) (r : bool * string)
    (ms : list Event) : Prop :=
  (has_patch = true ∧ r = (false, "Не удалось установить патч")
   ∧ ms = invoked m_install_patch_via_ssh false)
  ∨ ∃ inst verified clean rebooted rest,
      (inst = [] ∨ has_patch = true ∧ inst = invoked m_install_patch_via_ssh true)
      ∧ (clean = [] ∨ has_patch = true ∧ ∃ b, clean = invoked m_cleanup_patch_file b)
      ∧ ms = inst ++ invoked m_verify_patch_installation verified ++ clean
             ++ invoked m_reboot_host rebooted ++ rest
      ∧ (if rebooted then after_reboot_path is_clustered r rest
         else r = (false, "Ошибка при перезагрузке") ∧ rest = []).

(** Steps 5 to 8 and what follows. *)
Definition patch_path (has_patch is_clustered : bool) (r : bool * string)
    (ms : list Event) : Prop :=
  (r = (false, "Не удалось найти датастор") ∧ ms = invoked m_find_boot_datastore false)
  ∨ (has_patch = true ∧ r = (false, "Не удалось скопировать патч")
     ∧ ms = invoked m_find_boot_datastore true ++ invoked m_copy_patch_via_scp false)
  ∨ ∃ copy q fatal rest,
      (copy = [] ∨ has_patch = true ∧ copy = invoked m_copy_patch_via_scp true)
      ∧ quiesce_markers is_clustered fatal q
      ∧ ms = invoked m_find_boot_datastore true ++ copy ++ q ++ rest
      ∧ match fatal with
        | Some reason => r = (false, reason) ∧ rest = []
        | None => install_path has_patch is_clustered r rest
        end.

(** The markers between the invocation of [process_host] and its return. *)
Definition host_path (has_patch : bool) (r : bool * string)
    (ms : list Event) : Prop :=
  (r = (false, "Ошибка подключения к API") ∧ ms = invoked m_connect_api false)
  ∨ (r = (false, "Ошибка получения объекта хоста")
     ∧ ms = invoked m_connect_api true ++ invoked m_get_host_system false)
  ∨ ∃ is_clustered enabled reachable ssh rest,
      ms = invoked m_connect_api true ++ invoked m_get_host_system true
           ++ invoked m_is_host_in_cluster is_clustered
           ++ invoked m_enable_services_via_api enabled
           ++ invoked m_wait_for_ssh reachable
           ++ invoked m_ssh_connect ssh ++ rest
      ∧ (if ssh then patch_path has_patch is_clustered r rest
         else r = (false, "Не удалось подключиться по SSH") ∧ rest = []).

(** A number for each method, to compare methods by computation. *)
Definition method_id (m : Method) : nat :=
  match m with
  | m_connect_api => 0 | m_get_host_system => 1 | m_is_host_in_cluster => 2
  | m_enable_services_via_api => 3 | m_disable_services_via_api => 4
  | m_wait_for_ssh => 5 | m_ssh_connect => 6 | m_find_boot_datastore => 7
  | m_copy_patch_via_scp => 8 | m_enter_maintenance_mode => 9
  | m_check_and_shutdown_vms => 10 | m_start_vms_after_reboot => 11
  | m_install_patch_via_ssh => 12 | m_verify_patch_installation => 13
  | m_cleanup_patch_file => 14 | m_reboot_host => 15 | m_wait_for_host_reboot => 16
  | m_exit_maintenance_mode => 17 | m_test_connection => 18 | m_process_host => 19
  end%nat.

(** The event is the invocation of [m]. *)
Definition is_call_of (m : Method) (ev : Event) : bool :=
  match ev with
  | EvCall m' => Nat.eqb (method_id m') (method_id m)
  | _ => false
  end.

(** The event is the return of [m] with the truth value [b]. *)
Definition is_ret_of (m : Method) (b : bool) (ev : Event) : bool :=
  match ev with
  | EvRet m' b' => Nat.eqb (method_id m') (method_id m) && Bool.eqb b' b
  | _ => false
  end.

(** The number of invocations of [m]. *)
Definition call_count (m : Method) (ms : list Event) : nat :=
  length (List.filter (is_call_of m) ms).

(** Every event that satisfies [target] comes after some event that
    satisfies [need]; [seen] tells whether one came already. *)
Fixpoint precedes (need target : Event → bool) (seen : bool)
    (ms : list Event) : bool :=
  match ms with
  | [] => true
  | ev :: ms' =>
      (if target ev then seen else true)
      && precedes need target (seen || need ev) ms'
  end.

(** What an exception leaves behind: the result that [process_host]
    makes of it. *)
Definition raised (path : bool * string → list Event → Prop) (ms : list Event) : Prop :=
  ∀ e, path (false, "Исключение: " +:+ e) ms.

(** The fixed reasons of a failed host run. *)
Definition failure_reasons : list string :=
  [ "Ошибка подключения к API";
    "Ошибка получения объекта хоста";
    "Не удалось подключиться по SSH";
    "Не удалось найти датастор";
    "Не удалось скопировать патч";
    "Не удалось перевести в режим обслуживания";
    "Не удалось установить патч";
    "Ошибка при перезагрузке";
    "Хост не перезагрузился или недоступен после перезагрузки";
    "Не удалось подключиться после перезагрузки";
    "Не удалось получить объект хоста после перезагрузки" ].

(** [a] occurs in [ms] with [b] right after it. *)
Definition adjacent (a b : Event) (ms : list Event) : Prop :=
  ∃ pre post, ms = pre ++ a :: b :: post.

(** ** The service methods in detail *)

Module Services.

(** [vim.host.Service]: the fields that the code reads;
    [getattr(service, 'policy', None)]. *)
Record Service := {
  key : string;
  running : bool;
  policy : option string
}.

(** The calls that change the host. *)
Inductive Call :=
| Start (id : string)
| Stop (id : string)
| UpdateServicePolicy (id : string) (policy : string).

(** The service system of a host: [host_obj.configManager.serviceSystem]
    (it may raise, or be empty), [serviceInfo.service] and the outcome of
    a call, both as functions of the calls made so far. *)
Record Host := {
  service_system : Reply bool;
  service_info : list Call → Reply (list Service);
  accepts : list Call → Call → Reply unit
}.

(** A computation with the list of the calls made so far. *)
Definition Run (A : Type) : Type := list Call → Reply A * list Call.

Definition unit_run {A} (a : A) : Run A := λ log, (Done a, log).

Definition then_run {A B} (m : Run A) (k : A → Run B) : Run B :=
  λ log, match m log with
         | (Done a, log') => k a log'
         | (Fault e, log') => (Fault e, log')
         end.

(** [try: body except Exception: handler] *)
Definition caught {A} (body : Run A) (handler : Run A) : Run A :=
  λ log, match body log with
         | (Fault _, log') => handler log'
         | r => r
         end.

Section Switches.

Context (host : Host).

Definition read_services : Run (list Service) :=
  λ log, (service_info host log, log).

Definition call (c : Call) : Run unit :=
  λ log, (accepts host log c, log ++ [c]).

(** [for s in service_system.serviceInfo.service: if s.key == name: ...;
    break] *)
Definition find_service (name : string) (services : list Service) : option Service :=
  List.find (λ s, String.eqb (key s) name) services.

Definition policy_is (service : Service) (value : string) : bool :=
  match policy service with
  | Some p => String.eqb p value
  | None => false
  end.

(** The body of [for service_name in services_to_enable]; the state is
    [enabled_services]. *)
Definition enable_service (enabled_services : list string) (service_name : string)
  : Run (list string) :=
  caught
    (then_run read_services (λ services,
       match find_service service_name services with
       | None => unit_run enabled_services
       | Some service =>
           then_run (if negb (running service)
                     then caught (call (Start (key service))) (unit_run tt)
                     else unit_run tt) (λ _,
           then_run (if negb (policy_is service "on")
                     then caught (call (UpdateServicePolicy (key service) "on"))
                                 (unit_run tt)
                     else unit_run tt) (λ _,
           unit_run (enabled_services ++ [service_name])))
       end))
    (unit_run enabled_services).

(** The body of [for service_name in services_to_disable]. *)
Definition disable_service (disabled_services : list string) (service_name : string)
  : Run (list string) :=
  caught
    (then_run read_services (λ services,
       match find_service service_name services with
       | None => unit_run disabled_services
       | Some service =>
           then_run (if running service
                     then caught (call (Stop (key service))) (unit_run tt)
                     else unit_run tt) (λ _,
           then_run (if negb (policy_is service "off")
                     then caught (call (UpdateServicePolicy (key service) "off"))
                                 (unit_run tt)
                     else unit_run tt) (λ _,
           unit_run (disabled_services ++ [service_name])))
       end))
    (unit_run disabled_services).

Fixpoint each (body : list string → string → Run (list string))
    (names : list string) (acc : list string) : Run (list string) :=
  match names with
  | [] => unit_run acc
  | name :: names' => then_run (body acc name) (each body names')
  end.

Definition service_names : list string := ["TSM"; "TSM-SSH"].

(** The methods: the result and the calls made. *)
Definition switch_services (body : list string → string → Run (list string))
  : bool * list Call :=
  match service_system host with
  | Fault _ => (false, [])
  | Done false => (false, [])
  | Done true =>
      match each body service_names [] [] with
      | (Done changed, log) => (bool_decide (0 < length changed)%nat, log)
      | (Fault _, log) => (false, log)
      end
  end.

Definition enable_services_via_api : bool * list Call :=
  switch_services enable_service.

Definition disable_services_via_api : bool * list Call :=
  switch_services disable_service.

End Switches.

(** What a call does to one service of a host that obeys. *)
Definition affect (c : Call) (s : Service) : Service :=
  match c with
  | Start id =>
      if String.eqb (key s) id
      then {| key := key s; running := true; policy := policy s |} else s
  | Stop id =>
      if String.eqb (key s) id
      then {| key := key s; running := false; policy := policy s |} else s
  | UpdateServicePolicy id p =>
      if String.eqb (key s) id
      then {| key := key s; running := running s; policy := Some p |} else s
  end.

Definition obey (services : list Service) (c : Call) : list Service :=
  map (affect c) services.

(** A host that obeys every call, with the services it starts with. *)
Definition obedient (initial : list Service) : Host := {|
  service_system := Done true;
  service_info := λ log, Done (fold_left obey log initial);
  accepts := λ _ _, Done tt
|}.

(** The state of a service that a switch aims at. *)
Definition switched (start : bool) (s : Service) : Prop :=
  running s = start ∧ policy s = Some (if start then "on" else "off")%string.

(** The calls of a round, from what was read. *)
Definition round_of (start : bool) (s : Service) : list Call :=
  (if bool_decide (running s = start) then []
   else [if start then Start (key s) else Stop (key s)])
  ++ (if policy_is s (if start then "on" else "off") then []
      else [UpdateServicePolicy (key s) (if start then "on" else "off")]).

End Services.

(** The calls of one round: for the service of that name only, of the
    kinds that the switch may send. *)
Definition round_calls (start : bool) (name : string) (calls : list Services.Call) : Prop :=
  Forall (λ c, if start
               then c = Services.Start name ∨ c = Services.UpdateServicePolicy name "on"
               else c = Services.Stop name ∨ c = Services.UpdateServicePolicy name "off") calls
  ∧ (length calls ≤ 2)%nat.

(** A call that a switch may send: to [TSM] or [TSM-SSH], to start it
    and set its policy to [on], or to stop it and set its policy to
    [off]. *)
Definition switch_call (start : bool) (c : Services.Call) : Prop :=
  ∃ id, id ∈ Services.service_names
        ∧ if start
          then c = Services.Start id ∨ c = Services.UpdateServicePolicy id "on"
          else c = Services.Stop id ∨ c = Services.UpdateServicePolicy id "off".

(** ** The pre-flight test in detail *)

Module Preflight.

Section Test.

(** [full_name] is the read of
    [host_obj.summary.config.product.fullName]. *)
Context (env : Env) (full_name : World → Reply string).

Definition product_full_name : M string :=
  λ w, of_reply (full_name w) w.

(** [test_connection]: the body of its [try], and the handler of
    [except Exception]. *)
Definition test_connection (host : ESXiHost) : M (bool * string) :=
  try_except
    (ssh_client <- ssh_connect env host ;;
     _ <- (if is_some ssh_client
           then
             _ <- ssh_execute env "vmware -v" 60 ;;
             ssh_close env
           else ret tt) ;;
     api_conn <- _connect_api env host ;;
     _ <- (if is_some api_conn
           then
             host_obj <- _get_host_system env ;;
             _ <- (if is_some host_obj
                   then _ <- product_full_name ;; ret tt
                   else ret tt) ;;
             disconnect env
           else ret tt) ;;
     ret (true, "Тест пройден"))
    (λ e, ret (false, "Ошибка теста: " +:+ e)).

End Test.

End Preflight.

(** What the pre-flight test may do: open and close the two sessions of
    the host, ask for the version and look the host up. *)
Definition preflight_step (host : ESXiHost) (ev : Event) : Prop :=
  match ev with
  | EvSshConnect addr port _ => addr = ip host ∧ port = ssh_port host
  | EvSsh cmd timeout _ _ _ => cmd = "vmware -v" ∧ timeout = 60
  | EvSshClose _ => True
  | EvSmartConnect addr port _ => addr = ip host ∧ port = api_port host
  | EvHostView _ => True
  | EvDisconnect _ => True
  | _ => False
  end.

(** What the pre-flight test guarantees, on its result [(ok, msg)] and
    its interactions [io]. *)
Definition preflight_verdict (host : ESXiHost) (ok : bool) (msg : string)
    (io : list Event) : Prop :=
  Forall (preflight_step host) io
  ∧ (ok = true → msg = "Тест пройден")
  ∧ (ok = false → ∃ e, msg = "Ошибка теста: " +:+ e)
  ∧ (ok = false ↔
       (∃ e, last io = Some (EvSshClose (Fault e)))
       ∨ (∃ e, last io = Some (EvDisconnect (Fault e)))
       ∨ (∃ h view, last io = Some (EvHostView (Done (h :: view)))))
  ∧ ((∃ e, EvSshConnect (ip host) (ssh_port host) (Fault e) ∈ io) →
     (∃ e, EvSmartConnect (ip host) (api_port host) (Fault e) ∈ io) →
     ok = true ∧ length io = 2%nat).

(** ** Loading the configuration *)

Module Config.

(** The exceptions that [_load_config] distinguishes: the two it raises
    itself, the [KeyError] it catches, and any other exception of a
    library, which it lets through. *)
Inductive Exception :=
| FileNotFoundError (msg : string)
| ValueError (msg : string)
| KeyError (key : string)
| LibraryError (msg : string).

Inductive Outcome (A : Type) : Type :=
| Loaded (a : A)
| Failed (e : Exception).
Arguments Loaded {A} a.
Arguments Failed {A} e.

Definition and_then {A B} (m : Outcome A) (k : A → Outcome B) : Outcome B :=
  match m with
  | Loaded a => k a
  | Failed e => Failed e
  end.

(** What [configparser.ConfigParser] holds after [config.read]:
    [config.sections()], in the order of the file, and the value of an
    option of a section, with defaults and interpolation resolved; the
    option may be missing, and the interpolation may raise. *)
Record Parsed := {
  sections : list string;
  get : string → string → Reply (option string)
}.

Section Load.

(** [os.path.exists], [config.read], [int] on a string (it raises
    [ValueError]) and [os.path.basename]. *)
Context (path_exists : string → bool)
        (read : string → Reply Parsed)
        (int : string → Reply Z)
        (basename : string → string).

(** [config[section][option]] *)
Definition item (config : Parsed) (section option : string) : Outcome string :=
  match get config section option with
  | Done (Some value) => Loaded value
  | Done None => Failed (KeyError option)
  | Fault e => Failed (LibraryError e)
  end.

(** [config[section].get(option, fallback)] *)
Definition get_or (config : Parsed) (section option fallback : string)
  : Outcome string :=
  match get config section option with
  | Done (Some value) => Loaded value
  | Done None => Loaded fallback
  | Fault e => Failed (LibraryError e)
  end.

Definition to_int (value : string) : Outcome Z :=
  match int value with
  | Done n => Loaded n
  | Fault e => Failed (ValueError e)
  end.

(** [section in config], for a name other than that of the default
    section. *)
Definition has_section (config : Parsed) (section : string) : bool :=
  bool_decide (section ∈ sections config).

(** [if 'settings' in config: try: ... except Exception: ...]; the
    result is [self.timeout]. *)
Definition load_timeout (config : Parsed) : Z :=
  if has_section config "settings" then
    match and_then (get_or config "settings" "timeout" "300") to_int with
    | Loaded n => n
    | Failed _ => 300
    end
  else 300.

(** [ESXiHost(name=..., ip=..., ...)]: the arguments are evaluated in
    their order. *)
Definition host_fields (config : Parsed) (section : string) : Outcome ESXiHost :=
  and_then (get_or config section "name" section) (λ host_name,
  and_then (item config section "ip") (λ host_ip,
  and_then (get_or config section "username" "root") (λ host_username,
  and_then (item config section "password") (λ host_password,
  and_then (and_then (get_or config section "ssh_port" "22") to_int) (λ host_ssh_port,
  and_then (and_then (get_or config section "api_port" "443") to_int) (λ host_api_port,
  Loaded {| name := host_name; ip := host_ip;
            username := host_username; password := host_password;
            ssh_port := host_ssh_port; api_port := host_api_port |})))))).

Definition missing_field (section key : string) : string :=
  "Ошибка в конфиге: секция " +:+ section
  +:+ " не содержит обязательного поля '" +:+ key +:+ "'".

(** [try: host = ESXiHost(...) except KeyError as e: raise ValueError(...)] *)
Definition load_host (config : Parsed) (section : string) : Outcome ESXiHost :=
  match host_fields config section with
  | Failed (KeyError key) => Failed (ValueError (missing_field section key))
  | r => r
  end.

(** [for section in config.sections()]; the accumulator is
    [self.hosts]. *)
Fixpoint load_hosts (config : Parsed) (todo : list string) (acc : list ESXiHost)
  : Outcome (list ESXiHost) :=
  match todo with
  | [] => Loaded acc
  | section :: rest =>
      if PyStr.startswith section "host_"
      then and_then (load_host config section)
                    (λ host, load_hosts config rest (acc ++ [host]))
      else load_hosts config rest acc
  end.

(** [if 'patch' in config: ...]; the result is [self.patch_file] and
    [self.patch_name]. *)
Definition load_patch (config : Parsed) : Outcome (option string * option string) :=
  if has_section config "patch" then
    and_then (get_or config "patch" "patch_file" "") (λ value,
      let file := PyStr.strip value in
      Loaded (Some file,
              if PyStr.is_empty file then None else Some (basename file)))
  else Loaded (None, None).

(** [_load_config]: [self.timeout] and the other fields of the patcher. *)
Definition _load_config (config_file : string) : Outcome (Z * Patcher) :=
  if negb (path_exists config_file)
  then Failed (FileNotFoundError
                 ("Конфигурационный файл не найден: " +:+ config_file))
  else
    match read config_file with
    | Fault e => Failed (LibraryError e)
    | Done config =>
        let timeout := load_timeout config in
        and_then (load_hosts config (sections config) []) (λ loaded,
        and_then (load_patch config) (λ patch,
        match loaded with
        | [] => Failed (ValueError "Не найдены хосты в конфигурации")
        | _ :: _ =>
            Loaded (timeout, {| hosts := loaded;
                                patch_file := patch.1;
                                patch_name := patch.2 |})
        end))
    end.

(** The value of an option that has a fallback. *)
Definition option_or (config : Parsed) (section option fallback value : string)
  : Prop :=
  get config section option = Done (Some value)
  ∨ (get config section option = Done None ∧ value = fallback).

(** The host that a section describes. *)
Definition describes (config : Parsed) (section : string) (host : ESXiHost) : Prop :=
  option_or config section "name" section (name host)
  ∧ get config section "ip" = Done (Some (ip host))
  ∧ option_or config section "username" "root" (username host)
  ∧ get config section "password" = Done (Some (password host))
  ∧ (∃ value, option_or config section "ssh_port" "22" value
              ∧ int value = Done (ssh_port host))
  ∧ (∃ value, option_or config section "api_port" "443" value
              ∧ int value = Done (api_port host)).

(** The section lacks the required option [key], and the options that
    are read before it can be read. *)
Definition lacks (config : Parsed) (section key : string) : Prop :=
  (∃ value, get config section "name" = Done value)
  ∧ ((key = "ip" ∧ get config section "ip" = Done None)
     ∨ (key = "password"
        ∧ (∃ value, get config section "ip" = Done (Some value))
        ∧ (∃ value, get config section "username" = Done value)
        ∧ get config section "password" = Done None)).

End Load.

(** The sections that describe hosts. *)
Definition host_sections (config : Parsed) : list string :=
  List.filter (λ section, PyStr.startswith section "host_") (sections config).

End Config.

(** The interactions of the wait for a reboot on a host that answers
    every probe. *)
Definition never_down (host : ESXiHost) : list Event :=
  mjoin (replicate 60 [EvProbe (ip host) 22 (Done 0); EvSleep 5])
  ++ [EvProbe (ip host) 22 (Done 0); EvSleep 15;
      EvProbe (ip host) 443 (Done 0); EvSleep 25].

(** ** Sessions *)

(** Which sessions are open after an interaction: the remote shell and
    the management API.  A session counts as closed once its close has
    been called, whether or not the call raised. *)
Definition track (open : bool * bool) (ev : Event) : bool * bool :=
  match ev with
  | EvSshConnect _ _ (Done _) => (true, open.2)
  | EvSshClose _ => (false, open.2)
  | EvSmartConnect _ _ (Done _) => (open.1, true)
  | EvDisconnect _ => (open.1, false)
  | _ => open
  end.

Definition open_sessions (start : bool * bool) (tr : list (Z * Event)) : bool * bool :=
  fold_left (λ open te, track open te.2) tr start.

(** An interaction that opens and closes nothing. *)
Definition inert (ev : Event) : Prop := ∀ open, track open ev = open.

(** No session is open in [s] that is not open in [bound]. *)
Definition within (s bound : bool * bool) : Prop :=
  (s.1 = true → bound.1 = true) ∧ (s.2 = true → bound.2 = true).

(** From sessions within [P], the computation leaves sessions within
    [Q a] when it returns [a], and within [E] when it raises. *)
Definition moves {A} (P : bool * bool) (f : M A) (Q : A → bool * bool)
    (E : bool * bool) : Prop :=
  ∀ w, ∃ seg,
    trace (f w).2 = trace w ++ seg
    ∧ ∀ s, within s P →
           match (f w).1 with
           | Ok a => within (open_sessions s seg) (Q a)
           | Raise _ => within (open_sessions s seg) E
           | Diverge => True
           end.

(** *** Further hosts, services and configurations *)

(** Two configured hosts with different names. *)
Definition patcher_pair : Patcher := {|
  hosts := [esx1; esx_custom];
  patch_file := None;
  patch_name := None
|}.

(** A host that lists the remote shell, stopped, whatever is called,
    and refuses every call. *)
Definition deaf_host : Services.Host := {|
  Services.service_system := Done true;
  Services.service_info := λ _,
    Done [{| Services.key := "TSM-SSH"; Services.running := false;
             Services.policy := Some "off" |}];
  Services.accepts := λ _ _, Fault "refused"
|}.

(** [int] on a string of ASCII digits; it refuses every other string. *)
Fixpoint decimal_from (acc : Z) (s : string) : Reply Z :=
  match s with
  | EmptyString => Done acc
  | String c s' =>
      if PyStr.is_digit c
      then decimal_from (10 * acc + Z.of_nat (nat_of_ascii c) - 48) s'
      else Fault "invalid literal for int() with base 10"
  end.

Definition decimal (s : string) : Reply Z :=
  if PyStr.is_empty s then Fault "invalid literal for int() with base 10"
  else decimal_from 0 s.

(** A configuration from its sections and a table of
    [(section, option, value)]; no option raises. *)
Definition config_of (names : list string) (table : list (string * string * string))
  : Config.Parsed := {|
  Config.sections := names;
  Config.get := λ section option,
    Done (snd <$> List.find (λ e, String.eqb e.1.1 section && String.eqb e.1.2 option)
                            table)
|}.

(** The example configuration that [main] writes, with a patch. *)
Definition sample_config : Config.Parsed :=
  config_of ["settings"; "patch"; "host_esxi01"]
    [("settings", "timeout", "300");
     ("patch", "patch_file", " /tmp/ESXi650-202403001.zip ");
     ("host_esxi01", "name", "ESXi-01");
     ("host_esxi01", "ip", "192.168.1.101");
     ("host_esxi01", "username", "root");
     ("host_esxi01", "password", "your_password");
     ("host_esxi01", "ssh_port", "22");
     ("host_esxi01", "api_port", "443")].

(** A complete host, then a host without an address. *)
Definition config_without_ip : Config.Parsed :=
  config_of ["host_a"; "host_b"; "host_c"]
    [("host_a", "ip", "10.0.0.1"); ("host_a", "password", "secret");
     ("host_b", "password", "secret");
     ("host_c", "ip", "10.0.0.3"); ("host_c", "password", "secret")].

(** A host whose port of the remote shell is no number. *)
Definition config_with_bad_port : Config.Parsed :=
  config_of ["host_a"]
    [("host_a", "ip", "10.0.0.1"); ("host_a", "password", "secret");
     ("host_a", "ssh_port", "ssh")].

(** A host whose port of the management API is no number. *)
Definition config_with_bad_api_port : Config.Parsed :=
  config_of ["host_a"]
    [("host_a", "ip", "10.0.0.1"); ("host_a", "password", "secret");
     ("host_a", "api_port", "https")].

(** Settings and a patch, and no host. *)
Definition config_without_hosts : Config.Parsed :=
  config_of ["settings"; "patch"]
    [("settings", "timeout", "300"); ("patch", "patch_file", "/tmp/patch.zip")].

(** The interactions of the start-up loop over the listed workloads, with
    the number of workloads started: a workload is queried; it is sent a
    power-on command only after a successful query that reports it off,
    and it counts only when that command succeeds. *)
Inductive started_trace : list string → list Event → nat → Prop :=
| started_nil : started_trace [] [] 0
| started_skip vm_id ok out err ids evs n :
    ok && PyStr.contains "Powered off" out = false →
    started_trace ids evs n →
    started_trace (vm_id :: ids)
      (EvSsh (getstate_cmd vm_id) 60 ok out err :: evs) n
| started_on vm_id out err on_ok o2 e2 ids evs n :
    PyStr.contains "Powered off" out = true →
    started_trace ids evs n →
    started_trace (vm_id :: ids)
      (EvSsh (getstate_cmd vm_id) 60 true out err
       :: EvSsh (poweron_cmd vm_id) 60 on_ok o2 e2 :: evs)
      (if on_ok then S n else n).

(** The host runs of the main loop of [run], one after the other: the
    run of a host begins in the world that the run of the host before it
    has left, after the pause of thirty seconds. *)
Inductive fleet_runs (env : Env) (self : Patcher)
  : list ESXiHost → World → list (bool * string) → World → Prop :=
| fleet_done w : fleet_runs env self [] w [] w
| fleet_next host rest w r w1 outs w' :
    process_host env self host w = (Ok r, w1) →
    fleet_runs env self rest
      (match rest with [] => w1 | _ :: _ => extend w1 30 (EvSleep 30) end) outs w' →
    fleet_runs env self (host :: rest) w (r :: outs) w'.

(** ** Runs that add interactions only *)

(** [w'] continues [w]: the clock did not go back and the trace grew by
    interactions that are not method markers. *)
Definition steady (w w' : World) : Prop :=
  now w ≤ now w' ∧ ∃ seg, trace w' = trace w ++ seg ∧ Forall nonmarker seg.

(** The computation returns a value (it neither raises nor runs out of
    fuel) and the world continues steadily. *)
Definition plain_at {A} (f : M A) (w : World) : Prop :=
  ∃ a w', f w = (Ok a, w') ∧ steady w w'.

(** The computation returns or raises. *)
Definition quiet_at {A} (f : M A) (w : World) : Prop :=
  ∃ r w', f w = (r, w') ∧ r ≠ Diverge ∧ steady w w'.

Definition plain {A} (f : M A) : Prop := ∀ w, plain_at f w.
Definition quiet {A} (f : M A) : Prop := ∀ w, quiet_at f w.

Lemma steady_refl w : steady w w.
Proof.
  split; [lia|]. exists []. split; [by rewrite app_nil_r | constructor].
Qed.

Lemma steady_trans w1 w2 w3 : steady w1 w2 → steady w2 w3 → steady w1 w3.
Proof.
  intros [H1 (s1 & E1 & F1)] [H2 (s2 & E2 & F2)]. split; [lia|].
  exists (s1 ++ s2). split.
  - by rewrite E2, E1, app_assoc.
  - by apply Forall_app.
Qed.

Lemma plain_quiet_at {A} (f : M A) w : plain_at f w → quiet_at f w.
Proof. intros (a & w' & E & S). by exists (Ok a), w'. Qed.

Lemma plain_ret {A} (a : A) : plain (ret a).
Proof. intros w. exists a, w. split; [done | apply steady_refl]. Qed.

Lemma quiet_raise {A} msg : quiet (@raise A msg).
Proof. intros w. exists (Raise msg), w. split_and!; [done | done | apply steady_refl]. Qed.

Lemma plain_bind_at {A B} (m : M A) (k : A → M B) w :
  plain_at m w →
  (∀ a w', m w = (Ok a, w') → steady w w' → plain_at (k a) w') →
  plain_at (bind m k) w.
Proof.
  intros (a & w1 & E & S) Hk. destruct (Hk a w1 E S) as (b & w2 & E2 & S2).
  exists b, w2. unfold bind. rewrite E. split; [done | by eapply steady_trans].
Qed.

Lemma quiet_bind_at {A B} (m : M A) (k : A → M B) w :
  quiet_at m w →
  (∀ a w', m w = (Ok a, w') → steady w w' → quiet_at (k a) w') →
  quiet_at (bind m k) w.
Proof.
  intros (r & w1 & E & ND & S) Hk. unfold quiet_at, bind. rewrite E.
  destruct r as [a|e|]; [|by exists (Raise e), w1|done].
  destruct (Hk a w1 E S) as (r2 & w2 & E2 & ND2 & S2).
  exists r2, w2. split_and!; [done | done | by eapply steady_trans].
Qed.

Lemma plain_bind {A B} (m : M A) (k : A → M B) :
  plain m → (∀ a, plain (k a)) → plain (bind m k).
Proof. intros Hm Hk w. apply plain_bind_at; [apply Hm | intros; apply Hk]. Qed.

Lemma quiet_bind {A B} (m : M A) (k : A → M B) :
  quiet m → (∀ a, quiet (k a)) → quiet (bind m k).
Proof. intros Hm Hk w. apply quiet_bind_at; [apply Hm | intros; apply Hk]. Qed.

Lemma plain_at_of {A} (f : M A) w : plain f → plain_at f w.
Proof. intros H. apply H. Qed.

Lemma quiet_at_of {A} (f : M A) w : quiet f → quiet_at f w.
Proof. intros H. apply H. Qed.

Lemma plain_quiet {A} (f : M A) : plain f → quiet f.
Proof. intros H w. apply plain_quiet_at, H. Qed.

Lemma plain_try_except_at {A} (body : M A) (h : string → M A) w :
  quiet_at body w →
  (∀ e w', steady w w' → plain_at (h e) w') →
  plain_at (try_except body h) w.
Proof.
  intros (r & w1 & E & ND & S) Hh. unfold plain_at, try_except. rewrite E.
  destruct r as [a|e|]; [by exists a, w1| |done].
  destruct (Hh e w1 S) as (b & w2 & E2 & S2).
  exists b, w2. split; [done | by eapply steady_trans].
Qed.

Lemma plain_try_except {A} (body : M A) (h : string → M A) :
  quiet body → (∀ e, plain (h e)) → plain (try_except body h).
Proof. intros Hb Hh w. apply plain_try_except_at; [apply Hb | intros; apply Hh]. Qed.

Lemma quiet_of_reply {A} (r : Reply A) : quiet (of_reply r).
Proof. destruct r; [apply plain_quiet, plain_ret | apply quiet_raise]. Qed.

Lemma plain_if {A} (b : bool) (f g : M A) : plain f → plain g → plain (if b then f else g).
Proof. by destruct b. Qed.

Lemma quiet_if {A} (b : bool) (f g : M A) : quiet f → quiet g → quiet (if b then f else g).
Proof. by destruct b. Qed.

Lemma plain_for_each {A B} (body : B → A → M B) xs acc :
  (∀ b a, plain (body b a)) → plain (for_each body xs acc).
Proof.
  intros Hb. revert acc. induction xs as [|x xs IH]; intros acc; simpl.
  - apply plain_ret.
  - apply plain_bind; [apply Hb | intros; apply IH].
Qed.

Section PrimitiveFacts.

Context (env : Env) (self : Patcher).

Lemma plain_time : plain time_time.
Proof. intros w. exists (now w), w. split; [done | apply steady_refl]. Qed.

Lemma plain_sleep secs : 0 ≤ secs → plain (sleep secs).
Proof.
  intros Hs w. eexists tt, _. split; [reflexivity|]. split; simpl; [lia|].
  eexists. split; [reflexivity|]. by repeat constructor.
Qed.

Lemma plain_ask {A} (q : World → A) (ev : A → Event) :
  (∀ a, is_marker (ev a) = false) → plain (ask env q ev).
Proof.
  intros Hev w. eexists (q w), _. split; [reflexivity|]. split; simpl; [lia|].
  eexists. split; [reflexivity|]. repeat constructor. apply Hev.
Qed.

Lemma plain_ssh_execute_with_output cmd t : plain (ssh_execute_with_output env cmd t).
Proof. apply plain_ask. by intros [[??]?]. Qed.

Lemma plain_ssh_execute cmd t : plain (ssh_execute env cmd t).
Proof.
  apply plain_bind; [apply plain_ssh_execute_with_output|].
  intros [[[] out] err]; apply plain_ret.
Qed.

Lemma quiet_probe addr port : quiet (probe env addr port).
Proof.
  apply quiet_bind; [by apply plain_quiet, plain_ask | apply quiet_of_reply].
Qed.

(** *** Worlds and traces *)

Lemma ask_eq {A} (q : World → A) (ev : A → Event) w :
  ask env q ev w
  = (Ok (q w), extend w (Z.of_nat (e_elapsed env w (ev (q w)))) (ev (q w))).
Proof. reflexivity. Qed.

Lemma trace_extend w d ev : trace (extend w d ev) = trace w ++ [(now w, ev)].
Proof. reflexivity. Qed.

Lemma now_extend w d ev : now (extend w d ev) = now w + d.
Proof. reflexivity. Qed.

Lemma events_since_refl w : events_since w w = [].
Proof. unfold events_since. apply drop_all. Qed.

Lemma events_since_extend w0 w d ev :
  (length (trace w0) ≤ length (trace w))%nat →
  events_since w0 (extend w d ev) = events_since w0 w ++ [(now w, ev)].
Proof.
  intros H. unfold events_since. rewrite trace_extend. by rewrite drop_app_le.
Qed.

Lemma length_trace_extend w d ev :
  length (trace (extend w d ev)) = S (length (trace w)).
Proof. rewrite trace_extend, length_app. simpl. lia. Qed.

End PrimitiveFacts.

(** Routine cases: follow the structure of the code. *)
Ltac walk :=
  cbv beta zeta;
  lazymatch goal with
  | |- plain (ret _) => apply plain_ret
  | |- plain time_time => apply plain_time
  | |- plain (sleep _) => apply plain_sleep; lia
  | |- plain (ask _ _ _) => apply plain_ask; intros; repeat case_match; done
  | |- plain (ssh_execute _ _ _) => apply plain_ssh_execute
  | |- plain (ssh_execute_with_output _ _ _) => apply plain_ssh_execute_with_output
  | |- plain (bind _ _) => apply plain_bind; [walk | intros; walk]
  | |- plain (try_except _ _) => apply plain_try_except; [walk | intros; walk]
  | |- plain (for_each _ _ _) => apply plain_for_each; intros; walk
  | |- plain (match ?x with _ => _ end) => destruct x; walk
  | |- quiet (raise _) => apply quiet_raise
  | |- quiet (of_reply _) => apply quiet_of_reply
  | |- quiet (probe _ _ _) => apply quiet_probe
  | |- quiet (bind _ _) => apply quiet_bind; [walk | intros; walk]
  | |- quiet (match ?x with _ => _ end) => destruct x; walk
  | |- quiet _ => apply plain_quiet; walk
  | |- _ => idtac
  end.

(** Symbolic execution of straight-line code. *)
Ltac run_step :=
  first
    [ rewrite ask_eq
    | progress unfold bind at 1
    | progress cbv beta iota
    | progress unfold try_except at 1
    | progress unfold ret, raise, of_reply
    | match goal with
      | |- context [match ?x with Done _ => _ | Fault _ => _ end] => destruct x eqn:?
      | |- context [if ?x then _ else _] => destruct x eqn:?
      end ].

(** Reduce the control flow once the answers are known. *)
Ltac reduce := cbv beta iota; cbn [negb andb orb fst snd]; cbv beta iota.

Tactic Notation "reduce_in" hyp(H) :=
  cbv beta iota in H; cbn [negb andb orb fst snd] in H; cbv beta iota in H.

(** Membership in an explicit list. *)
Ltac find_elem :=
  solve [repeat first [apply list_elem_of_here | apply list_elem_of_further]].

(** The interactions of a finished run, as a list. *)
Ltac read_trace :=
  cbn [fst snd];
  unfold events_since, interactions, command_results, commands;
  rewrite ?trace_extend, <- ?app_assoc, ?drop_app_length; simpl.

Section MethodFacts.

Context (env : Env) (self : Patcher).

(** *** The loops have enough fuel *)

Lemma plain_wait_for_ssh_loop fuel host start timeout w :
  start + timeout - now w ≤ Z.of_nat fuel →
  plain_at (wait_for_ssh_loop env fuel host start timeout) w.
Proof.
  revert w. induction fuel as [|fuel IH]; intros w Hf.
  - simpl. apply plain_bind_at; [apply plain_time|].
    intros t w' [= <- <-] _. rewrite bool_decide_eq_false_2 by lia. apply plain_ret.
  - simpl. apply plain_bind_at; [apply plain_time|].
    intros t w' [= <- <-] _. case_bool_decide; [|apply plain_ret].
    apply plain_bind_at; [apply plain_at_of; walk|].
    intros found w1 _ [Hn1 _]. destruct found; [apply plain_ret|].
    apply plain_bind_at; [apply plain_at_of; walk|].
    intros [] w2 [= <-] _. apply IH. simpl. lia.
Qed.

Lemma plain_wait_graceful fuel vm_id start timeout w :
  start + timeout - now w ≤ Z.of_nat fuel →
  plain_at (wait_graceful env fuel vm_id start timeout) w.
Proof.
  revert w. induction fuel as [|fuel IH]; intros w Hf.
  - simpl. apply plain_bind_at; [apply plain_time|].
    intros t w' [= <- <-] _. rewrite bool_decide_eq_false_2 by lia. apply plain_ret.
  - simpl. apply plain_bind_at; [apply plain_time|].
    intros t w' [= <- <-] _. case_bool_decide; [|apply plain_ret].
    apply plain_bind_at; [apply plain_at_of; walk|].
    intros [] w1 [= <-] _.
    apply plain_bind_at; [apply plain_ssh_execute|].
    intros [ok st] w2 _ [Hn2 _]. simpl in Hn2.
    destruct (ok && PyStr.contains "Powered off" st); [apply plain_ret|].
    apply IH. lia.
Qed.

Lemma plain_wait_up fuel host start max_wait w :
  start + max_wait - now w ≤ Z.of_nat fuel →
  plain_at (wait_up env fuel host start max_wait) w.
Proof.
  revert w. induction fuel as [|fuel IH]; intros w Hf.
  - simpl. apply plain_bind_at; [apply plain_time|].
    intros t w' [= <- <-] _. rewrite bool_decide_eq_false_2 by lia. apply plain_ret.
  - simpl. apply plain_bind_at; [apply plain_time|].
    intros t w' [= <- <-] _. case_bool_decide; [|apply plain_ret].
    apply plain_bind_at; [apply plain_at_of; walk|].
    intros up w1 _ [Hn1 _]. destruct up; [apply plain_ret|].
    apply plain_bind_at; [apply plain_at_of; walk|].
    intros [] w2 [= <-] _. apply IH. simpl. lia.
Qed.

Lemma plain_wait_down attempts host : plain (wait_down env attempts host).
Proof.
  induction attempts as [|n IH]; simpl; [apply plain_ret|].
  walk. apply IH.
Qed.

Lemma quiet_task_state : quiet (task_state env).
Proof. unfold task_state. walk. Qed.

Lemma quiet_wait_for_task_loop fuel start timeout w :
  start + timeout - now w + 1 ≤ Z.of_nat fuel →
  quiet_at (_wait_for_task_loop env fuel start timeout) w.
Proof.
  revert w. induction fuel as [|fuel IH]; intros w Hf.
  - simpl. apply quiet_bind_at; [apply quiet_task_state|].
    intros st w1 _ [Hn1 _]. destruct (task_finished st); [apply plain_quiet, plain_ret|].
    apply quiet_bind_at; [apply plain_quiet, plain_time|].
    intros t w' [= <- <-] _. rewrite bool_decide_eq_true_2 by lia. apply quiet_raise.
  - simpl. apply quiet_bind_at; [apply quiet_task_state|].
    intros st w1 _ [Hn1 _]. destruct (task_finished st); [apply plain_quiet, plain_ret|].
    apply quiet_bind_at; [apply plain_quiet, plain_time|].
    intros t w' [= <- <-] _. case_bool_decide; [apply quiet_raise|].
    apply quiet_bind_at; [apply quiet_at_of; walk|].
    intros [] w2 [= <-] _. apply IH. simpl. lia.
Qed.

Lemma quiet_wait_for_task timeout : quiet (_wait_for_task env timeout).
Proof.
  intros w. unfold _wait_for_task.
  apply quiet_bind_at; [apply plain_quiet, plain_time|].
  intros t w' [= <- <-] _.
  apply quiet_bind_at; [apply quiet_wait_for_task_loop; lia|].
  intros [] w1 _ _. revert w1.
  apply quiet_bind; [apply quiet_task_state|]. intros st. walk.
Qed.

(** *** Patch installation: routing by extension *)

Lemma prefix_cons a s1 b s2 :
  String.prefix (String a s1) (String b s2)
  = if ascii_dec a b then String.prefix s1 s2 else false.
Proof. reflexivity. Qed.

Lemma endswith_head n suf c d rest rest' :
  String.rev suf = String c rest →
  PyStr.endswith n suf = true →
  c ≠ d →
  String.prefix (String d rest') (String.rev n) = false.
Proof.
  unfold PyStr.endswith. intros ->. destruct (String.rev n) as [|x r]; [done|].
  rewrite !prefix_cons. destruct (ascii_dec c x) as [<-|]; [|done].
  intros _ Hcd. destruct (ascii_dec d c) as [->|]; done.
Qed.

Lemma endswith_zip_not_vib n :
  PyStr.endswith n ".zip" = true → PyStr.endswith n ".vib" = false.
Proof. intros H. by eapply (endswith_head n ".zip" "p" "b"). Qed.

Lemma endswith_zip_not_iso n :
  PyStr.endswith n ".zip" = true → PyStr.endswith n ".iso" = false.
Proof. intros H. by eapply (endswith_head n ".zip" "p" "o"). Qed.

Lemma endswith_vib_not_iso n :
  PyStr.endswith n ".vib" = true → PyStr.endswith n ".iso" = false.
Proof. intros H. by eapply (endswith_head n ".vib" "b" "o"). Qed.

Lemma install_run ds w cmd :
  nonempty (patch_name self) = true →
  install_cmd (fmt (patch_name self)) (remote_path self ds) = Some cmd →
  let out := install_patch_via_ssh env self ds w in
  ∃ b o e, out.1 = Ok b ∧
    interactions (events_since w out.2) = [EvSsh cmd 1200 b o e].
Proof.
  intros Hn Hc. unfold install_patch_via_ssh. rewrite Hn, Hc. simpl negb. cbv iota.
  unfold traced, bind, mark, try_except, ssh_execute_with_output.
  rewrite ask_eq.
  destruct (e_ssh env _ cmd 1200) as [[b o] e] eqn:E.
  exists b, o, e. destruct b; simpl; (split; [done|]);
    unfold events_since, interactions; rewrite !trace_extend, <- !app_assoc, drop_app_length;
    reflexivity.
Qed.

Lemma install_unsupported ds w :
  nonempty (patch_name self) = false
  ∨ install_cmd (fmt (patch_name self)) (remote_path self ds) = None →
  let out := install_patch_via_ssh env self ds w in
  out.1 = Ok false ∧ interactions (events_since w out.2) = [].
Proof.
  intros H. unfold install_patch_via_ssh.
  assert ((if negb (nonempty (patch_name self)) then ret false
           else match install_cmd (fmt (patch_name self)) (remote_path self ds) with
                | Some cmd =>
                    try_except
                      (r <- ssh_execute_with_output env cmd 1200 ;;
                       let '(success, _, _) := r in
                       if success then ret true else ret false)
                      (λ _, ret false)
                | None => ret false
                end) = ret false) as ->.
  { destruct H as [-> | ->]; [done|]. by destruct (negb _). }
  simpl. split; [done|].
  unfold events_since, interactions. rewrite !trace_extend, <- !app_assoc, drop_app_length.
  reflexivity.
Qed.

Lemma supported_nonempty suf :
  suf = ".zip" ∨ suf = ".vib" ∨ suf = ".iso" →
  PyStr.endswith (fmt (patch_name self)) suf = true →
  nonempty (patch_name self) = true.
Proof.
  destruct (patch_name self) as [[|c n]|]; [|done|];
    intros [-> | [-> | ->]]; by vm_compute.
Qed.

(** C5.  The install command is chosen from the ending of the artifact
    name alone: [.zip] gives the package-archive install, [.vib] the
    single-component install, [.iso] the image-profile update, each run as
    the only remote command, whose success flag is the result; any other
    name (or no name) gives [False] without any interaction. *)
Theorem install_strategy_by_extension ds w :
  let n := fmt (patch_name self) in
  let path := remote_path self ds in
  let out := install_patch_via_ssh env self ds w in
  let io := interactions (events_since w out.2) in
  ∃ b, out.1 = Ok b ∧
    (PyStr.endswith n ".zip" = true →
       ∃ o e, io = [EvSsh ("esxcli software vib install -d '" +:+ path +:+ "' --no-sig-check")
                          1200 b o e]) ∧
    (PyStr.endswith n ".vib" = true →
       ∃ o e, io = [EvSsh ("esxcli software vib install -v '" +:+ path +:+ "' --no-sig-check")
                          1200 b o e]) ∧
    (PyStr.endswith n ".iso" = true →
       ∃ o e, io = [EvSsh ("esxcli software profile update -d '" +:+ path +:+ "'")
                          1200 b o e]) ∧
    (PyStr.endswith n ".zip" = false → PyStr.endswith n ".vib" = false →
     PyStr.endswith n ".iso" = false → b = false ∧ io = []).
Proof.
  intros n path out io.
  destruct (PyStr.endswith n ".zip") eqn:Hzip;
    [|destruct (PyStr.endswith n ".vib") eqn:Hvib;
      [|destruct (PyStr.endswith n ".iso") eqn:Hiso]].
  - pose proof (endswith_zip_not_vib _ Hzip) as Hv.
    pose proof (endswith_zip_not_iso _ Hzip) as Hi.
    destruct (install_run ds w _ (supported_nonempty ".zip" ltac:(auto) Hzip)
                ltac:(unfold install_cmd; fold n; rewrite Hzip; reflexivity))
      as (b & o & e & Hb & Hio).
    exists b. rewrite Hv, Hi. split_and!; [done| |done|done|done].
    intros _. by exists o, e.
  - pose proof (endswith_vib_not_iso _ Hvib) as Hi.
    destruct (install_run ds w _ (supported_nonempty ".vib" ltac:(auto) Hvib)
                ltac:(unfold install_cmd; fold n; rewrite Hzip, Hvib; reflexivity))
      as (b & o & e & Hb & Hio).
    exists b. rewrite Hi. split_and!; [done|done| |done|done].
    intros _. by exists o, e.
  - destruct (install_run ds w _ (supported_nonempty ".iso" ltac:(auto) Hiso)
                ltac:(unfold install_cmd; fold n; rewrite Hzip, Hvib, Hiso; reflexivity))
      as (b & o & e & Hb & Hio).
    exists b. split_and!; [done|done|done| |done].
    intros _. by exists o, e.
  - destruct (install_unsupported ds w) as [Hb Hio].
    { right. unfold install_cmd. fold n. by rewrite Hzip, Hvib, Hiso. }
    exists false. split_and!; done.
Qed.

(** *** Upload: the size check *)




(** *** Workload shutdown *)

(** What [ssh_execute] returns for an answer of the remote shell. *)
Definition ssh_answer (r : bool * string * string) : bool * string :=
  let '(ok, out, err) := r in
  if ok then (true, out)
  else (false, if PyStr.is_empty err then "Unknown SSH execution error" else err).

Definition ssh_event (cmd : string) (t : Z) (r : bool * string * string) : Event :=
  let '(ok, out, err) := r in EvSsh cmd t ok out err.

(** The world after a remote command. *)
Definition after_ssh (w : World) (cmd : string) (t : Z) : World :=
  extend w (Z.of_nat (e_elapsed env w (ssh_event cmd t (e_ssh env w cmd t))))
         (ssh_event cmd t (e_ssh env w cmd t)).

Lemma ssh_execute_eq cmd t w :
  ssh_execute env cmd t w = (Ok (ssh_answer (e_ssh env w cmd t)), after_ssh w cmd t).
Proof.
  unfold ssh_execute, ssh_execute_with_output, bind, after_ssh. rewrite ask_eq.
  by destruct (e_ssh env w cmd t) as [[[] out] err].
Qed.

Lemma trace_after_ssh w cmd t :
  trace (after_ssh w cmd t)
  = trace w ++ [(now w, ssh_event cmd t (e_ssh env w cmd t))].
Proof. reflexivity. Qed.


Lemma sleep_eq secs w : sleep secs w = (Ok tt, extend w secs (EvSleep secs)).
Proof. reflexivity. Qed.

(** C10.  When the state query of a workload fails, the shutdown sequence
    sends it a forced power-off straight away: no graceful shutdown, no
    wait, whatever the state of the workload; the id joins the failed list
    exactly when that forced command fails. *)
Theorem unreadable_state_forces_poweroff graceful_timeout failed_vms vm_id w :
  (e_ssh env w (getstate_cmd vm_id) 60).1.1 = false →
  let out := shutdown_vm env graceful_timeout failed_vms vm_id w in
  ∃ o1 e1 forced o2 e2,
    interactions (events_since w out.2)
    = [EvSsh (getstate_cmd vm_id) 60 false o1 e1;
       EvSsh (poweroff_cmd vm_id) 60 forced o2 e2]
    ∧ out.1 = Ok (if forced then failed_vms else failed_vms ++ [vm_id]).
Proof.
  intros Hq. cbv zeta. unfold shutdown_vm, bind.
  rewrite ssh_execute_eq.
  destruct (e_ssh env w (getstate_cmd vm_id) 60) as [[ok o1] e1] eqn:E1.
  simpl in Hq. subst ok. unfold ssh_answer. reduce.
  rewrite ssh_execute_eq.
  destruct (e_ssh env (after_ssh w (getstate_cmd vm_id) 60) (poweroff_cmd vm_id) 60)
    as [[forced o2] e2] eqn:E2.
  exists o1, e1, forced, o2, e2.
  assert (interactions
            (events_since w (after_ssh (after_ssh w (getstate_cmd vm_id) 60)
                                       (poweroff_cmd vm_id) 60))
          = [EvSsh (getstate_cmd vm_id) 60 false o1 e1;
             EvSsh (poweroff_cmd vm_id) 60 forced o2 e2]) as Hio.
  { unfold events_since, interactions.
    rewrite !trace_after_ssh, E1, E2, <- app_assoc, drop_app_length. reflexivity. }
  destruct forced; simpl; (split; [exact Hio | reflexivity]).
Qed.

(** *** The graceful window *)





















(** *** Workload start-up *)

Lemma interactions_app a b : interactions (a ++ b) = interactions a ++ interactions b.
Proof. unfold interactions. by rewrite map_app, List.filter_app. Qed.

(** The loop of [start_vms_after_reboot]. *)
Lemma start_loop_spec vm_ids acc w :
  ∃ acc' w' seg n,
    for_each (start_vm env) vm_ids acc w = (Ok acc', w')
    ∧ trace w' = trace w ++ seg
    ∧ interactions seg = map snd seg
    ∧ started_trace vm_ids (map snd seg) n
    ∧ acc'.1 = (acc.1 + n)%nat.
Proof.
  revert acc w. induction vm_ids as [|vm_id ids IH]; intros [started failed] w.
  - exists (started, failed), w, [], 0%nat. simpl.
    split_and!; [done | by rewrite app_nil_r | done | constructor | lia].
  - simpl for_each. unfold bind at 1, start_vm. unfold bind at 1.
    rewrite ssh_execute_eq.
    set (w1 := after_ssh w (getstate_cmd vm_id) 60).
    assert (trace w1 = trace w ++ [(now w, ssh_event (getstate_cmd vm_id) 60
                                             (e_ssh env w (getstate_cmd vm_id) 60))])
      as Ht1 by reflexivity.
    destruct (e_ssh env w (getstate_cmd vm_id) 60) as [[ok out] err].
    unfold ssh_answer, ssh_event in *. destruct ok; reduce;
      [destruct (PyStr.contains "Powered off" out) eqn:Hoff; reduce|].
    + unfold bind at 1. rewrite ssh_execute_eq.
      set (w2 := after_ssh w1 (poweron_cmd vm_id) 60).
      assert (trace w2 = trace w1 ++ [(now w1, ssh_event (poweron_cmd vm_id) 60
                                                (e_ssh env w1 (poweron_cmd vm_id) 60))])
        as Ht2 by reflexivity.
      destruct (e_ssh env w1 (poweron_cmd vm_id) 60) as [[on_ok o2] e2].
      unfold ssh_answer, ssh_event in *. destruct on_ok; reduce.
      * destruct (IH (S started, failed) w2) as (acc' & w' & seg & n & E & Ht & Hi & Hs & Hn).
        eexists acc', w', ([_] ++ [_] ++ seg), (S n).
        split_and!; [exact E | by rewrite Ht, Ht2, Ht1, <- !app_assoc | | | simpl in *; lia].
        -- rewrite !interactions_app, Hi. reflexivity.
        -- apply (started_on vm_id out err true o2 e2); done.
      * destruct (IH (started, failed ++ [vm_id]) w2)
          as (acc' & w' & seg & n & E & Ht & Hi & Hs & Hn).
        eexists acc', w', ([_] ++ [_] ++ seg), n.
        split_and!; [exact E | by rewrite Ht, Ht2, Ht1, <- !app_assoc | | | simpl in *; lia].
        -- rewrite !interactions_app, Hi. reflexivity.
        -- apply (started_on vm_id out err false o2 e2); done.
    + destruct (IH (started, failed) w1) as (acc' & w' & seg & n & E & Ht & Hi & Hs & Hn).
      eexists acc', w', ([_] ++ seg), n.
      split_and!; [exact E | by rewrite Ht, Ht1, <- !app_assoc | | | simpl in *; lia].
      * rewrite !interactions_app, Hi. reflexivity.
      * apply started_skip; done.
    + destruct (IH (started, failed) w1) as (acc' & w' & seg & n & E & Ht & Hi & Hs & Hn).
      eexists acc', w', ([_] ++ seg), n.
      split_and!; [exact E | by rewrite Ht, Ht1, <- !app_assoc | | | simpl in *; lia].
      * rewrite !interactions_app, Hi. reflexivity.
      * apply started_skip; done.
Qed.

(** The statements of [start_vms_after_reboot] up to the end of its loop. *)
Lemma start_vms_counters_spec w :
  let listing := e_ssh env w getallvms_cmd 60 in
  ∃ counters w',
    start_vms_counters env w = (Ok counters, w') ∧
    match counters with
    | None =>
        interactions (events_since w w') = [ssh_event getallvms_cmd 60 listing]
    | Some (started_vms, failed) =>
        ∃ evs, interactions (events_since w w')
               = ssh_event getallvms_cmd 60 listing :: evs
               ∧ started_trace (parse_vm_ids listing.1.2) evs started_vms
    end.
Proof.
  cbv zeta. unfold start_vms_counters. unfold bind at 1. rewrite ssh_execute_eq.
  set (w1 := after_ssh w getallvms_cmd 60).
  assert (trace w1 = trace w ++ [(now w, ssh_event getallvms_cmd 60
                                           (e_ssh env w getallvms_cmd 60))])
    as Ht1 by reflexivity.
  assert (is_marker (ssh_event getallvms_cmd 60 (e_ssh env w getallvms_cmd 60)) = false)
    as Hm by (by destruct (e_ssh env w getallvms_cmd 60) as [[??]?]).
  assert (ssh_answer (e_ssh env w getallvms_cmd 60)
          = ((e_ssh env w getallvms_cmd 60).1.1,
             (ssh_answer (e_ssh env w getallvms_cmd 60)).2)
          ∧ ((e_ssh env w getallvms_cmd 60).1.1 = true →
             (ssh_answer (e_ssh env w getallvms_cmd 60)).2
             = (e_ssh env w getallvms_cmd 60).1.2)) as [Ha Hout]
    by (by destruct (e_ssh env w getallvms_cmd 60) as [[[] ?] ?]).
  rewrite Ha. reduce.
  destruct ((e_ssh env w getallvms_cmd 60).1.1) eqn:Hok; reduce.
  - rewrite (Hout eq_refl).
    destruct (PyStr.is_empty (PyStr.strip (e_ssh env w getallvms_cmd 60).1.2)); reduce.
    + exists None, w1. split; [done|].
      rewrite (events_since_app w w1 _ Ht1). unfold interactions. simpl. by rewrite Hm.
    + unfold bind at 1.
      destruct (start_loop_spec (parse_vm_ids (e_ssh env w getallvms_cmd 60).1.2)
                  (0%nat, []) w1) as ([started failed] & w' & seg & n & -> & Ht & Hi & Hs & Hn).
      exists (Some (started, failed)), w'. split; [done|].
      exists (map snd seg). split.
      * rewrite (events_since_app w w' ([_] ++ seg))
          by (by rewrite Ht, Ht1, <- app_assoc).
        rewrite interactions_app, Hi. unfold interactions. simpl. by rewrite Hm.
      * simpl in Hn. by subst.
  - exists None, w1. split; [done|].
    rewrite (events_since_app w w1 _ Ht1). unfold interactions. simpl. by rewrite Hm.
Qed.

(** C9, as the code has it.  [start_vms_after_reboot] returns [True]
    whatever happens to the single workloads; it queries every listed
    workload, sends a power-on command only to one that a successful query
    reports off, and counts the commands that succeed in [started_vms],
    which it does not return. *)
Theorem start_vms_returns_true :
  (∀ w, (start_vms_after_reboot env w).1 = Ok true) ∧
  (∀ w, let listing := e_ssh env w getallvms_cmd 60 in
        let out := start_vms_counters env w in
        ∃ counters,
          out.1 = Ok counters ∧
          match counters with
          | None =>
              interactions (events_since w out.2) = [ssh_event getallvms_cmd 60 listing]
          | Some (started_vms, failed) =>
              ∃ evs, interactions (events_since w out.2)
                     = ssh_event getallvms_cmd 60 listing :: evs
                     ∧ started_trace (parse_vm_ids listing.1.2) evs started_vms
          end).
Proof.
  split.
  - intros w. unfold start_vms_after_reboot, traced, mark. unfold bind at 1. reduce.
    unfold bind at 1, try_except. unfold bind at 1.
    destruct (start_vms_counters_spec (extend w 0 (EvCall m_start_vms_after_reboot)))
      as (c & w' & -> & _).
    by destruct c as [[??]|].
  - intros w. cbv zeta.
    destruct (start_vms_counters_spec w) as (c & w' & E & H).
    exists c. rewrite E. by split.
Qed.

(** *** Maintenance mode *)

(** The world in which a method reads its first answer. *)
Definition entered (m : Method) (w : World) : World := extend w 0 (EvCall m).

Lemma enter_when_inside timeout w :
  e_in_maintenance env (entered m_enter_maintenance_mode w) = Done true →
  let out := enter_maintenance_mode env timeout w in
  out.1 = Ok true ∧
  interactions (events_since w out.2) = [EvInMaintenanceMode (Done true)].
Proof.
  intros H. cbv zeta.
  destruct (enter_maintenance_mode env timeout w) as [r w'] eqn:E.
  unfold enter_maintenance_mode, traced, mark, in_maintenance_mode, try_except in E.
  unfold bind in E. rewrite ask_eq in E.
  fold (entered m_enter_maintenance_mode w) in E. rewrite H in E.
  unfold of_reply, ret in E. reduce_in E. injection E as <- <-.
  split; [done|]. unfold entered. read_trace. reflexivity.
Qed.

Lemma exit_when_outside w :
  e_in_maintenance env (entered m_exit_maintenance_mode w) = Done false →
  let out := exit_maintenance_mode env w in
  out.1 = Ok true ∧
  interactions (events_since w out.2) = [EvInMaintenanceMode (Done false)].
Proof.
  intros H. cbv zeta.
  destruct (exit_maintenance_mode env w) as [r w'] eqn:E.
  unfold exit_maintenance_mode, traced, mark, in_maintenance_mode, try_except in E.
  unfold bind in E. rewrite ask_eq in E.
  fold (entered m_exit_maintenance_mode w) in E. rewrite H in E.
  unfold of_reply, ret in E. reduce_in E. injection E as <- <-.
  split; [done|]. unfold entered. read_trace. reflexivity.
Qed.

(** C7.  When the host reports that it is already in maintenance mode,
    [enter_maintenance_mode] returns [True] after reading that report and
    starts no transition; likewise [exit_maintenance_mode] when the host
    reports that it is out of it.  Hence, on a host that reports the state
    a successful call has left it in, a second call changes nothing: it
    returns [True] like the first and starts no transition. *)
Theorem maintenance_mode_idempotent timeout w :
  (e_in_maintenance env (entered m_enter_maintenance_mode w) = Done true →
   (enter_maintenance_mode env timeout w).1 = Ok true
   ∧ interactions (events_since w (enter_maintenance_mode env timeout w).2)
     = [EvInMaintenanceMode (Done true)])
  ∧ (e_in_maintenance env (entered m_exit_maintenance_mode w) = Done false →
     (exit_maintenance_mode env w).1 = Ok true
     ∧ interactions (events_since w (exit_maintenance_mode env w).2)
       = [EvInMaintenanceMode (Done false)])
  ∧ (let first := enter_maintenance_mode env timeout w in
     let second := enter_maintenance_mode env timeout first.2 in
     first.1 = Ok true →
     e_in_maintenance env (entered m_enter_maintenance_mode first.2) = Done true →
     second.1 = first.1
     ∧ interactions (events_since first.2 second.2) = [EvInMaintenanceMode (Done true)])
  ∧ (let first := exit_maintenance_mode env w in
     let second := exit_maintenance_mode env first.2 in
     first.1 = Ok true →
     e_in_maintenance env (entered m_exit_maintenance_mode first.2) = Done false →
     second.1 = first.1
     ∧ interactions (events_since first.2 second.2) = [EvInMaintenanceMode (Done false)]).
Proof.
  split_and!.
  - apply enter_when_inside.
  - apply exit_when_outside.
  - intros first second H1 H2.
    destruct (enter_when_inside timeout first.2 H2) as [Hr Hi].
    split; [by rewrite H1 | exact Hi].
  - intros first second H1 H2.
    destruct (exit_when_outside first.2 H2) as [Hr Hi].
    split; [by rewrite H1 | exact Hi].
Qed.

(** *** The wait for the reboot *)

(** The world after a connection attempt. *)
Definition after_probe (w : World) (addr : string) (port : Z) : World :=
  extend w (Z.of_nat (e_elapsed env w (EvProbe addr port (e_probe env w addr port))))
         (EvProbe addr port (e_probe env w addr port)).

Lemma probe_eq addr port w :
  probe env addr port w
  = (match e_probe env w addr port with Done z => Ok z | Fault e => Raise e end,
     after_probe w addr port).
Proof.
  unfold probe, bind, after_probe. rewrite ask_eq.
  by destruct (e_probe env w addr port).
Qed.

Lemma now_after_probe w addr port : now w ≤ now (after_probe w addr port).
Proof. unfold after_probe. rewrite now_extend. lia. Qed.

Lemma fixed_ports_app addr a b :
  fixed_ports addr (a ++ b) ↔ fixed_ports addr a ∧ fixed_ports addr b.
Proof. apply Forall_app. Qed.

Lemma fixed_ports_probe addr ts port r tr :
  port = 22 ∨ port = 443 → fixed_ports addr tr →
  fixed_ports addr ((ts, EvProbe addr port r) :: tr).
Proof. intros H Ht. by constructor. Qed.

Lemma fixed_ports_sleep addr ts secs tr :
  fixed_ports addr tr → fixed_ports addr ((ts, EvSleep secs) :: tr).
Proof. intros Ht. by constructor. Qed.

Lemma fixed_ports_marker addr ts ev tr :
  is_marker ev = true → fixed_ports addr tr → fixed_ports addr ((ts, ev) :: tr).
Proof. intros H Ht. constructor; [by destruct ev | done]. Qed.

Lemma fixed_ports_nil addr : fixed_ports addr [].
Proof. constructor. Qed.

(** Every element of an explicit trace is on a fixed port. *)
Ltac ports :=
  repeat first
    [ apply fixed_ports_nil
    | apply fixed_ports_probe; [by (left + right)|]
    | apply fixed_ports_sleep
    | apply fixed_ports_marker; [done|]
    | assumption ].

(** Down-detection: it returns, and probes port 22 only. *)
Lemma wait_down_spec attempts host w :
  ∃ b w' seg,
    wait_down env attempts host w = (Ok b, w')
    ∧ now w ≤ now w'
    ∧ trace w' = trace w ++ seg
    ∧ fixed_ports (ip host) seg.
Proof.
  revert w. induction attempts as [|n IH]; intros w.
  - exists false, w, []. split_and!; [done | lia | by rewrite app_nil_r | constructor].
  - simpl. unfold bind at 1, try_except. unfold bind at 1. rewrite probe_eq.
    pose proof (now_after_probe w (ip host) 22) as Hn1.
    set (w1 := after_probe w (ip host) 22) in *.
    assert (trace w1 = trace w ++ [(now w, EvProbe (ip host) 22 (e_probe env w (ip host) 22))])
      as Ht1 by reflexivity.
    assert (fixed_ports (ip host)
              [(now w, EvProbe (ip host) 22 (e_probe env w (ip host) 22))]) as Hf1
      by ports.
    destruct (IH (extend w1 5 (EvSleep 5))) as (b & w' & seg & E & Hn & Ht & Hf).
    rewrite now_extend in Hn.
    assert (∃ b0 w0 seg0,
              (Ok true, w1) = (Ok b0, w0)
              ∧ now w ≤ now w0 ∧ trace w0 = trace w ++ seg0
              ∧ fixed_ports (ip host) seg0) as Hstop.
    { exists true, w1, [(now w, EvProbe (ip host) 22 (e_probe env w (ip host) 22))].
      split_and!; [done | lia | done | done]. }
    assert (∃ b0 w0 seg0,
              (_ <- sleep 5 ;; wait_down env n host) w1 = (Ok b0, w0)
              ∧ now w ≤ now w0 ∧ trace w0 = trace w ++ seg0
              ∧ fixed_ports (ip host) seg0) as Hgo.
    { exists b, w', ([(now w, EvProbe (ip host) 22 (e_probe env w (ip host) 22))]
                      ++ [(now w1, EvSleep 5)] ++ seg).
      split_and!; [done | lia | |].
      + rewrite Ht, trace_extend, Ht1, <- !app_assoc. reflexivity.
      + apply fixed_ports_app. split; [done|]. by apply fixed_ports_sleep. }
    destruct (e_probe env w (ip host) 22) as [z|e]; unfold ret; reduce;
      [destruct (bool_decide (z = 0)); reduce|]; first [exact Hstop | exact Hgo].
Qed.

(** Up-detection: it returns, probes ports 22 and 443 only, and returns
    [True] only after both have answered. *)
Lemma wait_up_spec fuel host wait_start max_wait w :
  wait_start + max_wait - now w ≤ Z.of_nat fuel →
  ∃ b w' seg,
    wait_up env fuel host wait_start max_wait w = (Ok b, w')
    ∧ trace w' = trace w ++ seg
    ∧ fixed_ports (ip host) seg
    ∧ (b = true → reached (ip host) 22 seg ∧ reached (ip host) 443 seg).
Proof.
  revert w. induction fuel as [|fuel IH]; intros w Hfuel.
  - exists false, w, []. simpl. unfold bind, time_time.
    rewrite bool_decide_eq_false_2 by lia.
    split_and!; [done | by rewrite app_nil_r | constructor | done].
  - simpl. unfold bind at 1, time_time. case_bool_decide as Hlt.
    2: { exists false, w, []. split_and!; [done | by rewrite app_nil_r | constructor | done]. }
    unfold bind at 1, try_except. unfold bind at 1. rewrite probe_eq.
    pose proof (now_after_probe w (ip host) 22) as Hn1.
    set (r1 := e_probe env w (ip host) 22) in *.
    set (w1 := after_probe w (ip host) 22) in *.
    assert (trace w1 = trace w ++ [(now w, EvProbe (ip host) 22 r1)]) as Ht1 by reflexivity.
    assert (fixed_ports (ip host) [(now w, EvProbe (ip host) 22 r1)]) as Hf1 by ports.
    (* a failed round: sleep and poll again *)
    assert (∀ w2 seg2, now w ≤ now w2 → trace w2 = trace w ++ seg2 →
              fixed_ports (ip host) seg2 →
              ∃ b w' seg,
                (_ <- sleep 5 ;; wait_up env fuel host wait_start max_wait) w2 = (Ok b, w')
                ∧ trace w' = trace w ++ seg
                ∧ fixed_ports (ip host) seg
                ∧ (b = true → reached (ip host) 22 seg ∧ reached (ip host) 443 seg))
      as Hretry.
    { intros w2 seg2 Hn2 Ht2 Hf2. unfold bind at 1. rewrite sleep_eq.
      destruct (IH (extend w2 5 (EvSleep 5))) as (b & w' & seg & E & Ht & Hf & Hb).
      { rewrite now_extend. lia. }
      exists b, w', (seg2 ++ [(now w2, EvSleep 5)] ++ seg).
      split_and!; [done | | |].
      - rewrite Ht, trace_extend, Ht2, <- !app_assoc. reflexivity.
      - apply fixed_ports_app. split; [done|]. by apply fixed_ports_sleep.
      - intros Hb'. destruct (Hb Hb') as [[t1 H1] [t2 H2]].
        split; [exists t1 | exists t2]; set_solver. }
    destruct r1 as [z|e] eqn:Hr1; unfold ret; reduce.
    2: { apply (Hretry w1 _ Hn1 Ht1 Hf1). }
    case_bool_decide as Hz; reduce.
    2: { apply (Hretry w1 _ Hn1 Ht1 Hf1). }
    subst z. unfold bind at 1. rewrite sleep_eq. unfold bind at 1. rewrite probe_eq.
    set (w2 := extend w1 15 (EvSleep 15)) in *.
    pose proof (now_after_probe w2 (ip host) 443) as Hn3.
    set (r2 := e_probe env w2 (ip host) 443) in *.
    set (w3 := after_probe w2 (ip host) 443) in *.
    assert (now w2 = now w1 + 15) as Hn2 by reflexivity.
    assert (trace w3 = trace w ++ [(now w, EvProbe (ip host) 22 (Done 0));
                                   (now w1, EvSleep 15);
                                   (now w2, EvProbe (ip host) 443 r2)]) as Ht3.
    { unfold w3, after_probe. rewrite trace_extend. unfold w2 at 1.
      rewrite trace_extend, Ht1, <- !app_assoc. reflexivity. }
    assert (fixed_ports (ip host) [(now w, EvProbe (ip host) 22 (Done 0));
                                   (now w1, EvSleep 15);
                                   (now w2, EvProbe (ip host) 443 r2)]) as Hf3 by ports.
    destruct r2 as [z|e] eqn:Hr2; reduce.
    2: { apply (Hretry w3 _ ltac:(lia) Ht3 Hf3). }
    case_bool_decide as Hz; reduce.
    2: { unfold ret. reduce. apply (Hretry w3 _ ltac:(lia) Ht3 Hf3). }
    subst z. unfold bind at 1. rewrite sleep_eq. unfold ret. reduce.
    eexists true, _, ([_; _; _] ++ [_]). split_and!; [reflexivity | | |].
    + rewrite trace_extend, Ht3, <- !app_assoc. reflexivity.
    + apply fixed_ports_app. split; [done | ports].
    + intros _. split; [exists (now w) | exists (now w2)]; set_solver.
Qed.

(** What the wait guarantees for every host: it returns, probes ports 22
    and 443 of the host's address and no other port, and returns [True]
    only if both have answered. *)
Lemma reboot_wait_observes_ports_22_and_443 host timeout w :
  let out := wait_for_host_reboot env host timeout w in
  ∃ b, out.1 = Ok b
       ∧ fixed_ports (ip host) (events_since w out.2)
       ∧ (b = true → reached (ip host) 22 (events_since w out.2)
                     ∧ reached (ip host) 443 (events_since w out.2)).
Proof.
  cbv zeta. destruct (wait_for_host_reboot env host timeout w) as [res wf] eqn:E.
  unfold wait_for_host_reboot, traced, mark in E. unfold bind at 1 in E. reduce_in E.
  unfold bind at 1 in E. unfold bind at 1, time_time in E. reduce_in E.
  unfold bind at 1 in E.
  set (w0 := extend w 0 (EvCall m_wait_for_host_reboot)) in *.
  destruct (wait_down_spec 60 host w0) as (d & w1 & seg1 & E1 & Hn1 & Ht1 & Hf1).
  rewrite E1 in E. reduce_in E. unfold bind at 1 in E. reduce_in E.
  destruct (wait_up_spec (Z.to_nat 600) host (now w1) 600 w1)
    as (b & w2 & seg2 & E2 & Ht2 & Hf2 & Hb); [lia|].
  rewrite E2 in E. unfold bind, ret in E. reduce_in E. injection E as <- <-.
  exists b. cbn [fst snd]. split; [done|].
  rewrite (events_since_app w _ ([(now w, EvCall m_wait_for_host_reboot)] ++ seg1 ++ seg2
                                  ++ [(now w2, EvRet m_wait_for_host_reboot b)])).
  2: { rewrite trace_extend, Ht2, Ht1. unfold w0 at 1.
       rewrite trace_extend, <- !app_assoc. reflexivity. }
  split.
  - apply fixed_ports_marker; [done|].
    repeat (apply fixed_ports_app; split); ports.
  - intros Hb'. destruct (Hb Hb') as [[t1 H1] [t2 H2]].
    split; [exists t1 | exists t2];
      do 2 (apply elem_of_app; right); apply elem_of_app; by left.
Qed.

End MethodFacts.

(** ** The workflow of one host *)

Section WorkflowFacts.

Context (env : Env) (self : Patcher).

(** *** Every method returns *)

Lemma quiet_sftp_stat path : quiet (sftp_stat env path).
Proof. unfold sftp_stat. walk. Qed.

Lemma quiet_sftp_close : quiet (sftp_close env).
Proof. unfold sftp_close. walk. Qed.

Lemma quiet_ssh_close : quiet (ssh_close env).
Proof. unfold ssh_close. walk. Qed.

Lemma quiet_disconnect : quiet (disconnect env).
Proof. unfold disconnect. walk. Qed.

Lemma quiet_in_maintenance_mode : quiet (in_maintenance_mode env).
Proof. unfold in_maintenance_mode. walk. Qed.

Lemma plain_exists_patch_file : plain (exists_patch_file env self).
Proof. unfold exists_patch_file. walk. Qed.

Lemma plain_connect_body host :
  plain (try_except
           (r <- ask env (λ w, e_smart_connect env w (ip host) (api_port host))
                     (EvSmartConnect (ip host) (api_port host)) ;;
            si <- of_reply r ;; ret (Some si))
           (λ _, ret None)).
Proof. walk. Qed.

Lemma plain_shutdown_vm graceful_timeout failed_vms vm_id :
  plain (shutdown_vm env graceful_timeout failed_vms vm_id).
Proof.
  unfold shutdown_vm. apply plain_bind; [walk|]. intros [success state_output].
  destruct (negb success); [walk|].
  destruct (negb (PyStr.contains "Powered on" state_output)); [walk|].
  apply plain_bind; [walk|]. intros _ w.
  apply plain_bind_at; [apply plain_time|]. intros start w' [= <- <-] _.
  apply plain_bind_at; [apply plain_wait_graceful; lia|].
  intros g w1 _ _. apply plain_at_of. walk.
Qed.

Lemma plain_wait_for_ssh_body host timeout :
  plain (start_time <- time_time ;;
         wait_for_ssh_loop env (Z.to_nat timeout) host start_time timeout).
Proof.
  intros w. apply plain_bind_at; [apply plain_time|]. intros start w' [= <- <-] _.
  apply plain_wait_for_ssh_loop. lia.
Qed.

Lemma plain_wait_for_host_reboot_body host :
  plain (start_time <- time_time ;;
         host_went_down <- wait_down env 60 host ;;
         let max_wait := 600 in
         wait_start <- time_time ;;
         wait_up env (Z.to_nat max_wait) host wait_start max_wait).
Proof.
  apply plain_bind; [apply plain_time|]. intros _.
  apply plain_bind; [apply plain_wait_down|]. intros _ w. cbv zeta.
  apply plain_bind_at; [apply plain_time|]. intros start w' [= <- <-] _.
  apply plain_wait_up. lia.
Qed.

(** *** Markers *)

Lemma markers_app a b : markers (a ++ b) = markers a ++ markers b.
Proof. unfold markers. by rewrite map_app, List.filter_app. Qed.

Lemma markers_nonmarker seg : Forall nonmarker seg → markers seg = [].
Proof.
  unfold markers. induction 1 as [|te seg H _ IH]; simpl; [done|].
  unfold nonmarker in H. by rewrite H.
Qed.

Lemma free_app a b : free (a ++ b) ↔ free a ∧ free b.
Proof. unfold free. rewrite forallb_app. apply andb_true_iff. Qed.

Lemma runs_mono {A} (f : M A) w (P Q : A → list Event → Prop) :
  runs f w P → (∀ a ms, P a ms → Q a ms) → runs f w Q.
Proof. intros (a & w' & seg & E & Ht & HP) H. exists a, w', seg. eauto. Qed.

Lemma runs_plain {A} (f : M A) w : plain_at f w → runs f w (λ _ ms, ms = []).
Proof.
  intros (a & w' & E & _ & seg & Ht & Hs). exists a, w', seg.
  split_and!; [done | done | by apply markers_nonmarker].
Qed.

Lemma runs_ret {A} (a : A) w (P : A → list Event → Prop) : P a [] → runs (ret a) w P.
Proof. intros H. exists a, w, []. split_and!; [done | by rewrite app_nil_r | done]. Qed.

Lemma runs_bind {A B} (m : M A) (k : A → M B) w P (Q : B → list Event → Prop) :
  runs m w P →
  (∀ a w' ms1, P a ms1 → runs (k a) w' (λ b ms2, Q b (ms1 ++ ms2))) →
  runs (bind m k) w Q.
Proof.
  intros (a & w1 & seg1 & E1 & Ht1 & HP) Hk.
  destruct (Hk a w1 _ HP) as (b & w2 & seg2 & E2 & Ht2 & HQ).
  exists b, w2, (seg1 ++ seg2). unfold bind. rewrite E1.
  split_and!; [done | by rewrite Ht2, Ht1, app_assoc | by rewrite markers_app].
Qed.

Lemma runs_traced {A} m truthy (body : M A) w :
  plain body →
  runs (traced m truthy body) w (λ a ms, ms = [EvCall m; EvRet m (truthy a)]).
Proof.
  intros Hb.
  destruct (Hb (extend w 0 (EvCall m))) as (a & w1 & E & _ & seg & Ht & Hs).
  exists a, (extend w1 0 (EvRet m (truthy a))), ([(now w, EvCall m)] ++ seg ++ [(now w1, EvRet m (truthy a))]).
  split_and!.
  - unfold traced, mark, bind, ret. by rewrite E.
  - rewrite trace_extend, Ht, trace_extend, <- !app_assoc. reflexivity.
  - rewrite !markers_app, (markers_nonmarker seg Hs). reflexivity.
Qed.

Lemma plain_teardown ssh_client api_connection :
  plain (teardown env ssh_client api_connection).
Proof.
  unfold teardown. apply plain_bind.
  - destruct (is_some ssh_client); [|apply plain_ret].
    apply plain_try_except; [apply quiet_ssh_close | intros; apply plain_ret].
  - intros _. destruct (is_some api_connection); [|apply plain_ret].
    apply plain_try_except; [apply quiet_disconnect | intros; apply plain_ret].
Qed.

Lemma runs_leave ssh_client api_connection r w (P : bool * string → list Event → Prop) :
  P r [] → runs (leave env ssh_client api_connection r) w P.
Proof.
  intros H. unfold leave.
  eapply runs_bind; [apply runs_plain, plain_teardown|].
  intros _ w' ms1 ->. by apply runs_ret.
Qed.

Lemma runs_guarded ssh_client api_connection body w
    (P : bool * string → list Event → Prop) :
  runs body w P → runs (guarded env ssh_client api_connection body) w P.
Proof.
  intros (a & w' & seg & E & Ht & HP). exists a, w', seg.
  unfold guarded, try_except. by rewrite E.
Qed.

(** *** Blocks that involve no key method *)

Lemma tame_runs {A} (f : M A) w : tame f → runs f w (λ _ ms, free ms).
Proof. intros H. apply H. Qed.

Lemma tame_plain {A} (f : M A) : plain f → tame f.
Proof. intros H w. eapply runs_mono; [apply runs_plain, H|]. by intros _ ms ->. Qed.

Lemma tame_bind {A B} (m : M A) (k : A → M B) :
  tame m → (∀ a, tame (k a)) → tame (bind m k).
Proof.
  intros Hm Hk w. eapply runs_bind; [apply Hm|].
  intros a w' ms1 H1. eapply runs_mono; [apply Hk|].
  intros b ms2 H2. by apply free_app.
Qed.

Lemma tame_traced {A} m truthy (body : M A) :
  is_key m = false → plain body → tame (traced m truthy body).
Proof.
  intros Hm Hb w. eapply runs_mono; [by apply runs_traced|].
  intros a ms ->. unfold free. simpl. by rewrite Hm.
Qed.

Lemma tame_leave ssh_client api_connection r :
  tame (leave env ssh_client api_connection r).
Proof. intros w. by apply runs_leave. Qed.

Lemma tame_guarded ssh_client api_connection body :
  tame body → tame (guarded env ssh_client api_connection body).
Proof. intros H w. apply runs_guarded, H. Qed.

Lemma tame_connect_api host : tame (_connect_api env host).
Proof. apply tame_traced; [done | walk]. Qed.

Lemma tame_get_host_system : tame (_get_host_system env).
Proof. apply tame_traced; [done | walk]. Qed.

Lemma tame_enable_services : tame (enable_services_via_api env).
Proof. apply tame_traced; [done | walk]. Qed.

Lemma tame_disable_services : tame (disable_services_via_api env).
Proof. apply tame_traced; [done | walk]. Qed.

Lemma tame_wait_for_ssh host timeout : tame (wait_for_ssh env host timeout).
Proof. apply tame_traced; [done | apply plain_wait_for_ssh_body]. Qed.

Lemma tame_ssh_connect host : tame (ssh_connect env host).
Proof. apply tame_traced; [done | walk]. Qed.

Lemma tame_find_boot_datastore : tame (find_boot_datastore env).
Proof. apply tame_traced; [done | walk]. Qed.

Lemma tame_copy_patch_via_scp ds : tame (copy_patch_via_scp env self ds).
Proof.
  apply tame_traced; [done|].
  apply plain_bind; [apply plain_exists_patch_file|]. intros present.
  destruct (negb present); [walk|].
  apply plain_try_except; [|intros; walk].
  apply quiet_bind; [walk|]. intros r. apply quiet_bind; [walk|]. intros _.
  apply quiet_bind.
  { apply plain_quiet, plain_try_except; [|intros; walk].
    apply quiet_bind; [apply quiet_sftp_stat | intros; walk]. }
  intros reachable. destruct (negb reachable).
  { apply quiet_bind; [apply quiet_sftp_close | intros; walk]. }
  apply quiet_bind; [walk|]. intros r2. apply quiet_bind; [walk|]. intros _.
  apply quiet_bind; [apply quiet_sftp_stat|]. intros st_size.
  apply quiet_bind; [walk|]. intros r3. apply quiet_bind; [walk|]. intros local_size.
  destruct (bool_decide (st_size = local_size));
    (apply quiet_bind; [apply quiet_sftp_close | intros; walk]).
Qed.

Lemma tame_start_vms_after_reboot : tame (start_vms_after_reboot env).
Proof.
  apply tame_traced; [done|]. apply plain_try_except; [|intros; walk].
  apply plain_quiet. apply plain_bind.
  - unfold start_vms_counters. apply plain_bind; [walk|]. intros [success output].
    destruct (negb success || _); [walk|].
    apply plain_bind; [|intros; walk].
    apply plain_for_each. intros [started failed] vm_id. unfold start_vm. walk.
  - intros [[??]|]; walk.
Qed.

Lemma tame_install_patch_via_ssh ds : tame (install_patch_via_ssh env self ds).
Proof. apply tame_traced; [done|]. walk. Qed.

Lemma tame_verify_patch_installation pattern :
  tame (verify_patch_installation env self pattern).
Proof. apply tame_traced; [done|]. cbv zeta. walk. Qed.

Lemma tame_cleanup_patch_file ds : tame (cleanup_patch_file env self ds).
Proof. apply tame_traced; [done|]. walk. Qed.

Lemma tame_reboot_host : tame (reboot_host env).
Proof. apply tame_traced; [done|]. walk. Qed.

Lemma tame_wait_for_host_reboot host timeout : tame (wait_for_host_reboot env host timeout).
Proof. apply tame_traced; [done | apply plain_wait_for_host_reboot_body]. Qed.

Lemma plain_maintenance_body (transition : M (Reply unit)) (inside_means_done : bool) :
  plain transition →
  plain (try_except
           (inside <- in_maintenance_mode env ;;
            if (if inside_means_done then inside else negb inside) then ret true
            else
              r <- transition ;;
              _ <- of_reply r ;;
              _ <- _wait_for_task env 1800 ;;
              ret true)
           (λ _, ret false)).
Proof.
  intros Ht. apply plain_try_except; [|intros; walk].
  apply quiet_bind; [apply quiet_in_maintenance_mode|]. intros inside.
  destruct (if inside_means_done then inside else negb inside); [walk|].
  apply quiet_bind; [by apply plain_quiet|]. intros r.
  apply quiet_bind; [walk|]. intros _.
  apply quiet_bind; [apply quiet_wait_for_task | intros; walk].
Qed.

Lemma tame_exit_maintenance_mode : tame (exit_maintenance_mode env).
Proof.
  apply tame_traced; [done|].
  apply (plain_maintenance_body
           (ask env (λ w, e_exit_maintenance env w 0) (EvExitMaintenanceMode 0)) false).
  walk.
Qed.

(** *** The key methods *)

Lemma runs_is_host_in_cluster w :
  runs (is_host_in_cluster env) w
    (λ c ms, ms = [EvCall m_is_host_in_cluster; EvRet m_is_host_in_cluster c]).
Proof. apply (runs_traced m_is_host_in_cluster id). walk. Qed.

Lemma runs_enter_maintenance_mode timeout w :
  runs (enter_maintenance_mode env timeout) w
    (λ b ms, ms = [EvCall m_enter_maintenance_mode; EvRet m_enter_maintenance_mode b]).
Proof.
  apply (runs_traced m_enter_maintenance_mode id).
  apply (plain_maintenance_body
           (ask env (λ w, e_enter_maintenance env w timeout)
                (EvEnterMaintenanceMode timeout)) true).
  walk.
Qed.

Lemma runs_check_and_shutdown_vms graceful_timeout w :
  runs (check_and_shutdown_vms env graceful_timeout) w
    (λ b ms, ms = [EvCall m_check_and_shutdown_vms; EvRet m_check_and_shutdown_vms b]).
Proof.
  apply (runs_traced m_check_and_shutdown_vms id).
  apply plain_try_except; [|intros; walk]. apply plain_quiet.
  apply plain_bind; [walk|]. intros [success output].
  destruct (negb success || _); [walk|].
  apply plain_bind; [|intros []; walk].
  apply plain_for_each. intros. apply plain_shutdown_vm.
Qed.

Lemma runs_install_patch_via_ssh ds w :
  runs (install_patch_via_ssh env self ds) w
    (λ b ms, ms = [EvCall m_install_patch_via_ssh; EvRet m_install_patch_via_ssh b]).
Proof. apply (runs_traced m_install_patch_via_ssh id). walk. Qed.

Lemma runs_verify_patch_installation pattern w :
  runs (verify_patch_installation env self pattern) w
    (λ b ms, ms = [EvCall m_verify_patch_installation;
                   EvRet m_verify_patch_installation b]).
Proof. apply (runs_traced m_verify_patch_installation id). walk. Qed.

(** *** Steps 7 and 8 *)

Lemma runs_quiesce is_clustered w :
  runs (quiesce env is_clustered) w (λ fatal ms, quiesce_markers is_clustered fatal ms).
Proof.
  unfold quiesce, quiesce_markers. destruct is_clustered.
  - eapply runs_bind; [apply runs_enter_maintenance_mode|].
    intros entered w1 ms1 ->. destruct entered; reduce.
    + eapply runs_bind; [apply runs_check_and_shutdown_vms|].
      intros vm_result w2 ms2 ->. apply runs_ret. right. by exists vm_result.
    + apply runs_ret. by left.
  - eapply runs_bind; [apply runs_check_and_shutdown_vms|].
    intros vm_result w1 ms1 ->.
    eapply runs_bind; [apply runs_enter_maintenance_mode|].
    intros entered w2 ms2 ->. destruct entered; reduce; apply runs_ret;
      exists vm_result; [by right | by left].
Qed.

(** *** The blocks of the workflow *)

Ltac tame_walk :=
  cbv beta;
  lazymatch goal with
  | |- tame (bind _ _) => apply tame_bind; [tame_walk | intros; tame_walk]
  | |- tame (guarded _ _ _ _) => apply tame_guarded; tame_walk
  | |- tame (leave _ _ _ _) => apply tame_leave
  | |- tame (ret _) => apply tame_plain, plain_ret
  | |- tame (sleep _) => apply tame_plain, plain_sleep; lia
  | |- tame (ssh_close _) =>  fail
  | |- tame (_connect_api _ _) => apply tame_connect_api
  | |- tame (_get_host_system _) => apply tame_get_host_system
  | |- tame (enable_services_via_api _) => apply tame_enable_services
  | |- tame (disable_services_via_api _) => apply tame_disable_services
  | |- tame (wait_for_ssh _ _ _) => apply tame_wait_for_ssh
  | |- tame (ssh_connect _ _) => apply tame_ssh_connect
  | |- tame (find_boot_datastore _) => apply tame_find_boot_datastore
  | |- tame (copy_patch_via_scp _ _ _) => apply tame_copy_patch_via_scp
  | |- tame (start_vms_after_reboot _) => apply tame_start_vms_after_reboot
  | |- tame (install_patch_via_ssh _ _ _) => apply tame_install_patch_via_ssh
  | |- tame (verify_patch_installation _ _ _) => apply tame_verify_patch_installation
  | |- tame (cleanup_patch_file _ _ _) => apply tame_cleanup_patch_file
  | |- tame (reboot_host _) => apply tame_reboot_host
  | |- tame (wait_for_host_reboot _ _ _) => apply tame_wait_for_host_reboot
  | |- tame (exit_maintenance_mode _) => apply tame_exit_maintenance_mode
  | |- tame (exists_patch_file _ _) => apply tame_plain, plain_exists_patch_file
  | |- tame (match ?x with _ => _ end) => destruct x; tame_walk
  | |- _ => idtac
  end.

Lemma tame_reconnect_api remaining host : tame (reconnect_api env remaining host).
Proof.
  induction remaining as [|n IH]; simpl; [apply tame_plain, plain_ret|].
  apply tame_bind; [apply tame_connect_api|]. intros api.
  destruct (is_some api); [apply tame_plain, plain_ret|].
  apply tame_bind; [|intros; apply IH].
  destruct n; [apply tame_plain, plain_ret | apply tame_plain, plain_sleep; lia].
Qed.

Lemma tame_restore host is_clustered old_ssh_client :
  tame (restore env host is_clustered old_ssh_client).
Proof.
  unfold restore. apply tame_guarded, tame_bind; [apply tame_reconnect_api|].
  intros api. tame_walk.
Qed.

(** *** Blocks that may raise *)

Lemma attempts_runs {A} (f : M A) w P E : runs f w P → attempts f w P E.
Proof. intros (a & w' & seg & Ef & Ht & HP). by exists (Ok a), w', seg. Qed.

Lemma attempts_mono {A} (f : M A) w (P P' : A → list Event → Prop) (E E' : list Event → Prop) :
  attempts f w P E →
  (∀ a ms, P a ms → P' a ms) → (∀ ms, E ms → E' ms) →
  attempts f w P' E'.
Proof.
  intros (res & w' & seg & Ef & Ht & H) HP HE. exists res, w', seg.
  split_and!; [done | done |]. destruct res; eauto.
Qed.

Lemma attempts_bind {A B} (m : M A) (k : A → M B) w P E1
    (Q : B → list Event → Prop) (E : list Event → Prop) :
  attempts m w P E1 →
  (∀ ms, E1 ms → E ms) →
  (∀ a w' ms1, P a ms1 →
     attempts (k a) w' (λ b ms2, Q b (ms1 ++ ms2)) (λ ms2, E (ms1 ++ ms2))) →
  attempts (bind m k) w Q E.
Proof.
  intros (res & w1 & seg1 & E1' & Ht1 & H1) HE Hk. unfold attempts, bind. rewrite E1'.
  destruct res as [a|e|]; [|by exists (Raise e), w1, seg1; eauto|done].
  destruct (Hk a w1 _ H1) as (res2 & w2 & seg2 & E2 & Ht2 & H2).
  exists res2, w2, (seg1 ++ seg2). rewrite markers_app.
  split_and!; [done | by rewrite Ht2, Ht1, app_assoc | done].
Qed.

Lemma attempts_bind_runs {A B} (m : M A) (k : A → M B) w P
    (Q : B → list Event → Prop) (E : list Event → Prop) :
  runs m w P →
  (∀ a w' ms1, P a ms1 →
     attempts (k a) w' (λ b ms2, Q b (ms1 ++ ms2)) (λ ms2, E (ms1 ++ ms2))) →
  attempts (bind m k) w Q E.
Proof.
  intros Hm Hk. eapply (attempts_bind m k w P (λ _, False));
    [by apply attempts_runs | done | done].
Qed.

Lemma attempts_quiet {A} (f : M A) w :
  quiet_at f w → attempts f w (λ _ ms, ms = []) (λ ms, ms = []).
Proof.
  intros (res & w' & Ef & Hd & _ & seg & Ht & Hs). exists res, w', seg.
  split_and!; [done | done |]. destruct res; [| |done]; by apply markers_nonmarker.
Qed.

Lemma runs_guarded_attempts ssh_client api_connection body w
    (P : bool * string → list Event → Prop) E :
  attempts body w P E →
  (∀ e ms, E ms → P (false, "Исключение: " +:+ e) ms) →
  runs (guarded env ssh_client api_connection body) w P.
Proof.
  intros (res & w1 & seg & Eb & Ht & H) HE.
  destruct res as [a|e|]; [| |done].
  { exists a, w1, seg. unfold guarded, try_except. by rewrite Eb. }
  destruct (runs_leave ssh_client api_connection (false, "Исключение: " +:+ e) w1
              (λ r ms, r = (false, "Исключение: " +:+ e) ∧ ms = []) ltac:(done))
    as (r & w2 & seg2 & El & Ht2 & -> & Hm).
  exists (false, "Исключение: " +:+ e), w2, (seg ++ seg2).
  split_and!.
  - unfold guarded, try_except. by rewrite Eb.
  - by rewrite Ht2, Ht, app_assoc.
  - rewrite markers_app, Hm, app_nil_r. by apply HE.
Qed.

Lemma gentle_tame {A} (f : M A) : tame f → gentle f.
Proof. intros H w. apply attempts_runs, H. Qed.

Lemma gentle_quiet {A} (f : M A) : quiet f → gentle f.
Proof.
  intros H w. destruct (attempts_quiet f w (H w)) as (res & w' & seg & Ef & Ht & Hr).
  exists res, w', seg. split_and!; [done | done |]. by destruct res; try rewrite Hr.
Qed.

Lemma gentle_bind {A B} (m : M A) (k : A → M B) :
  gentle m → (∀ a, gentle (k a)) → gentle (bind m k).
Proof.
  intros Hm Hk w. eapply attempts_bind; [apply Hm | done |].
  intros a w' ms1 H1. destruct (Hk a w') as (res & w2 & seg & Ef & Ht & Hr).
  exists res, w2, seg. split_and!; [done | done |].
  destruct res; [| |done]; by apply free_app.
Qed.

(** The part of [process_host] after a successful reboot command. *)
Lemma gentle_after_reboot host is_clustered ssh_client api_connection :
  gentle (_ <- (if is_some ssh_client then ssh_close env else ret tt) ;;
          _ <- (if is_some api_connection then disconnect env else ret tt) ;;
          back <- wait_for_host_reboot env host 600 ;;
          if negb back
          then leave env ssh_client api_connection
                 (false, "Хост не перезагрузился или недоступен после перезагрузки")
          else
            _ <- sleep 30 ;;
            restore env host is_clustered ssh_client).
Proof.
  apply gentle_bind.
  { destruct (is_some ssh_client);
      [apply gentle_quiet, quiet_ssh_close | apply gentle_tame, tame_plain, plain_ret]. }
  intros _. apply gentle_bind.
  { destruct (is_some api_connection);
      [apply gentle_quiet, quiet_disconnect | apply gentle_tame, tame_plain, plain_ret]. }
  intros _. apply gentle_tame. apply tame_bind; [apply tame_wait_for_host_reboot|].
  intros back. destruct (negb back); [apply tame_leave|].
  apply tame_bind; [apply tame_plain, plain_sleep; lia | intros; apply tame_restore].
Qed.

(** Steps 10 to 13 and the restoration. *)
Lemma gentle_cleanup_and_reboot host is_clustered ssh_client api_connection datastore :
  gentle (present <- exists_patch_file env self ;;
          _ <- (if present then _ <- cleanup_patch_file env self (fmt datastore) ;; ret tt
                else ret tt) ;;
          rebooted <- reboot_host env ;;
          if negb rebooted
          then leave env ssh_client api_connection (false, "Ошибка при перезагрузке")
          else
            _ <- (if is_some ssh_client then ssh_close env else ret tt) ;;
            _ <- (if is_some api_connection then disconnect env else ret tt) ;;
            back <- wait_for_host_reboot env host 600 ;;
            if negb back
            then leave env ssh_client api_connection
                   (false, "Хост не перезагрузился или недоступен после перезагрузки")
            else
              _ <- sleep 30 ;;
              restore env host is_clustered ssh_client).
Proof.
  apply gentle_bind; [apply gentle_tame, tame_plain, plain_exists_patch_file|].
  intros present. apply gentle_bind.
  { apply gentle_tame. destruct present; tame_walk. }
  intros _. apply gentle_bind; [apply gentle_tame, tame_reboot_host|].
  intros rebooted. destruct (negb rebooted); [apply gentle_tame, tame_leave|].
  apply gentle_after_reboot.
Qed.

Lemma after_shape_extend ms tail : after_shape ms → free tail → after_shape (ms ++ tail).
Proof.
  intros [Hf [t [-> | ->]]] Ht; (split; [by apply free_app|]);
    exists (t ++ tail); [by left | by right].
Qed.

(** Steps 9 to 13: installation, or verification when no artifact is
    present, comes first; no key method follows. *)
Lemma attempts_install_and_reboot host is_clustered ssh_client api_connection datastore w :
  attempts (install_and_reboot env self host is_clustered ssh_client api_connection datastore)
    w (λ _ ms, after_shape ms) after_shape.
Proof.
  unfold install_and_reboot.
  eapply attempts_bind_runs; [apply runs_plain, plain_exists_patch_file|].
  intros present w1 ms1 ->. destruct present.
  - eapply attempts_bind_runs; [apply runs_install_patch_via_ssh|].
    intros installed w2 ms2 ->. destruct installed; reduce.
    + eapply attempts_bind_runs; [apply (tame_verify_patch_installation None)|].
      intros verified w3 ms3 Hf3. cbv beta in Hf3.
      destruct (gentle_cleanup_and_reboot host is_clustered ssh_client api_connection
                  datastore w3) as (res & w4 & seg & Ef & Ht & Hr).
      exists res, w4, seg. split_and!; [done | done |].
      assert (after_shape ([] ++ [EvCall m_install_patch_via_ssh;
                                  EvRet m_install_patch_via_ssh true] ++ ms3 ++ markers seg)).
      { apply (after_shape_extend [_; _]); [split; [done | eexists; by left]|].
        apply free_app. split; [done|]. by destruct res. }
      by destruct res.
    + apply attempts_runs, runs_leave. split; [done|]. eexists. by left.
  - eapply attempts_bind_runs;
      [apply (runs_ret true _ (λ a ms, a = true ∧ ms = [])); done|].
    intros installed w2 ms2 [-> ->]. reduce.
    eapply attempts_bind_runs; [apply (runs_verify_patch_installation None)|].
    intros verified w3 ms3 ->.
    destruct (gentle_cleanup_and_reboot host is_clustered ssh_client api_connection
                datastore w3) as (res & w4 & seg & Ef & Ht & Hr).
    exists res, w4, seg. split_and!; [done | done |].
    assert (after_shape ([] ++ [] ++ [EvCall m_verify_patch_installation;
                                      EvRet m_verify_patch_installation verified]
                         ++ markers seg)).
    { apply (after_shape_extend [_; _]); [split; [done | eexists; by right]|].
      by destruct res. }
    by destruct res.
Qed.

Lemma quiesce_shape_any is_clustered r rest :
  (∃ q post, rest = q ++ post ∧ quiesce_markers is_clustered None q ∧ after_shape post) →
  quiesce_shape is_clustered r rest.
Proof. intros (q & post & -> & Hq & Ha). by exists q, post, None. Qed.

(** Steps 5 to 13. *)
Lemma attempts_patch_and_reboot host is_clustered ssh_client api_connection w :
  attempts (patch_and_reboot env self host is_clustered ssh_client api_connection) w
    (λ r ms, par_shape is_clustered r ms) (λ ms, ∀ r, par_shape is_clustered r ms).
Proof.
  unfold patch_and_reboot.
  eapply attempts_bind_runs; [apply tame_find_boot_datastore|].
  intros datastore w1 ms1 Hf1. cbv beta in Hf1. destruct (negb (nonempty datastore)).
  { apply attempts_runs, runs_leave. left. by rewrite app_nil_r. }
  eapply attempts_bind_runs; [apply runs_plain, plain_exists_patch_file|].
  intros present w2 ms2 ->.
  eapply (attempts_bind_runs _ _ _ (λ _ ms, free ms)).
  { destruct present; [apply tame_copy_patch_via_scp | by apply runs_ret]. }
  intros copied w3 ms3 Hf3. destruct (negb copied).
  { apply attempts_runs, runs_leave. left. rewrite app_nil_r. simpl. by apply free_app. }
  eapply attempts_bind_runs; [apply runs_quiesce|].
  intros fatal w4 q Hq. destruct fatal as [reason|].
  - apply attempts_runs, runs_leave. right. exists (ms1 ++ ms3), q.
    split_and!; [by rewrite <- app_assoc, app_nil_r | by apply free_app |].
    exists q, [], (Some reason). rewrite app_nil_r. done.
  - destruct (attempts_install_and_reboot host is_clustered ssh_client api_connection
                datastore w4) as (res & w5 & seg & Ef & Ht & Hr).
    exists res, w5, seg. split_and!; [done | done |].
    assert (∀ r, par_shape is_clustered r (ms1 ++ [] ++ ms3 ++ q ++ markers seg)) as Hshape.
    { intros r. right. exists (ms1 ++ ms3), (q ++ markers seg).
      split_and!; [by rewrite <- app_assoc | by apply free_app |].
      apply quiesce_shape_any. exists q, (markers seg).
      split_and!; [done | done | by destruct res]. }
    destruct res; [apply Hshape | apply Hshape | done].
Qed.

Lemma free_unquiesced ms : free ms → unquiesced ms.
Proof.
  unfold free, unquiesced. intros H. induction ms as [|ev ms IH]; [done|].
  simpl in *. apply andb_true_iff in H as [H1 H2]. rewrite (IH H2), andb_true_r.
  destruct ev as [[]|[] ?| | | | | | | | | | | | | | | | | | | | | |]; done.
Qed.

Lemma unquiesced_app a b : unquiesced (a ++ b) ↔ unquiesced a ∧ unquiesced b.
Proof. unfold unquiesced. rewrite forallb_app. apply andb_true_iff. Qed.

Lemma no_call_app a b : no_call (a ++ b) ↔ no_call a ∧ no_call b.
Proof. unfold no_call. rewrite forallb_app. apply andb_true_iff. Qed.

Lemma runs_traced_block {A} m truthy (body : M A) w (P : A → list Event → Prop) :
  (∀ w', runs body w' P) →
  runs (traced m truthy body) w
    (λ a ms, ∃ inner, ms = EvCall m :: inner ++ [EvRet m (truthy a)] ∧ P a inner).
Proof.
  intros Hb.
  destruct (Hb (extend w 0 (EvCall m))) as (a & w1 & seg & E & Ht & HP).
  exists a, (extend w1 0 (EvRet m (truthy a))),
    ([(now w, EvCall m)] ++ seg ++ [(now w1, EvRet m (truthy a))]).
  split_and!.
  - unfold traced, mark, bind, ret. by rewrite E.
  - rewrite trace_extend, Ht, trace_extend, <- !app_assoc. reflexivity.
  - exists (markers seg). split; [|done]. rewrite !markers_app. reflexivity.
Qed.

Lemma host_shape_wrap r inner b :
  host_shape r inner →
  host_shape r (EvCall m_process_host :: inner ++ [EvRet m_process_host b]).
Proof.
  intros [Hu | (c & p1 & p2 & rest & -> & Hp1 & Hp2 & (q & post & fatal & -> & Hq & Hpost))].
  - left. apply (unquiesced_app [_]). split; [done|]. apply unquiesced_app. by split.
  - right. exists c, (EvCall m_process_host :: p1), p2,
      (q ++ post ++ [EvRet m_process_host b]).
    split_and!; [by rewrite <- !app_assoc | by apply (free_app [_]) | done |].
    exists q, (post ++ [EvRet m_process_host b]), fatal. split_and!; [done | done |].
    destruct fatal as [reason|].
    + destruct Hpost as (Hn & Hf & ->). split_and!; [|by apply free_app|done].
      apply no_call_app. by split.
    + by apply after_shape_extend.
Qed.

(** The markers of a host run. *)
Lemma process_host_shape host w :
  ∃ r w' seg,
    process_host env self host w = (Ok r, w') ∧ trace w' = trace w ++ seg
    ∧ host_shape r (markers seg).
Proof.
  assert (∀ w', runs (guarded env None None
                        (api_connection <- _connect_api env host ;;
                         guarded env None api_connection
                           (if negb (is_some api_connection)
                            then leave env None api_connection
                                   (false, "Ошибка подключения к API")
                            else
                              host_obj <- _get_host_system env ;;
                              if negb (is_some host_obj)
                              then leave env None api_connection
                                     (false, "Ошибка получения объекта хоста")
                              else
                                is_clustered <- is_host_in_cluster env ;;
                                _ <- enable_services_via_api env ;;
                                _ <- wait_for_ssh env host 120 ;;
                                ssh_client <- ssh_connect env host ;;
                                guarded env ssh_client api_connection
                                  (if negb (is_some ssh_client)
                                   then leave env ssh_client api_connection
                                          (false, "Не удалось подключиться по SSH")
                                   else patch_and_reboot env self host is_clustered
                                          ssh_client api_connection)))) w'
                   host_shape) as Hbody.
  { intros w0. apply runs_guarded.
    eapply runs_bind; [apply tame_connect_api|]. intros api w1 ms1 Hf1. cbv beta in Hf1.
    apply runs_guarded. destruct (negb (is_some api)).
    { apply runs_leave. left. rewrite app_nil_r. by apply free_unquiesced. }
    eapply runs_bind; [apply tame_get_host_system|]. intros ho w2 ms2 Hf2. cbv beta in Hf2.
    destruct (negb (is_some ho)).
    { apply runs_leave. left. rewrite app_nil_r. by apply free_unquiesced, free_app. }
    eapply runs_bind; [apply runs_is_host_in_cluster|]. intros c w3 ms3 ->.
    eapply runs_bind; [apply tame_enable_services|]. intros en w4 ms4 Hf4. cbv beta in Hf4.
    eapply runs_bind; [apply tame_wait_for_ssh|]. intros ws w5 ms5 Hf5. cbv beta in Hf5.
    eapply runs_bind; [apply tame_ssh_connect|]. intros ssh w6 ms6 Hf6. cbv beta in Hf6.
    assert (free (ms4 ++ ms5 ++ ms6)) as Hf456 by (by repeat (apply free_app; split)).
    destruct (negb (is_some ssh)) eqn:Hssh.
    { apply runs_guarded, runs_leave. left. rewrite app_nil_r.
      repeat (apply unquiesced_app; split); first [by apply free_unquiesced | done]. }
    assert (∀ r ms, par_shape c r ms →
              host_shape r (ms1 ++ ms2 ++ [EvCall m_is_host_in_cluster;
                                            EvRet m_is_host_in_cluster c]
                            ++ ms4 ++ ms5 ++ ms6 ++ ms)) as Hpar.
    { intros r ms [Hf | (p2 & rest & -> & Hp2 & Hrest)].
      - left. repeat (apply unquiesced_app; split);
          first [by apply free_unquiesced | done].
      - right. exists c, (ms1 ++ ms2), (ms4 ++ ms5 ++ ms6 ++ p2), rest.
        split_and!; [by rewrite <- !app_assoc | by apply free_app | | done].
        by repeat (apply free_app; split). }
    eapply (runs_guarded_attempts _ _ _ _ _
              (λ ms, ∀ r, host_shape r (ms1 ++ ms2 ++ [EvCall m_is_host_in_cluster;
                                                       EvRet m_is_host_in_cluster c]
                                        ++ ms4 ++ ms5 ++ ms6 ++ ms))).
    - eapply attempts_mono; [apply attempts_patch_and_reboot | apply Hpar |].
      intros ms H r. apply Hpar, H.
    - intros e ms H. apply H. }
  destruct (runs_traced_block m_process_host fst _ w _ Hbody)
    as (r & w' & seg & E & Ht & inner & Hm & Hs).
  exists r, w', seg. split_and!; [exact E | exact Ht |].
  rewrite Hm. by apply host_shape_wrap.
Qed.

(** *** Where a key marker can stand *)

Lemma split_key_cons {A} (k : A) rest pre y post :
  k :: rest = pre ++ y :: post →
  (pre = [] ∧ y = k ∧ post = rest) ∨ (∃ pre', pre = k :: pre' ∧ rest = pre' ++ y :: post).
Proof.
  destruct pre as [|x pre']; simpl; intros [= -> ->]; [by left | right; by exists pre'].
Qed.

Lemma free_split_absurd l pre y post :
  free l → l = pre ++ y :: post → key_event y = true → False.
Proof.
  intros Hf -> Hy. apply free_app in Hf as [_ Hf]. unfold free in Hf. simpl in Hf.
  by rewrite Hy in Hf.
Qed.

Lemma split_key (s0 : list Event) k rest pre y post :
  s0 ++ k :: rest = pre ++ y :: post →
  key_event y = true → free s0 →
  (pre = s0 ∧ y = k ∧ post = rest) ∨ (∃ pre', pre = s0 ++ k :: pre' ∧ rest = pre' ++ y :: post).
Proof.
  revert pre. induction s0 as [|x s0 IH]; intros pre H Hy Hf.
  - by apply split_key_cons.
  - destruct pre as [|x' pre']; simpl in H.
    + injection H as -> _. unfold free in Hf. simpl in Hf. by rewrite Hy in Hf.
    + injection H as -> H. apply (free_app [_]) in Hf as [_ Hf].
      destruct (IH pre' H Hy Hf) as [(-> & -> & ->) | (p & -> & ->)];
        [by left | right; by exists p].
Qed.

Lemma unquiesced_split_absurd l pre y post :
  unquiesced l → l = pre ++ y :: post → is_quiesce_event y = true → False.
Proof.
  intros Hu -> Hy. apply unquiesced_app in Hu as [_ Hu]. unfold unquiesced in Hu.
  simpl in Hu. by rewrite Hy in Hu.
Qed.

Lemma free_not_elem l y : free l → key_event y = true → y ∉ l.
Proof.
  intros Hf Hy Hin. apply list_elem_of_split in Hin as (pre & post & ->).
  by eapply free_split_absurd.
Qed.

(** Locate a key marker [y] in a list of markers whose shape is known. *)
Ltac peel H :=
  let Hy := fresh "Hy" in
  let Hp := fresh "Hp" in
  let Hq := fresh "Hq" in
  let pre' := fresh "pre" in
  lazymatch type of H with
  | _ ++ _ :: _ = _ ++ _ :: _ =>
      apply split_key in H; [| done | assumption];
      destruct H as [(Hp & Hy & Hq) | (pre' & Hp & H)]; [| peel H]
  | _ :: _ = _ ++ _ :: _ =>
      apply split_key_cons in H;
      destruct H as [(Hp & Hy & Hq) | (pre' & Hp & H)]; [| peel H]
  | _ = _ ++ _ :: _ =>
      exfalso; eapply free_split_absurd; [| exact H | done]; assumption
  end.

(** Where the markers of steps 7 and 8 stand.  In a host run whose
    topology is clustered, workload shutdown is invoked only after
    [enter_maintenance_mode] has returned [True], and then it is
    invoked; in a standalone run [enter_maintenance_mode] is invoked
    only after workload shutdown has returned, and then it is invoked.
    In both, a failure of [enter_maintenance_mode] ends the run with
    that reason and no further method is invoked, while the result of
    workload shutdown, whatever it is, is followed by the next step. *)
Lemma quiesce_order_where_marked host w :
  let out := process_host env self host w in
  let ms := markers (events_since w out.2) in
  ∃ r, out.1 = Ok r ∧
    (EvRet m_is_host_in_cluster true ∈ ms →
       (∀ pre post, ms = pre ++ EvCall m_check_and_shutdown_vms :: post →
                    EvRet m_enter_maintenance_mode true ∈ pre)
       ∧ (∀ pre post, ms = pre ++ EvRet m_enter_maintenance_mode true :: post →
                      ∃ t, post = EvCall m_check_and_shutdown_vms :: t)
       ∧ (∀ pre post, ms = pre ++ EvRet m_enter_maintenance_mode false :: post →
                      no_call post ∧ r = (false, maintenance_failure))
       ∧ (∀ pre b post, ms = pre ++ EvRet m_check_and_shutdown_vms b :: post →
                        ∃ t, post = EvCall m_install_patch_via_ssh :: t
                             ∨ post = EvCall m_verify_patch_installation :: t))
    ∧ (EvRet m_is_host_in_cluster false ∈ ms →
         (∀ pre post, ms = pre ++ EvCall m_enter_maintenance_mode :: post →
                      ∃ b, EvRet m_check_and_shutdown_vms b ∈ pre)
         ∧ (∀ pre b post, ms = pre ++ EvRet m_check_and_shutdown_vms b :: post →
                          ∃ t, post = EvCall m_enter_maintenance_mode :: t)
         ∧ (∀ pre post, ms = pre ++ EvRet m_enter_maintenance_mode false :: post →
                        no_call post ∧ r = (false, maintenance_failure))).
Proof.
  destruct (process_host_shape host w) as (r & w' & seg & E & Ht & Hs).
  cbv zeta. rewrite E. cbn [fst snd]. rewrite (events_since_app w w' seg Ht).
  exists r. split; [done|]. revert Hs. generalize (markers seg). intros ms Hs.
  destruct Hs as [Hu | (c & p1 & p2 & rest & -> & Hp1 & Hp2 &
                        q & post & fatal & -> & Hq & Hpost)].
  { split; intros _; split_and!; intros; exfalso;
      (eapply unquiesced_split_absurd; [exact Hu | eassumption | done]). }
  assert (free post) as Hfp.
  { destruct fatal; [by destruct Hpost as (_ & ? & _) | by destruct Hpost]. }
  assert (∀ c', EvRet m_is_host_in_cluster c' ∈
                  p1 ++ [EvCall m_is_host_in_cluster; EvRet m_is_host_in_cluster c]
                  ++ p2 ++ q ++ post → c' = c) as Htop.
  { intros c' Hin. apply list_elem_of_split in Hin as (pre & post' & Hsplit).
    unfold quiesce_markers in Hq.
    destruct c; [destruct Hq as [[-> ->] | (b & -> & ->)]
                |destruct Hq as (b & [[-> ->] | [-> ->]])];
      simpl in Hsplit; peel Hsplit; by simplify_eq. }
  split; intros Hc; apply Htop in Hc; subst c; unfold quiesce_markers in Hq.
  - destruct Hq as [[-> ->] | (b & -> & ->)].
    + destruct Hpost as (Hn & _ & ->).
      split_and!; intros; match goal with H : _ = _ ++ _ :: _ |- _ =>
        simpl in H; peel H; by simplify_eq end.
    + destruct Hpost as [_ Hnext].
      split_and!; intros; match goal with H : _ = _ ++ _ :: _ |- _ =>
        simpl in H; peel H; simplify_eq end.
      * set_solver.
      * by eexists.
      * exact Hnext.
  - destruct Hq as (b & [[-> ->] | [-> ->]]).
    + destruct Hpost as (Hn & _ & ->).
      split_and!; intros; match goal with H : _ = _ ++ _ :: _ |- _ =>
        simpl in H; peel H; simplify_eq end.
      * exists b. set_solver.
      * by eexists.
      * done.
    + destruct Hpost as [_ Hnext].
      split_and!; intros; match goal with H : _ = _ ++ _ :: _ |- _ =>
        simpl in H; peel H; simplify_eq end.
      * exists b. set_solver.
      * by eexists.
Qed.

(** The result of workload shutdown does not end the run: the next
    step follows. *)
Lemma shutdown_result_not_fatal host w :
  let out := process_host env self host w in
  let ms := markers (events_since w out.2) in
  ∀ pre b post,
    ms = pre ++ EvRet m_check_and_shutdown_vms b :: post →
    (EvRet m_is_host_in_cluster false ∈ ms →
       ∃ t, post = EvCall m_enter_maintenance_mode :: t)
    ∧ (EvRet m_enter_maintenance_mode true ∈ ms →
         EvCall m_install_patch_via_ssh ∈ post
         ∨ EvCall m_verify_patch_installation ∈ post).
Proof.
  destruct (process_host_shape host w) as (r & w' & seg & E & Ht & Hs).
  cbv zeta. rewrite E. cbn [fst snd]. rewrite (events_since_app w w' seg Ht).
  revert Hs. generalize (markers seg). intros ms Hs pre b post Hsplit.
  destruct Hs as [Hu | (c & p1 & p2 & rest & -> & Hp1 & Hp2 &
                        q & post0 & fatal & -> & Hq & Hpost)].
  { exfalso. by eapply unquiesced_split_absurd. }
  assert (free post0) as Hfp.
  { destruct fatal; [by destruct Hpost as (_ & ? & _) | by destruct Hpost]. }
  assert (∀ l t, (l = EvCall m_install_patch_via_ssh :: t
                  ∨ l = EvCall m_verify_patch_installation :: t) →
            EvCall m_install_patch_via_ssh ∈ l
            ∨ EvCall m_verify_patch_installation ∈ l) as Hnext.
  { intros l t [-> | ->]; [left | right]; apply list_elem_of_here. }
  unfold quiesce_markers in Hq.
  destruct c; [destruct Hq as [[-> ->] | (b' & -> & ->)]
              |destruct Hq as (b' & [[-> ->] | [-> ->]])].
  - simpl in Hsplit. peel Hsplit; by simplify_eq.
  - simpl in Hsplit. peel Hsplit; simplify_eq.
    destruct Hpost as [_ [t Ht']]. split.
    + intros Hin. exfalso.
      apply list_elem_of_split in Hin as (pre' & post' & Hs').
      simpl in Hs'. peel Hs'; by simplify_eq.
    + intros _. by eapply Hnext.
  - simpl in Hsplit. peel Hsplit; simplify_eq.
    split; [intros _; by eexists|].
    intros Hin. exfalso. destruct Hpost as (_ & Hfree & _).
    apply list_elem_of_split in Hin as (pre' & post' & Hs').
    simpl in Hs'. peel Hs'; by simplify_eq.
  - simpl in Hsplit. peel Hsplit; simplify_eq.
    split; [intros _; by eexists|].
    intros _. destruct Hpost as [_ [t Ht']].
    destruct (Hnext _ _ Ht') as [H | H]; [left | right];
      by do 2 apply list_elem_of_further.
Qed.

(** *** The fleet *)

Lemma bind_returns {A B} (m : M A) (k : A → M B) w a w1 :
  m w = (Ok a, w1) → bind m k w = k a w1.
Proof. intros E. unfold bind. by rewrite E. Qed.

Lemma test_connection_returns host w :
  ∃ r w', test_connection env host w = (Ok r, w').
Proof.
  unfold test_connection, traced, bind, mark, ask, perform, ret. simpl.
  destruct (e_self_test env _ (name host)) as [ok msg]. simpl.
  by eexists _, _.
Qed.

Lemma self_tests_return todo w :
  ∃ w', for_each (λ _ host, _ <- test_connection env host ;; ret tt) todo tt w
        = (Ok tt, w').
Proof.
  revert w. induction todo as [|host rest IH]; intros w; simpl.
  - by eexists.
  - unfold bind at 1. unfold bind at 1.
    destruct (test_connection_returns host w) as (r & w1 & ->). simpl.
    apply IH.
Qed.

(** The main loop processes every host, in order, and assigns each result
    under the name of its host. *)
Lemma process_all_spec todo results w :
  ∃ outs w',
    process_all env self todo results w
    = (Ok (assigned (zip (name <$> todo) outs) ∪ results), w')
    ∧ Forall2 (λ host r, ∃ wi, (process_host env self host wi).1 = Ok r) todo outs.
Proof.
  revert results w. induction todo as [|host rest IH]; intros results w.
  - exists [], w. split; [|constructor].
    simpl. unfold ret, assigned. simpl. by rewrite (left_id_L ∅ (∪)).
  - destruct (process_host_shape host w) as (r & w1 & seg & E & _ & _).
    simpl. unfold bind at 1. rewrite E.
    unfold bind at 1.
    set (pause := match rest with [] => ret tt | _ :: _ => sleep 30 end).
    assert (∃ w2, pause w1 = (Ok tt, w2)) as [w2 Hp].
    { subst pause. destruct rest; by eexists. }
    rewrite Hp.
    destruct (IH (<[name host := r]> results) w2) as (outs & w' & Hrun & Hall).
    exists (r :: outs), w'. split.
    + rewrite Hrun. f_equal. unfold assigned. simpl.
      rewrite reverse_cons, list_to_map_app. simpl.
      rewrite insert_union_singleton_l, insert_empty.
      by rewrite (assoc_L (∪)).
    + constructor; [|exact Hall]. exists w. by rewrite E.
Qed.

Lemma failures_of_zip (names : list string) (outs : list (bool * string)) :
  length names = length outs →
  bool_decide (length (filter (λ kv : string * (bool * string), kv.2.1 = false)
                         (zip names outs)) = 0%nat)
  = forallb fst outs.
Proof.
  revert outs. induction names as [|n names IH]; intros [|[b msg] outs] Hlen;
    simplify_eq/=; [done|].
  destruct b.
  - rewrite filter_cons_False by done. by apply IH.
  - rewrite filter_cons_True by done. done.
Qed.

(** The fleet run when the names of the hosts are distinct: every host is
    processed, the report holds the result of every host under its name
    and nothing else, and the overall result is success exactly when
    every host succeeded. *)
Lemma run_reports_hosts_of_distinct_names w :
  NoDup (name <$> hosts self) →
  ∃ outs results w',
    run_results env self w = (Ok results, w')
    ∧ Forall2 (λ host r, (∃ wi, (process_host env self host wi).1 = Ok r)
                         ∧ results !! name host = Some r) (hosts self) outs
    ∧ (∀ k, is_Some (results !! k) → k ∈ name <$> hosts self)
    ∧ (run env self w).1 = Ok (forallb fst outs).
Proof.
  intros Hnames.
  destruct (self_tests_return (hosts self) w) as [w1 Ht].
  destruct (process_all_spec (hosts self) ∅ w1) as (outs & w' & Hrun & Hall).
  rewrite (right_id_L ∅ (∪)) in Hrun.
  assert (Hlen : length (name <$> hosts self) = length outs).
  { rewrite length_fmap. by eapply Forall2_length. }
  assert (Hfst : (zip (name <$> hosts self) outs).*1 = name <$> hosts self).
  { apply fst_zip. lia. }
  assert (Hnd : NoDup (reverse (zip (name <$> hosts self) outs)).*1).
  { rewrite fmap_reverse, Hfst. by rewrite reverse_Permutation. }
  assert (Hres : run_results env self w
                 = (Ok (assigned (zip (name <$> hosts self) outs)), w')).
  { unfold run_results. rewrite (bind_returns _ _ _ _ _ Ht). exact Hrun. }
  exists outs, (assigned (zip (name <$> hosts self) outs)), w'.
  split_and!.
  - exact Hres.
  - apply Forall2_same_length_lookup. split; [by eapply Forall2_length|].
    intros i host r Hh Hr. split.
    + exact (Forall2_lookup_lr _ _ _ _ _ _ Hall Hh Hr).
    + unfold assigned. apply elem_of_list_to_map; [exact Hnd|].
      apply elem_of_reverse. apply (list_elem_of_lookup_2 _ i).
      apply lookup_zip_Some. split; [by rewrite list_lookup_fmap, Hh | done].
  - intros k [v Hk]. unfold assigned in Hk.
    apply elem_of_list_to_map in Hk; [|exact Hnd].
    rewrite elem_of_reverse in Hk. rewrite <- Hfst.
    apply list_elem_of_fmap. exists (k, v). split; [reflexivity | exact Hk].
  - unfold run. rewrite (bind_returns _ _ _ _ _ Hres). unfold ret. cbn [fst]. f_equal.
    rewrite <- (failures_of_zip (name <$> hosts self) outs Hlen).
    unfold fail_count, assigned.
    apply bool_decide_ext.
    rewrite (map_to_list_to_map _ Hnd), reverse_Permutation. done.
Qed.

End WorkflowFacts.

(** C3.  When workload shutdown returns [False] the run goes on: on a
    standalone host the next method invoked is [enter_maintenance_mode],
    and once maintenance mode is entered the patch installation (or, with
    no artifact present, its verification) is invoked; and such a run can
    end in success. *)
Theorem incomplete_shutdown_is_advisory :
  (∀ env self host w pre post,
     let out := process_host env self host w in
     let ms := markers (events_since w out.2) in
     ms = pre ++ EvRet m_check_and_shutdown_vms false :: post →
     (EvRet m_is_host_in_cluster false ∈ ms →
        ∃ t, post = EvCall m_enter_maintenance_mode :: t)
     ∧ (EvRet m_enter_maintenance_mode true ∈ ms →
          EvCall m_install_patch_via_ssh ∈ post
          ∨ EvCall m_verify_patch_installation ∈ post))
  ∧ (let out := process_host stubborn patcher_zip esx1 world0 in
     let ms := markers (events_since world0 out.2) in
     out.1 = Ok (true, "Успех")
     ∧ EvRet m_check_and_shutdown_vms false ∈ ms
     ∧ EvCall m_install_patch_via_ssh ∈ ms).
Proof.
  split.
  - intros env self host w pre post out ms H.
    exact (shutdown_result_not_fatal env self host w pre false post H).
  - vm_compute. split_and!; [done | find_elem | find_elem].
Qed.

(** On the stubborn standalone host: after the failed shutdown the run
    enters maintenance mode. *)
Lemma incomplete_shutdown_is_advisory_witness :
  ∃ t, drop 19 (markers (events_since world0
                           (process_host stubborn patcher_zip esx1 world0).2))
       = EvCall m_enter_maintenance_mode :: t.
Proof.
  apply (proj1 (proj1 incomplete_shutdown_is_advisory stubborn patcher_zip esx1 world0
                  (take 18 (markers (events_since world0
                              (process_host stubborn patcher_zip esx1 world0).2)))
                  (drop 19 (markers (events_since world0
                              (process_host stubborn patcher_zip esx1 world0).2)))
                  ltac:(vm_compute; reflexivity))).
  vm_compute. find_elem.
Defined.

Lemma unreadable_state_forces_poweroff_witness :
  ∃ o1 e1 forced o2 e2,
    interactions (events_since world0 (shutdown_vm blind 180 [] "7" world0).2)
    = [EvSsh (getstate_cmd "7") 60 false o1 e1;
       EvSsh (poweroff_cmd "7") 60 forced o2 e2]
    ∧ (shutdown_vm blind 180 [] "7" world0).1 = Ok (if forced then [] else [] ++ ["7"]).
Proof.
  exact (unreadable_state_forces_poweroff blind 180 [] "7" world0 eq_refl).
Defined.

(** A name ending in [.zip], on a host where the command succeeds. *)
Lemma install_strategy_by_extension_witness :
  ∃ b o e,
    (install_patch_via_ssh calm patcher_zip "/vmfs/volumes/ds1" world0).1 = Ok b ∧
    interactions (events_since world0
      (install_patch_via_ssh calm patcher_zip "/vmfs/volumes/ds1" world0).2)
    = [EvSsh "esxcli software vib install -d '/vmfs/volumes/ds1/ESXi650-202403001.zip' --no-sig-check"
             1200 b o e].
Proof.
  destruct (install_strategy_by_extension calm patcher_zip "/vmfs/volumes/ds1" world0)
    as (b & Hb & Hzip & _).
  destruct (Hzip eq_refl) as (o & e & Hio).
  exists b, o, e. split; [exact Hb | exact Hio].
Defined.



(** Against C9 as stated: two workloads are started, and the operation
    returns [True], which is not the count 2. *)
Lemma start_vms_result_is_not_the_count :
  (start_vms_counters two_off world0).1 = Ok (Some (2%nat, []))
  ∧ (start_vms_after_reboot two_off world0).1 = Ok true
  ∧ py_int true ≠ 2.
Proof. vm_compute. split_and!; done. Qed.


(** A host outside maintenance mode enters it; the second call finds it
    inside and starts nothing. *)
Lemma maintenance_mode_idempotent_witness :
  (enter_maintenance_mode tracking_host 0
     (enter_maintenance_mode tracking_host 0 world0).2).1
  = (enter_maintenance_mode tracking_host 0 world0).1
  ∧ interactions
      (events_since (enter_maintenance_mode tracking_host 0 world0).2
         (enter_maintenance_mode tracking_host 0
            (enter_maintenance_mode tracking_host 0 world0).2).2)
    = [EvInMaintenanceMode (Done true)].
Proof.
  destruct (maintenance_mode_idempotent tracking_host 0 world0) as (_ & _ & H & _).
  apply H; reflexivity.
Defined.

(** C4, the code at a host with other ports.  The host's remote shell is
    on port 2222 and its management API on port 8443, both unreachable;
    the wait probes ports 22 and 443 only, never sees port 22 down, and
    returns [True]. *)
Theorem reboot_wait_probes_fixed_ports :
  let out := wait_for_host_reboot decoy esx_custom 600 world0 in
  out.1 = Ok true
  ∧ e_probe decoy out.2 (ip esx_custom) (ssh_port esx_custom) = Done 111
  ∧ e_probe decoy out.2 (ip esx_custom) (api_port esx_custom) = Done 111
  ∧ existsb (λ port, (port =? ssh_port esx_custom) || (port =? api_port esx_custom))
            (probed_ports (events_since world0 out.2)) = false
  ∧ forallb (λ port, (port =? 22) || (port =? 443))
            (probed_ports (events_since world0 out.2)) = true.
Proof. vm_compute. split_and!; reflexivity. Qed.

(** C8, the code at two hosts of the same name.  The first host fails,
    the second succeeds under the same name: both workflows are invoked,
    the first returns a failure and the second a success, the report has
    one entry, a success, and the fleet run returns [True]. *)
Theorem duplicate_names_hide_failure :
  let out := run_results first_host_down patcher_twins world0 in
  (process_host first_host_down patcher_twins twin_a world0).1
  = Ok (false, "Ошибка подключения к API")
  ∧ List.filter (λ ev, match ev with
                       | EvCall m_process_host | EvRet m_process_host _ => true
                       | _ => false
                       end) (markers (events_since world0 out.2))
    = [EvCall m_process_host; EvRet m_process_host false;
       EvCall m_process_host; EvRet m_process_host true]
  ∧ (∃ results,
       out.1 = Ok results
       ∧ map_to_list results = [("esx", (true, "Успех"))])
  ∧ (run first_host_down patcher_twins world0).1 = Ok true.
Proof.
  split_and!.
  - vm_compute. reflexivity.
  - vm_compute. reflexivity.
  - eexists. split; [vm_compute; reflexivity|]. vm_compute. reflexivity.
  - vm_compute. reflexivity.
Qed.

(** ** Strings *)

Lemma append_cons c (a b : string) : String c a +:+ b = String c (a +:+ b).
Proof. reflexivity. Qed.

Lemma append_nil_l (s : string) : "" +:+ s = s.
Proof. reflexivity. Qed.

Lemma append_nil_r (s : string) : s +:+ "" = s.
Proof. induction s as [|c s IH]; [done|]. by rewrite append_cons, IH. Qed.

Lemma append_assoc (a b c : string) : (a +:+ b) +:+ c = a +:+ (b +:+ c).
Proof. induction a as [|x a IH]; [done|]. by rewrite !append_cons, IH. Qed.

Lemma rev_app_spec (s acc : string) : String.rev_app s acc = String.rev s +:+ acc.
Proof.
  unfold String.rev. revert acc. induction s as [|c s IH]; intros acc; simpl; [done|].
  rewrite IH, (IH (String c "")), append_assoc. done.
Qed.

Lemma rev_cons c (s : string) : String.rev (String c s) = String.rev s +:+ String c "".
Proof. unfold String.rev at 1. simpl. apply rev_app_spec. Qed.

Lemma rev_append (a b : string) : String.rev (a +:+ b) = String.rev b +:+ String.rev a.
Proof.
  induction a as [|c a IH].
  - by rewrite append_nil_l, append_nil_r.
  - by rewrite append_cons, !rev_cons, IH, append_assoc.
Qed.

Lemma rev_involutive (s : string) : String.rev (String.rev s) = s.
Proof.
  induction s as [|c s IH]; [done|]. by rewrite rev_cons, rev_append, IH.
Qed.

Lemma prefix_refl_append (p rest : string) : String.prefix p (p +:+ rest) = true.
Proof.
  induction p as [|c p IH]; [by destruct rest|].
  rewrite append_cons, prefix_cons.
  destruct (ascii_dec c c); [done | congruence].
Qed.

Lemma prefix_split (p s : string) :
  String.prefix p s = true → ∃ rest, s = p +:+ rest.
Proof.
  revert s. induction p as [|c p IH]; intros s H; [by exists s|].
  destruct s as [|d s]; [done|]. rewrite prefix_cons in H.
  destruct (ascii_dec c d) as [->|]; [|done].
  destruct (IH s H) as [rest ->]. by exists rest.
Qed.

(** What is left of a strip begins with a character that stays. *)
Lemma lstrip_with_head p s :
  match PyStr.lstrip_with p s with
  | EmptyString => True
  | String c _ => p c = false
  end.
Proof.
  induction s as [|c s IH]; simpl; [done|]. by destruct (p c) eqn:E; [|simpl].
Qed.

(** Stripping at the left stops at the latest before a character that stays. *)
Lemma lstrip_with_keeps p (a : string) c (b : string) :
  p c = false →
  ∃ a', PyStr.lstrip_with p (a +:+ String c b) = a' +:+ String c b.
Proof.
  intros Hc. induction a as [|x a IH].
  - rewrite append_nil_l. simpl. rewrite Hc. by exists "".
  - rewrite append_cons. simpl. destruct (p x); [exact IH|]. by exists (String x a).
Qed.

Lemma rstrip_with_keeps p (a : string) c (b : string) :
  p c = false →
  ∃ b', PyStr.rstrip_with p (a +:+ String c b) = a +:+ String c b'.
Proof.
  intros Hc. unfold PyStr.rstrip_with.
  rewrite rev_append, rev_cons, append_assoc, append_cons, append_nil_l.
  destruct (lstrip_with_keeps p (String.rev b) c (String.rev a) Hc) as [b' ->].
  exists (String.rev b').
  rewrite rev_append, rev_cons, rev_involutive, append_assoc.
  by rewrite append_cons, append_nil_l.
Qed.

(** [s.rstrip('/')] does not end with a slash. *)
Lemma rstrip_slash_no_trailing_slash s :
  PyStr.endswith (PyStr.rstrip_slash s) "/" = false.
Proof.
  unfold PyStr.endswith, PyStr.rstrip_slash, PyStr.rstrip_with.
  rewrite rev_involutive.
  pose proof (lstrip_with_head (λ c, Ascii.eqb c "/"%char) (String.rev s)) as H.
  destruct (PyStr.lstrip_with _ _) as [|c t]; [done|].
  change (String.rev "/") with "/"%string. rewrite prefix_cons.
  destruct (ascii_dec "/" c) as [<-|]; [done | done].
Qed.

(** A prefix that ends with a character that is no white space survives
    [strip], when the string begins with a character that is none. *)
Lemma strip_keeps_prefix (c0 : ascii) (p : string) c (s : string) :
  PyStr.is_space c0 = false → PyStr.is_space c = false →
  PyStr.startswith s (String c0 p +:+ String c "") = true →
  PyStr.startswith (PyStr.strip s) (String c0 p +:+ String c "") = true.
Proof.
  intros H0 Hc [rest ->]%prefix_split. unfold PyStr.startswith, PyStr.strip.
  rewrite append_assoc, (append_cons c0). simpl PyStr.lstrip_with. rewrite H0.
  change (String c0 (p +:+ String c "" +:+ rest))
    with (String c0 p +:+ String c rest).
  destruct (rstrip_with_keeps PyStr.is_space (String c0 p) c rest Hc) as [b' ->].
  assert (String c0 p +:+ String c b' = (String c0 p +:+ String c "") +:+ b') as ->
    by (by rewrite append_assoc).
  apply (prefix_refl_append (String c0 p +:+ String c "")).
Qed.

Lemma emits_ret {A} ok (a : A) : emits ok (ret a).
Proof. intros w. exists []. split; [by rewrite app_nil_r | constructor]. Qed.

Lemma emits_raise {A} ok msg : emits ok (@raise A msg).
Proof. intros w. exists []. split; [by rewrite app_nil_r | constructor]. Qed.

Lemma emits_stuck {A} ok : emits ok (λ w, (@Diverge A, w)).
Proof. intros w. exists []. split; [by rewrite app_nil_r | constructor]. Qed.

Lemma emits_time ok : emits ok time_time.
Proof. intros w. exists []. split; [by rewrite app_nil_r | constructor]. Qed.

Lemma emits_bind {A B} ok (m : M A) (k : A → M B) :
  emits ok m → (∀ a, emits ok (k a)) → emits ok (bind m k).
Proof.
  intros Hm Hk w. destruct (Hm w) as (s1 & E1 & F1). unfold bind.
  destruct (m w) as [[a|e|] w1]; simpl in E1; [|by exists s1|by exists s1].
  destruct (Hk a w1) as (s2 & E2 & F2). exists (s1 ++ s2). split.
  - by rewrite E2, E1, app_assoc.
  - by apply Forall_app.
Qed.

Lemma emits_try_except {A} ok (body : M A) (h : string → M A) :
  emits ok body → (∀ e, emits ok (h e)) → emits ok (try_except body h).
Proof.
  intros Hb Hh w. destruct (Hb w) as (s1 & E1 & F1). unfold try_except.
  destruct (body w) as [[a|e|] w1]; simpl in E1; [by exists s1| |by exists s1].
  destruct (Hh e w1) as (s2 & E2 & F2). exists (s1 ++ s2). split.
  - by rewrite E2, E1, app_assoc.
  - by apply Forall_app.
Qed.

Lemma emits_mark ok ev : ok ev → emits ok (mark ev).
Proof. intros H w. exists [(now w, ev)]. split; [done | by repeat constructor]. Qed.

Lemma emits_sleep ok secs : ok (EvSleep secs) → emits ok (sleep secs).
Proof. intros H w. exists [(now w, EvSleep secs)]. split; [done | by repeat constructor]. Qed.

Lemma emits_of_reply {A} ok (r : Reply A) : emits ok (of_reply r).
Proof. destruct r; [apply emits_ret | apply emits_raise]. Qed.

Lemma emits_for_each {A B} ok (body : B → A → M B) xs acc :
  (∀ b a, In a xs → emits ok (body b a)) → emits ok (for_each body xs acc).
Proof.
  revert acc. induction xs as [|x xs IH]; intros acc Hb; simpl.
  - apply emits_ret.
  - apply emits_bind; [apply Hb; by left|]. intros b. apply IH.
    intros b' a Ha. apply Hb. by right.
Qed.

Lemma emits_traced {A} ok m (truthy : A → bool) (body : M A) :
  ok (EvCall m) → (∀ b, ok (EvRet m b)) → emits ok body →
  emits ok (traced m truthy body).
Proof.
  intros Hc Hr Hb. unfold traced.
  apply emits_bind; [by apply emits_mark|]. intros _.
  apply emits_bind; [done|]. intros a.
  apply emits_bind; [by apply emits_mark | intros; apply emits_ret].
Qed.

Lemma emits_weaken {A} (ok ok' : Event → Prop) (f : M A) :
  (∀ ev, ok ev → ok' ev) → emits ok f → emits ok' f.
Proof.
  intros H Hf w. destruct (Hf w) as (seg & E & F). exists seg. split; [done|].
  eapply Forall_impl; [exact F|]. intros te. apply H.
Qed.

(** The events of a finished computation. *)
Lemma emits_since {A} ok (f : M A) w :
  emits ok f → Forall (λ te, ok te.2) (events_since w (f w).2).
Proof.
  intros H. destruct (H w) as (seg & E & F). by rewrite (events_since_app _ _ _ E).
Qed.

Section EmitFacts.

Context (env : Env) (self : Patcher).

Lemma emits_ask {A} ok (q : World → A) (ev : A → Event) :
  (∀ a, ok (ev a)) → emits ok (ask env q ev).
Proof.
  intros H w. exists [(now w, ev (q w))]. split; [done|].
  apply Forall_cons_2; [apply H | constructor].
Qed.

Lemma emits_ssh_execute_with_output ok cmd t :
  (∀ s out err, ok (EvSsh cmd t s out err)) →
  emits ok (ssh_execute_with_output env cmd t).
Proof. intros H. apply emits_ask. by intros [[s out] err]. Qed.

Lemma emits_ssh_execute ok cmd t :
  (∀ s out err, ok (EvSsh cmd t s out err)) → emits ok (ssh_execute env cmd t).
Proof.
  intros H. apply emits_bind; [by apply emits_ssh_execute_with_output|].
  intros [[[] out] err]; apply emits_ret.
Qed.

Lemma emits_probe ok addr port :
  (∀ r, ok (EvProbe addr port r)) → emits ok (probe env addr port).
Proof.
  intros H. apply emits_bind; [by apply emits_ask | apply emits_of_reply].
Qed.

End EmitFacts.

(** Follow the structure of the code; what is left are the conditions on
    the events. *)
Ltac emit_walk :=
  cbv beta zeta;
  lazymatch goal with
  | |- emits _ (ret _) => apply emits_ret
  | |- emits _ (raise _) => apply emits_raise
  | |- emits _ (λ w, (Diverge, w)) => apply emits_stuck
  | |- emits _ time_time => apply emits_time
  | |- emits _ (of_reply _) => apply emits_of_reply
  | |- emits _ (sleep _) => apply emits_sleep
  | |- emits _ (mark _) => apply emits_mark
  | |- emits _ (ask _ _ _) => apply emits_ask; intros
  | |- emits _ (ssh_execute _ _ _) => apply emits_ssh_execute; intros
  | |- emits _ (ssh_execute_with_output _ _ _) =>
      apply emits_ssh_execute_with_output; intros
  | |- emits _ (probe _ _ _) => apply emits_probe; intros
  | |- emits _ (bind _ _) => apply emits_bind; [emit_walk | intros; emit_walk]
  | |- emits _ (try_except _ _) => apply emits_try_except; [emit_walk | intros; emit_walk]
  | |- emits _ (traced _ _ _) => apply emits_traced; [ | intros | emit_walk]
  | |- emits _ (match ?x with _ => _ end) => destruct x; emit_walk
  | |- _ => idtac
  end.

(** Conditions on events of a known shape. *)
Ltac emit_ok :=
  intros;
  repeat match goal with
         | a : (_ * _)%type |- _ => destruct a
         end;
  solve [ assumption | exact I | done | simpl; auto | simpl; eauto ].

Section LoopFacts.

Context (env : Env) (self : Patcher) (ok : Event → Prop).

Lemma emits_wait_for_ssh_loop fuel host start timeout :
  (∀ r, ok (EvProbe (ip host) (ssh_port host) r)) → ok (EvSleep 5) →
  emits ok (wait_for_ssh_loop env fuel host start timeout).
Proof.
  intros Hp Hs. induction fuel as [|fuel IH]; simpl; emit_walk; emit_ok.
Qed.

Lemma emits_wait_graceful fuel vm_id start timeout :
  (∀ s out err, ok (EvSsh (getstate_cmd vm_id) 60 s out err)) → ok (EvSleep 5) →
  emits ok (wait_graceful env fuel vm_id start timeout).
Proof.
  intros Hc Hs. induction fuel as [|fuel IH]; simpl; emit_walk; emit_ok.
Qed.

Lemma emits_wait_for_task timeout :
  (∀ r, ok (EvTaskState r)) → ok (EvSleep 5) →
  emits ok (_wait_for_task env timeout).
Proof.
  intros Ht Hs. unfold _wait_for_task, task_state.
  apply emits_bind; [apply emits_time|]. intros start.
  apply emits_bind; [|intros; emit_walk; emit_ok].
  generalize (Z.to_nat timeout + 2)%nat. intros fuel.
  induction fuel as [|fuel IH]; simpl; unfold task_state; emit_walk; emit_ok.
Qed.

Lemma emits_wait_down attempts host :
  (∀ r, ok (EvProbe (ip host) 22 r)) → ok (EvSleep 5) →
  emits ok (wait_down env attempts host).
Proof.
  intros Hp Hs. induction attempts as [|n IH]; simpl; emit_walk; emit_ok.
Qed.

Lemma emits_wait_up fuel host start max_wait :
  (∀ r, ok (EvProbe (ip host) 22 r)) → (∀ r, ok (EvProbe (ip host) 443 r)) →
  ok (EvSleep 5) → ok (EvSleep 15) → ok (EvSleep 25) →
  emits ok (wait_up env fuel host start max_wait).
Proof.
  intros Hp Hq H5 H15 H25.
  induction fuel as [|fuel IH]; simpl; emit_walk; emit_ok.
Qed.

End LoopFacts.

Create HintDb methods discriminated.

#[global] Hint Unfold _connect_api _get_host_system is_host_in_cluster
  enable_services_via_api disable_services_via_api wait_for_ssh ssh_connect
  find_boot_datastore exists_patch_file copy_patch_via_scp sftp_stat sftp_close
  task_state in_maintenance_mode enter_maintenance_mode exit_maintenance_mode
  shutdown_vm check_and_shutdown_vms start_vm start_vms_counters
  start_vms_after_reboot install_patch_via_ssh verify_patch_installation
  cleanup_patch_file reboot_host wait_for_host_reboot test_connection
  ssh_close disconnect teardown leave guarded quiesce restore
  install_and_reboot patch_and_reboot process_host : methods.

(** The same through the methods and their loops. *)
Ltac emit_through :=
  cbv beta zeta;
  lazymatch goal with
  | |- emits _ (ret _) => apply emits_ret
  | |- emits _ (raise _) => apply emits_raise
  | |- emits _ (λ w, (Diverge, w)) => apply emits_stuck
  | |- emits _ time_time => apply emits_time
  | |- emits _ (of_reply _) => apply emits_of_reply
  | |- emits _ (sleep _) => apply emits_sleep
  | |- emits _ (mark _) => apply emits_mark
  | |- emits _ (ask _ _ _) => apply emits_ask; intros
  | |- emits _ (ssh_execute _ _ _) => apply emits_ssh_execute; intros
  | |- emits _ (ssh_execute_with_output _ _ _) =>
      apply emits_ssh_execute_with_output; intros
  | |- emits _ (probe _ _ _) => apply emits_probe; intros
  | |- emits _ (bind _ _) => apply emits_bind; [emit_through | intros; emit_through]
  | |- emits _ (try_except _ _) =>
      apply emits_try_except; [emit_through | intros; emit_through]
  | |- emits _ (traced _ _ _) => apply emits_traced; [ | intros | emit_through]
  | |- emits _ (for_each _ _ _) => apply emits_for_each; intros; emit_through
  | |- emits _ (wait_for_ssh_loop _ _ _ _ _) => apply emits_wait_for_ssh_loop
  | |- emits _ (wait_graceful _ _ _ _ _) => apply emits_wait_graceful
  | |- emits _ (_wait_for_task _ _) => apply emits_wait_for_task
  | |- emits _ (wait_down _ _ _) => apply emits_wait_down
  | |- emits _ (wait_up _ _ _ _ _) => apply emits_wait_up
  | |- emits _ (match ?x with _ => _ end) => destruct x; emit_through
  | |- emits _ _ => first [progress autounfold with methods; emit_through | idtac]
  | |- _ => idtac
  end.

Section WholeRun.

Context (env : Env) (self : Patcher).

Lemma emits_reconnect_api ok remaining host :
  ok (EvCall m_connect_api) → (∀ b, ok (EvRet m_connect_api b)) →
  (∀ r, ok (EvSmartConnect (ip host) (api_port host) r)) → ok (EvSleep 30) →
  emits ok (reconnect_api env remaining host).
Proof.
  intros Hc Hr Hs H30.
  induction remaining as [|n IH]; simpl; emit_through; emit_ok.
Qed.

Lemma emits_process_host host :
  emits (contacts_only host) (process_host env self host).
Proof.
  unfold process_host. emit_through; try emit_ok.
  all: try (apply emits_reconnect_api; emit_ok).
Qed.

(** X8.  A host run contacts the configured host only: it opens the
    management API at [host.api_port] and the remote shell at
    [host.ssh_port] of [host.ip], and its reachability probes go to
    [host.ip], to [host.ssh_port] or to the literal ports 22 and 443. *)
Theorem host_run_contacts_only_its_host host w :
  let out := process_host env self host w in
  Forall (λ te, contacts_only host te.2) (events_since w out.2).
Proof. apply emits_since, emits_process_host. Qed.

End WholeRun.

Lemma interactions_elem ev tr :
  ev ∈ interactions tr ↔ is_marker ev = false ∧ ∃ t, (t, ev) ∈ tr.
Proof.
  unfold interactions. rewrite list_elem_of_In, List.filter_In, in_map_iff. split.
  - intros [([t ev'] & Heq & Hin) Hm]. simpl in Heq. subst ev'.
    split; [by destruct (is_marker ev)|]. exists t. by apply list_elem_of_In.
  - intros [Hm [t Hin]]. split; [|by rewrite Hm].
    exists (t, ev). split; [done | by apply list_elem_of_In].
Qed.

Section WaitForSsh.

Context (env : Env) (self : Patcher).

Lemma wait_for_ssh_loop_spec fuel host start timeout w :
  start + timeout - now w ≤ Z.of_nat fuel →
  ∃ b w' seg,
    wait_for_ssh_loop env fuel host start timeout w = (Ok b, w')
    ∧ trace w' = trace w ++ seg
    ∧ now w ≤ now w'
    ∧ Forall (λ te, ssh_wait_step host te.2) seg
    ∧ (b = true → ∃ t, (t, EvProbe (ip host) (ssh_port host) (Done 0)) ∈ seg)
    ∧ (b = false →
         start + timeout ≤ now w'
         ∧ ∀ t, (t, EvProbe (ip host) (ssh_port host) (Done 0)) ∉ seg)
    ∧ (start + timeout ≤ now w → b = false ∧ seg = []).
Proof.
  revert w. induction fuel as [|fuel IH]; intros w Hfuel.
  - exists false, w, []. simpl. unfold bind, time_time.
    rewrite bool_decide_eq_false_2 by lia.
    split_and!; [done | by rewrite app_nil_r | lia | constructor | done | | done].
    intros _. split; [lia|]. intros t Hin. by apply elem_of_nil in Hin.
  - simpl. unfold bind at 1, time_time. case_bool_decide as Hlt.
    2: { exists false, w, [].
         split_and!; [done | by rewrite app_nil_r | lia | constructor | done | | done].
         intros _. split; [lia|]. intros t Hin. by apply elem_of_nil in Hin. }
    unfold bind at 1, try_except. unfold bind at 1. rewrite probe_eq.
    pose proof (now_after_probe env w (ip host) (ssh_port host)) as Hn1.
    set (r1 := e_probe env w (ip host) (ssh_port host)) in *.
    set (w1 := after_probe env w (ip host) (ssh_port host)) in *.
    assert (trace w1 = trace w ++ [(now w, EvProbe (ip host) (ssh_port host) r1)])
      as Ht1 by reflexivity.
    assert (r1 ≠ Done 0 →
            ∃ b w' seg,
              (_ <- sleep 5 ;; wait_for_ssh_loop env fuel host start timeout) w1 = (Ok b, w')
              ∧ trace w' = trace w ++ seg
              ∧ now w ≤ now w'
              ∧ Forall (λ te, ssh_wait_step host te.2) seg
              ∧ (b = true → ∃ t, (t, EvProbe (ip host) (ssh_port host) (Done 0)) ∈ seg)
              ∧ (b = false →
                   start + timeout ≤ now w'
                   ∧ ∀ t, (t, EvProbe (ip host) (ssh_port host) (Done 0)) ∉ seg)
              ∧ (start + timeout ≤ now w → b = false ∧ seg = [])) as Hretry.
    { intros Hr1. unfold bind at 1. rewrite sleep_eq.
      destruct (IH (extend w1 5 (EvSleep 5)))
        as (b & w' & seg & E & Ht & Hn & Hf & Hb & Hnb & _).
      { rewrite now_extend. lia. }
      rewrite now_extend in Hn.
      exists b, w', ([(now w, EvProbe (ip host) (ssh_port host) r1)]
                     ++ [(now w1, EvSleep 5)] ++ seg).
      split_and!; [done | | lia | | | | lia].
      - rewrite Ht, trace_extend, Ht1, <- !app_assoc. reflexivity.
      - apply Forall_app. split; [|apply Forall_app; split; [|done]].
        + apply Forall_cons_2; [right; by exists r1 | constructor].
        + apply Forall_cons_2; [by left | constructor].
      - intros Hb'. destruct (Hb Hb') as [t Hin]. exists t.
        apply elem_of_app. right. apply elem_of_app. by right.
      - intros Hb'. destruct (Hnb Hb') as [Hlate Hnone]. split; [done|].
        intros t [Hin | [Hin | Hin]%elem_of_app]%elem_of_app.
        + apply list_elem_of_singleton in Hin. by simplify_eq.
        + apply list_elem_of_singleton in Hin. by simplify_eq.
        + by eapply Hnone. }
    destruct r1 as [z|e] eqn:Hr1; unfold ret; reduce.
    2: { by apply Hretry. }
    case_bool_decide as Hz; reduce.
    2: { apply Hretry. by intros [= ->]. }
    subst z. exists true, w1, [(now w, EvProbe (ip host) (ssh_port host) (Done 0))].
    split_and!; [done | done | lia | | | done | lia].
    + apply Forall_cons_2; [right; by eexists | constructor].
    + intros _. exists (now w). apply list_elem_of_here.
Qed.

(** X9.  [wait_for_ssh] returns for every host and timeout.  It does
    nothing but try the port of the remote shell that is configured for
    the host, with five-second sleeps in between.  It returns [True]
    exactly when an attempt succeeded, and [False] only once [timeout]
    seconds have passed; with a timeout that is not positive it returns
    [False] without an attempt. *)
Theorem wait_for_ssh_tries_configured_port host timeout w :
  let out := wait_for_ssh env host timeout w in
  let io := interactions (events_since w out.2) in
  ∃ b, out.1 = Ok b
    ∧ Forall (ssh_wait_step host) io
    ∧ (b = true ↔ EvProbe (ip host) (ssh_port host) (Done 0) ∈ io)
    ∧ (b = false → now w + timeout ≤ now out.2)
    ∧ (timeout ≤ 0 → b = false ∧ io = []).
Proof.
  cbv zeta. destruct (wait_for_ssh env host timeout w) as [res wf] eqn:E.
  unfold wait_for_ssh, traced, mark in E. unfold bind at 1 in E. reduce_in E.
  unfold bind at 1 in E. unfold bind at 1, time_time in E. reduce_in E.
  set (w0 := extend w 0 (EvCall m_wait_for_ssh)) in *.
  destruct (wait_for_ssh_loop_spec (Z.to_nat timeout) host (now w0) timeout w0)
    as (b & w1 & seg & E1 & Ht1 & Hn1 & Hf & Hb & Hnb & Hzero); [lia|].
  rewrite E1 in E. unfold bind, ret in E. reduce_in E. injection E as <- <-.
  exists b. cbn [fst snd]. split; [done|].
  rewrite (events_since_app w _ ([(now w, EvCall m_wait_for_ssh)] ++ seg
                                  ++ [(now w1, EvRet m_wait_for_ssh b)])).
  2: { rewrite trace_extend, Ht1. unfold w0 at 1.
       rewrite trace_extend, <- !app_assoc. reflexivity. }
  assert (interactions ([(now w, EvCall m_wait_for_ssh)] ++ seg
                        ++ [(now w1, EvRet m_wait_for_ssh b)])
          = interactions seg) as ->.
  { rewrite !interactions_app. unfold interactions at 1 3. simpl.
    by rewrite app_nil_r. }
  assert (now w0 = now w) as Hw0 by (simpl; lia).
  split_and!.
  - apply Forall_forall. intros ev [_ [t Hin]]%interactions_elem.
    rewrite Forall_forall in Hf. apply (Hf _ Hin).
  - split.
    + intros Hb'. destruct (Hb Hb') as [t Hin].
      apply interactions_elem. split; [done | by exists t].
    + intros [_ [t Hin]]%interactions_elem. destruct b; [done|].
      destruct (Hnb eq_refl) as [_ Hnone]. by destruct (Hnone t).
  - intros Hb'. destruct (Hnb Hb') as [Hlate _]. simpl. lia.
  - intros Hneg. destruct Hzero as [-> ->]; [lia|]. done.
Qed.

End WaitForSsh.

Section WaitForTask.

Context (env : Env) (self : Patcher).

(** The world after a read of the state of the task. *)
Definition after_task_state (w : World) : World :=
  extend w (Z.of_nat (e_elapsed env w (EvTaskState (e_task_state env w))))
         (EvTaskState (e_task_state env w)).

Lemma task_state_eq w :
  task_state env w
  = (match e_task_state env w with Done st => Ok st | Fault e => Raise e end,
     after_task_state w).
Proof.
  unfold task_state, bind, after_task_state. rewrite ask_eq.
  by destruct (e_task_state env w).
Qed.

Lemma now_after_task_state w : now w ≤ now (after_task_state w).
Proof. unfold after_task_state. rewrite now_extend. lia. Qed.

Lemma sleep_count_app a b : sleep_count (a ++ b) = (sleep_count a + sleep_count b)%nat.
Proof. unfold sleep_count. by rewrite List.filter_app, length_app. Qed.

Lemma sleep_count_task_state t r : sleep_count [(t, EvTaskState r)] = 0%nat.
Proof. reflexivity. Qed.

Lemma wait_for_task_loop_spec fuel start timeout w :
  start + timeout - now w + 1 ≤ Z.of_nat fuel →
  ∃ res w' seg,
    _wait_for_task_loop env fuel start timeout w = (res, w')
    ∧ res ≠ Diverge
    ∧ trace w' = trace w ++ seg
    ∧ Forall (λ te, task_wait_step te.2) seg
    ∧ (res = Ok tt →
         ∃ t st, last seg = Some (t, EvTaskState (Done st)) ∧ task_finished st = true)
    ∧ 5 * Z.of_nat (sleep_count seg) ≤ Z.max 0 (start + timeout + 5 - now w).
Proof.
  revert w. induction fuel as [|fuel IH]; intros w Hfuel.
  - simpl. unfold bind at 1. rewrite task_state_eq.
    pose proof (now_after_task_state w) as Hn1.
    set (w1 := after_task_state w) in *.
    assert (Forall (λ te, task_wait_step te.2) [(now w, EvTaskState (e_task_state env w))])
      as Hstep.
    { apply Forall_cons_2; [right; by eexists | constructor]. }
    destruct (e_task_state env w) as [st|e] eqn:Hst.
    2: { exists (Raise e), w1, [(now w, EvTaskState (Fault e))].
         split_and!; [done | done | by unfold w1, after_task_state; rewrite Hst
                     | done | done | rewrite sleep_count_task_state; lia]. }
    destruct (task_finished st) eqn:Hfin.
    + exists (Ok tt), w1, [(now w, EvTaskState (Done st))].
      split_and!; [done | done | by unfold w1, after_task_state; rewrite Hst
                  | done | | rewrite sleep_count_task_state; lia].
      intros _. by exists (now w), st.
    + unfold bind, time_time. rewrite bool_decide_eq_true_2 by lia.
      exists (Raise "Таймаут ожидания задачи"), w1, [(now w, EvTaskState (Done st))].
      split_and!; [done | done | by unfold w1, after_task_state; rewrite Hst
                  | done | done | rewrite sleep_count_task_state; lia].
  - simpl. unfold bind at 1. rewrite task_state_eq.
    pose proof (now_after_task_state w) as Hn1.
    set (w1 := after_task_state w) in *.
    assert (Forall (λ te, task_wait_step te.2) [(now w, EvTaskState (e_task_state env w))])
      as Hstep.
    { apply Forall_cons_2; [right; by eexists | constructor]. }
    assert (trace w1 = trace w ++ [(now w, EvTaskState (e_task_state env w))])
      as Ht1 by reflexivity.
    destruct (e_task_state env w) as [st|e] eqn:Hst.
    2: { exists (Raise e), w1, [(now w, EvTaskState (Fault e))].
         split_and!; [done | done | done | done | done | rewrite sleep_count_task_state; lia]. }
    destruct (task_finished st) eqn:Hfin.
    + exists (Ok tt), w1, [(now w, EvTaskState (Done st))].
      split_and!; [done | done | done | done | | rewrite sleep_count_task_state; lia].
      intros _. by exists (now w), st.
    + unfold bind at 1, time_time. case_bool_decide as Hlate.
      * exists (Raise "Таймаут ожидания задачи"), w1, [(now w, EvTaskState (Done st))].
        split_and!; [done | done | done | done | done | rewrite sleep_count_task_state; lia].
      * unfold bind at 1. rewrite sleep_eq.
        destruct (IH (extend w1 5 (EvSleep 5)))
          as (res & w' & seg & E & Hd & Ht & Hf & Hlast & Hcount).
        { rewrite now_extend. lia. }
        rewrite now_extend in Hcount.
        exists res, w', ([(now w, EvTaskState (Done st))] ++ [(now w1, EvSleep 5)] ++ seg).
        split_and!; [done | done | | | |].
        -- rewrite Ht, trace_extend, Ht1, <- !app_assoc. reflexivity.
        -- apply Forall_app. split; [done|]. apply Forall_app. split; [|done].
           apply Forall_cons_2; [by left | constructor].
        -- intros Hres. destruct (Hlast Hres) as (t & st' & Hl & Hfin').
           exists t, st'. split; [|done].
           rewrite app_assoc, last_app, Hl. done.
        -- rewrite !sleep_count_app.
           change (sleep_count [(now w, EvTaskState (Done st))]) with 0%nat.
           change (sleep_count [(now w1, EvSleep 5)]) with 1%nat. lia.
Qed.

(** X10.  [_wait_for_task] ends for every timeout: it returns or raises.
    It only reads the state of the task and sleeps five seconds between
    two reads; it sleeps at most [timeout / 5 + 1] times.  It returns
    only when a read has found the task finished and the read that
    follows does not find it in error. *)
Theorem wait_for_task_ends_and_is_bounded timeout w :
  let out := _wait_for_task env timeout w in
  let tr := events_since w out.2 in
  out.1 ≠ Diverge
  ∧ Forall (λ te, task_wait_step te.2) tr
  ∧ 5 * Z.of_nat (sleep_count tr) ≤ Z.max 0 (timeout + 5)
  ∧ (out.1 = Ok tt →
       ∃ pre t1 st t2 st',
         tr = pre ++ [(t1, EvTaskState (Done st)); (t2, EvTaskState (Done st'))]
         ∧ task_finished st = true ∧ st' ≠ TaskError).
Proof.
  cbv zeta. destruct (_wait_for_task env timeout w) as [res wf] eqn:E.
  unfold _wait_for_task in E. unfold bind at 1, time_time in E.
  destruct (wait_for_task_loop_spec (Z.to_nat timeout + 2) (now w) timeout w)
    as (r1 & w1 & seg & E1 & Hd1 & Ht1 & Hf1 & Hlast & Hcount); [lia|].
  unfold bind at 1 in E. rewrite E1 in E.
  replace (now w + timeout + 5 - now w) with (timeout + 5) in Hcount by lia.
  destruct r1 as [[]|e|]; [| |done].
  2: { injection E as <- <-. cbn [fst snd]. rewrite (events_since_app _ _ _ Ht1).
       split_and!; done. }
  unfold bind at 1 in E. rewrite task_state_eq in E.
  set (r2 := e_task_state env w1) in *.
  assert (events_since w (after_task_state w1) = seg ++ [(now w1, EvTaskState r2)]) as Hev.
  { apply events_since_app. unfold after_task_state. rewrite trace_extend, Ht1.
    by rewrite <- app_assoc. }
  assert (Forall (λ te, task_wait_step te.2) (seg ++ [(now w1, EvTaskState r2)])) as Hf2.
  { apply Forall_app. split; [done|].
    apply Forall_cons_2; [right; by eexists | constructor]. }
  assert (5 * Z.of_nat (sleep_count (seg ++ [(now w1, EvTaskState r2)]))
          ≤ Z.max 0 (timeout + 5)) as Hc2.
  { rewrite sleep_count_app. change (sleep_count [_]) with 0%nat. lia. }
  destruct (Hlast eq_refl) as (t1 & st & Hl & Hfin).
  apply last_Some in Hl as [pre ->].
  destruct r2 as [st'|e] eqn:Hr2.
  2: { injection E as <- <-. cbn [fst snd]. rewrite Hev. split_and!; done. }
  destruct st'; injection E as <- <-; cbn [fst snd]; rewrite Hev;
    (split_and!; [done | done | done |]); try done;
    intros _; eexists pre, t1, st, (now w1), _;
    (split_and!; [by rewrite <- app_assoc | done | done]).
Qed.

End WaitForTask.

Section Datastore.

Context (env : Env) (self : Patcher).

Lemma startswith_nonempty o : PyStr.startswith o "/vmfs/volumes/" = true → PyStr.is_empty o = false.
Proof. by destruct o. Qed.

Lemma datastore_fallback_runs w1 :
  ∃ s2 o2 e2,
    e_ssh env w1 datastore_fallback_cmd 60 = (s2, o2, e2)
    ∧ (r <- ssh_execute env datastore_fallback_cmd 60 ;;
       let '(success, output) := r in
       if success && negb (PyStr.is_empty output)
       then ret (Some (PyStr.rstrip_slash (PyStr.strip output)))
       else ret None) w1
      = (Ok (if s2 && negb (PyStr.is_empty o2)
             then Some (PyStr.rstrip_slash (PyStr.strip o2)) else None),
         after_ssh env w1 datastore_fallback_cmd 60).
Proof.
  unfold bind. rewrite ssh_execute_eq.
  destruct (e_ssh env w1 datastore_fallback_cmd 60) as [[s2 o2] e2].
  exists s2, o2, e2. split; [done|]. unfold ssh_answer.
  destruct s2; reduce; [|done]. by destruct (PyStr.is_empty o2).
Qed.

(** X11.  [find_boot_datastore] asks [esxcli] first.  When that command
    succeeds with an output that begins with [/vmfs/volumes/], the output
    is returned, stripped, still with that prefix, and nothing else is
    asked.  Otherwise the directory listing is asked as well and its
    output is returned without trailing slashes; the result is [None]
    exactly when that second command fails or prints nothing. *)
Theorem find_boot_datastore_answers w :
  let out := find_boot_datastore env w in
  let io := interactions (events_since w out.2) in
  ∃ ds s1 o1 e1,
    out.1 = Ok ds
    ∧ head io = Some (EvSsh datastore_cmd 60 s1 o1 e1)
    ∧ (s1 && PyStr.startswith o1 "/vmfs/volumes/" = true →
         io = [EvSsh datastore_cmd 60 s1 o1 e1]
         ∧ ds = Some (PyStr.strip o1)
         ∧ PyStr.startswith (PyStr.strip o1) "/vmfs/volumes/" = true)
    ∧ (s1 && PyStr.startswith o1 "/vmfs/volumes/" = false →
         ∃ s2 o2 e2,
           io = [EvSsh datastore_cmd 60 s1 o1 e1;
                 EvSsh datastore_fallback_cmd 60 s2 o2 e2]
           ∧ (ds = None ↔ s2 = false ∨ o2 = "")
           ∧ ∀ d, ds = Some d →
                  d = PyStr.rstrip_slash (PyStr.strip o2)
                  ∧ PyStr.endswith d "/" = false).
Proof.
  cbv zeta. destruct (find_boot_datastore env w) as [res wf] eqn:E.
  unfold find_boot_datastore, traced, mark in E. unfold bind at 1 in E. reduce_in E.
  unfold bind at 1 in E. unfold bind at 1 in E. rewrite ssh_execute_eq in E.
  fold datastore_cmd datastore_fallback_cmd in E.
  set (w0 := extend w 0 (EvCall m_find_boot_datastore)) in *.
  set (w1 := after_ssh env w0 datastore_cmd 60) in *.
  assert (trace w1 = trace w ++ [(now w, EvCall m_find_boot_datastore);
                                 (now w0, ssh_event datastore_cmd 60
                                            (e_ssh env w0 datastore_cmd 60))]) as Ht1.
  { unfold w1. rewrite trace_after_ssh. unfold w0 at 1.
    by rewrite trace_extend, <- app_assoc. }
  destruct (datastore_fallback_runs w1) as (s2 & o2 & e2 & Hr2 & Hfb).
  set (w2 := after_ssh env w1 datastore_fallback_cmd 60) in *.
  assert (trace w2 = trace w1 ++ [(now w1, EvSsh datastore_fallback_cmd 60 s2 o2 e2)])
    as Ht2.
  { unfold w2. rewrite trace_after_ssh. by rewrite Hr2. }
  destruct (e_ssh env w0 datastore_cmd 60) as [[s1 o1] e1].
  unfold ssh_answer, ssh_event in *. reduce_in E.
  assert (s1 && PyStr.startswith o1 "/vmfs/volumes/" = false →
          res = Ok (if s2 && negb (PyStr.is_empty o2)
                    then Some (PyStr.rstrip_slash (PyStr.strip o2)) else None)
          ∧ interactions (events_since w wf)
            = [EvSsh datastore_cmd 60 s1 o1 e1;
               EvSsh datastore_fallback_cmd 60 s2 o2 e2]) as Hsecond.
  { intros Hno. destruct s1; reduce_in E.
    - simpl in Hno. rewrite Hno, andb_false_r in E. reduce_in E.
      rewrite Hfb in E. unfold bind, ret in E. reduce_in E. injection E as <- <-.
      split; [done|]. unfold events_since, interactions.
      rewrite trace_extend, Ht2, Ht1, <- !app_assoc, drop_app_length. done.
    - rewrite Hfb in E. unfold bind, ret in E. reduce_in E. injection E as <- <-.
      split; [done|]. unfold events_since, interactions.
      rewrite trace_extend, Ht2, Ht1, <- !app_assoc, drop_app_length. done. }
  destruct (s1 && PyStr.startswith o1 "/vmfs/volumes/") eqn:Hfirst.
  - apply andb_true_iff in Hfirst as [-> Hpre]. reduce_in E.
    rewrite Hpre, (startswith_nonempty _ Hpre) in E. reduce_in E.
    unfold bind, ret in E. reduce_in E. injection E as <- <-. cbn [fst snd].
    exists (Some (PyStr.strip o1)), true, o1, e1.
    unfold events_since, interactions.
    rewrite trace_extend, Ht1, <- !app_assoc, drop_app_length. cbn.
    split_and!; [done | done | | intros; congruence].
    intros _. split_and!; [done | done |].
    by apply (strip_keeps_prefix "/" "vmfs/volumes" "/").
  - destruct (Hsecond eq_refl) as [-> Hio]. cbn [fst snd]. rewrite Hio.
    eexists _, s1, o1, e1. rewrite Hfirst. split_and!; [done | done | done |].
    intros _. exists s2, o2, e2. split_and!; [done | |].
    + destruct s2, o2; simpl; split; intros H; try done;
        first [by left | by right | by destruct H].
    + intros d Hd. destruct (s2 && negb (PyStr.is_empty o2)); [|done].
      injection Hd as <-. split; [done | apply rstrip_slash_no_trailing_slash].
Qed.

End Datastore.

Lemma digits_prefix_spec k s d :
  PyStr.digits_prefix k s = Some d ↔
  ∃ rest, s = d +:+ rest ∧ String.length d = k ∧ all_digits d = true.
Proof.
  revert s d. induction k as [|k IH]; intros s d; simpl.
  - split.
    + intros [= <-]. by exists s.
    + intros (rest & -> & Hl & _). by destruct d.
  - destruct s as [|c s].
    { split; [done|]. intros (rest & Hs & Hl & _). destruct d; [done|].
      by rewrite append_cons in Hs. }
    destruct (PyStr.is_digit c) eqn:Hc.
    + destruct (PyStr.digits_prefix k s) as [d'|] eqn:Hd.
      * apply IH in Hd as (rest & -> & Hl & Hall). split.
        -- intros [= <-]. exists rest. simpl. rewrite Hc, Hall, Hl. done.
        -- intros (rest' & Hs & Hl' & Hall').
           destruct d as [|c' d]; [done|]. rewrite append_cons in Hs.
           injection Hs as <- Hs. simpl in Hl', Hall'.
           apply andb_true_iff in Hall' as [_ Hall'].
           assert (PyStr.digits_prefix k (d' +:+ rest) = Some d) as Hd2.
           { apply IH. exists rest'. split_and!; [done | lia | done]. }
           assert (PyStr.digits_prefix k (d' +:+ rest) = Some d') as Hd1.
           { apply IH. by exists rest. }
           congruence.
      * split; [done|]. intros (rest' & Hs & Hl' & Hall').
        destruct d as [|c' d]; [done|]. rewrite append_cons in Hs.
        injection Hs as <- Hs. simpl in Hl', Hall'.
        apply andb_true_iff in Hall' as [_ Hall'].
        assert (PyStr.digits_prefix k s = Some d) as Hd2.
        { apply IH. exists rest'. split_and!; [done | lia | done]. }
        congruence.
    + split; [done|]. intros (rest' & Hs & Hl' & Hall').
      destruct d as [|c' d]; [done|]. rewrite append_cons in Hs.
      injection Hs as <- Hs. simpl in Hall'. by rewrite Hc in Hall'.
Qed.

Lemma digit_run_at_0 s d :
  digit_run_at s 0 d ↔ PyStr.digits_prefix 8 s = Some d.
Proof.
  rewrite digits_prefix_spec. split.
  - intros (pre & post & -> & Hl & Hd & Hall). destruct pre; [|done].
    by exists post.
  - intros (rest & -> & Hl & Hall). by exists "", rest.
Qed.

Lemma digit_run_at_S c s i d :
  digit_run_at (String c s) (S i) d ↔ digit_run_at s i d.
Proof.
  split.
  - intros (pre & post & Hs & Hl & Hd & Hall). destruct pre as [|c' pre]; [done|].
    rewrite append_cons in Hs. injection Hs as <- ->. exists pre, post.
    split_and!; [done | by injection Hl | done | done].
  - intros (pre & post & -> & Hl & Hd & Hall). exists (String c pre), post.
    split_and!; [done | by simpl; rewrite Hl | done | done].
Qed.

Lemma search_8_digits_spec s :
  match PyStr.search_8_digits s with
  | Some d => ∃ i, digit_run_at s i d
                   ∧ ∀ j d', digit_run_at s j d' → (i ≤ j)%nat
  | None => ∀ j d', ¬ digit_run_at s j d'
  end.
Proof.
  induction s as [|c s IH].
  - simpl. intros j d' (pre & post & Hs & _ & Hl & _).
    destruct pre; [|done]. destruct d'; done.
  - unfold PyStr.search_8_digits. fold PyStr.search_8_digits.
    destruct (PyStr.digits_prefix 8 (String c s)) as [d|] eqn:Hd.
    + exists 0%nat. split; [by apply digit_run_at_0 | intros; lia].
    + destruct (PyStr.search_8_digits s) as [d|].
      * destruct IH as (i & Hrun & Hleast). exists (S i). split.
        -- by apply digit_run_at_S.
        -- intros [|j] d' Hj.
           ++ apply digit_run_at_0 in Hj. congruence.
           ++ apply digit_run_at_S in Hj. apply Hleast in Hj. lia.
      * intros [|j] d' Hj.
        -- apply digit_run_at_0 in Hj. congruence.
        -- apply digit_run_at_S in Hj. by apply IH in Hj.
Qed.

(** X12.  The search for [\d{8}] finds the leftmost run of eight decimal
    digits, and fails exactly when the string holds none. *)
Theorem search_8_digits_finds_leftmost_run s :
  match PyStr.search_8_digits s with
  | Some d => ∃ i, digit_run_at s i d
                   ∧ ∀ j d', digit_run_at s j d' → (i ≤ j)%nat
  | None => ∀ j d', ¬ digit_run_at s j d'
  end.
Proof. apply search_8_digits_spec. Qed.

Section Verify.

Context (env : Env) (self : Patcher).

Lemma search_8_digits_nonempty s d :
  PyStr.search_8_digits s = Some d → PyStr.is_empty d = false.
Proof.
  intros H. pose proof (search_8_digits_spec s) as Hs.
  rewrite H in Hs. destruct Hs as (i & (pre & post & _ & _ & Hl & _) & _).
  by destruct d.
Qed.

(** X13.  For a patch whose name is made of ASCII characters: with no
    pattern given, [verify_patch_installation] looks in the list of
    installed packages for the first run of eight digits of the name of
    the patch: it returns [True] exactly when that command succeeds with
    some output, and otherwise sends two more commands whose results it
    ignores.  When the name of the patch is missing or holds no such
    run, the check is [uname -a] alone and the result is the success of
    that command. *)
Theorem verify_checks_for_date_of_patch w :
  ascii_only (fmt (patch_name self)) = true →
  let out := verify_patch_installation env self None w in
  let io := interactions (events_since w out.2) in
  let found := if nonempty (patch_name self)
               then PyStr.search_8_digits (fmt (patch_name self)) else None in
  ∃ b s o e, out.1 = Ok b ∧
    match found with
    | Some d =>
        head io = Some (EvSsh ("esxcli software vib list | grep -i " +:+ d) 60 s o e)
        ∧ b = s && negb (PyStr.is_empty o)
        ∧ (b = true → length io = 1%nat)
        ∧ (b = false →
             ∃ s2 o2 e2 s3 o3 e3,
               tail io = [EvSsh "esxcli software vib list | tail -20" 60 s2 o2 e2;
                          EvSsh "vmware -v" 60 s3 o3 e3])
    | None => io = [EvSsh "uname -a" 60 s o e] ∧ b = s
    end.
Proof.
  intros _. cbv zeta.
  destruct (verify_patch_installation env self None w) as [res wf] eqn:E.
  unfold verify_patch_installation, traced, mark in E.
  unfold bind at 1 in E. reduce_in E. unfold bind at 1 in E.
  set (w0 := extend w 0 (EvCall m_verify_patch_installation)) in *.
  assert (trace w0 = trace w ++ [(now w, EvCall m_verify_patch_installation)])
    as Ht0 by reflexivity.
  change (nonempty None) with false in E. cbn [negb andb] in E.
  set (found := if nonempty (patch_name self)
                then PyStr.search_8_digits (fmt (patch_name self)) else None).
  assert ((if nonempty (patch_name self)
           then match PyStr.search_8_digits (fmt (patch_name self)) with
                | Some d => Some d
                | None => None
                end
           else None) = found) as Hfound.
  { unfold found. destruct (nonempty (patch_name self)); [|done].
    by destruct (PyStr.search_8_digits _). }
  rewrite Hfound in E.
  assert (nonempty found = is_some found) as Hne.
  { unfold found. destruct (nonempty (patch_name self)); [|done].
    destruct (PyStr.search_8_digits _) as [d|] eqn:Hd; [|done].
    simpl. by rewrite (search_8_digits_nonempty _ _ Hd). }
  rewrite Hne in E. destruct found as [d|]; cbn [is_some negb fmt] in E.
  - unfold bind at 1 in E. rewrite ssh_execute_eq in E.
    set (cmd := "esxcli software vib list | grep -i " +:+ d) in *.
    set (w1 := after_ssh env w0 cmd 60) in *.
    assert (trace w1 = trace w0 ++ [(now w0, ssh_event cmd 60 (e_ssh env w0 cmd 60))])
      as Ht1 by reflexivity.
    destruct (e_ssh env w0 cmd 60) as [[s o] e].
    unfold ssh_answer, ssh_event in *. reduce_in E.
    destruct s; reduce_in E; [destruct (PyStr.is_empty o) eqn:Ho; reduce_in E|].
    2: { unfold bind, ret in E. reduce_in E. injection E as <- <-.
         exists true, true, o, e. cbn [fst snd]. rewrite Ho.
         unfold events_since, interactions.
         rewrite trace_extend, Ht1, Ht0, <- !app_assoc, drop_app_length. cbn.
         split_and!; done. }
    all: unfold bind at 1 in E; rewrite ssh_execute_eq in E;
      unfold bind at 1 in E; rewrite ssh_execute_eq in E;
      set (c2 := "esxcli software vib list | tail -20") in *;
      set (c3 := "vmware -v") in *;
      set (w2 := after_ssh env w1 c2 60) in *;
      set (w3 := after_ssh env w2 c3 60) in *;
      assert (trace w3 = trace w1 ++ [(now w1, ssh_event c2 60 (e_ssh env w1 c2 60));
                                      (now w2, ssh_event c3 60 (e_ssh env w2 c3 60))])
        as Ht3 by (unfold w3; rewrite trace_after_ssh; unfold w2 at 1;
                   rewrite trace_after_ssh, <- app_assoc; reflexivity);
      destruct (e_ssh env w1 c2 60) as [[s2 o2] e2];
      destruct (e_ssh env w2 c3 60) as [[s3 o3] e3];
      unfold ssh_event in *;
      unfold bind, ret in E; reduce_in E; injection E as <- <-;
      eexists false, _, o, e; cbn [fst snd]; rewrite ?Ho;
      unfold events_since, interactions;
      rewrite trace_extend, Ht3, Ht1, Ht0, <- !app_assoc, drop_app_length; cbn;
      (split_and!; [done | done | done | done |]);
      intros _; by exists s2, o2, e2, s3, o3, e3.
  - unfold bind at 1 in E. rewrite ssh_execute_eq in E.
    set (w1 := after_ssh env w0 "uname -a" 60) in *.
    assert (trace w1 = trace w0 ++ [(now w0, ssh_event "uname -a" 60
                                               (e_ssh env w0 "uname -a" 60))])
      as Ht1 by reflexivity.
    destruct (e_ssh env w0 "uname -a" 60) as [[s o] e].
    unfold ssh_answer, ssh_event in *. reduce_in E.
    exists s, s, o, e.
    destruct s; reduce_in E; unfold bind, ret in E; reduce_in E;
      injection E as <- <-; cbn [fst snd];
      unfold events_since, interactions;
      rewrite trace_extend, Ht1, Ht0, <- !app_assoc, drop_app_length; cbn; done.
Qed.

End Verify.

Lemma poweron_is_no_shutdown_step ids id t s o e :
  ¬ shutdown_step ids (EvSsh (poweron_cmd id) t s o e).
Proof.
  intros [H | (cmd & s' & o' & e' & [= Hc _ _ _ _] & [H | (id' & _ & [H | [H | H]])])];
    [done|..]; subst cmd; vm_compute in H; discriminate H.
Qed.

Section Shutdown.

Context (env : Env) (self : Patcher).

Lemma emits_shutdown_vm ids timeout failed vm_id :
  vm_id ∈ ids →
  emits (shutdown_step ids) (shutdown_vm env timeout failed vm_id).
Proof.
  intros Hin.
  assert (∀ cmd, (cmd = getstate_cmd vm_id ∨ cmd = shutdown_cmd vm_id
                  ∨ cmd = poweroff_cmd vm_id) →
                 ∀ s o e, shutdown_step ids (EvSsh cmd 60 s o e)) as Hcmd.
  { intros cmd Hc s o e. right. exists cmd, s, o, e. split; [done|]. right. by exists vm_id. }
  assert (shutdown_step ids (EvSleep 5)) as Hsleep by (by left).
  unfold shutdown_vm. emit_through;
    first [ apply Hcmd; auto | exact Hsleep | intros; apply Hcmd; auto ].
Qed.

Lemma shutdown_sequence_spec timeout w :
  let out := check_and_shutdown_vms env timeout w in
  let io := interactions (events_since w out.2) in
  ∃ b s o e rest,
    out.1 = Ok b
    ∧ io = EvSsh getallvms_cmd 60 s o e :: rest
    ∧ (s = false ∨ PyStr.is_empty (PyStr.strip o) = true → b = true ∧ rest = [])
    ∧ Forall (shutdown_step (parse_vm_ids o)) rest
    ∧ (b = false → ∃ s' o' e', last rest = Some (EvSsh getallvms_cmd 60 s' o' e')).
Proof.
  cbv zeta. destruct (check_and_shutdown_vms env timeout w) as [res wf] eqn:E.
  unfold check_and_shutdown_vms, traced, mark in E.
  unfold bind at 1 in E. reduce_in E. unfold bind at 1 in E.
  unfold try_except at 1 in E. unfold bind at 1 in E. rewrite ssh_execute_eq in E.
  set (w0 := extend w 0 (EvCall m_check_and_shutdown_vms)) in *.
  set (w1 := after_ssh env w0 getallvms_cmd 60) in *.
  assert (trace w1 = trace w ++ [(now w, EvCall m_check_and_shutdown_vms);
                                 (now w0, ssh_event getallvms_cmd 60
                                            (e_ssh env w0 getallvms_cmd 60))]) as Ht1.
  { unfold w1. rewrite trace_after_ssh. unfold w0 at 1.
    by rewrite trace_extend, <- app_assoc. }
  destruct (e_ssh env w0 getallvms_cmd 60) as [[s o] e].
  unfold ssh_answer, ssh_event in *. reduce_in E.
  assert (s = false ∨ PyStr.is_empty (PyStr.strip o) = true →
          res = Ok true ∧ interactions (events_since w wf) = [EvSsh getallvms_cmd 60 s o e])
    as Hnone.
  { intros Hblank.
    assert (wf = extend w1 0 (EvRet m_check_and_shutdown_vms true) ∧ res = Ok true)
      as [-> ->].
    { destruct s; reduce_in E.
      - destruct Hblank as [|Hb]; [done|]. rewrite Hb in E. reduce_in E.
        unfold ret, bind in E. by injection E as <- <-.
      - unfold ret, bind in E. by injection E as <- <-. }
    split; [done|]. unfold events_since, interactions.
    rewrite trace_extend, Ht1, <- !app_assoc, drop_app_length. done. }
  destruct s; [destruct (PyStr.is_empty (PyStr.strip o)) eqn:Hblank|].
  1: { destruct Hnone as [-> Hio]; [by right|].
       exists true, true, o, e, []. cbn [fst snd]. rewrite Hio.
       split_and!; [done | done | done | constructor | done]. }
  2: { destruct Hnone as [-> Hio]; [by left|].
       exists true, false, o, e, []. cbn [fst snd]. rewrite Hio.
       split_and!; [done | done | done | constructor | done]. }
  reduce_in E. clear Hnone.
  set (ids := parse_vm_ids o) in *.
  destruct (plain_for_each (shutdown_vm env timeout) ids []
              (λ b a, plain_shutdown_vm env timeout b a) w1)
    as (failed & w2 & Eloop & _ & _).
  destruct (emits_for_each (shutdown_step ids) (shutdown_vm env timeout) ids []
              (λ b a Ha, emits_shutdown_vm ids timeout b a
                           (proj2 (list_elem_of_In _ _) Ha)) w1)
    as (seg & Ht2 & Hsteps).
  rewrite Eloop in Ht2. cbn [snd] in Ht2.
  unfold bind at 1 in E. rewrite Eloop in E.
  assert (Forall (shutdown_step ids) (interactions seg)) as Hio2.
  { apply Forall_forall. intros ev [_ [t Hin]]%interactions_elem.
    rewrite Forall_forall in Hsteps. apply (Hsteps _ Hin). }
  destruct failed as [|vm failed].
  - unfold ret, bind in E. reduce_in E. injection E as <- <-.
    exists true, true, o, e, (interactions seg). cbn [fst snd].
    split_and!; [done | | by rewrite Hblank; intros [|] | done | done].
    rewrite (events_since_app w _ ([(now w, EvCall m_check_and_shutdown_vms);
                                    (now w0, EvSsh getallvms_cmd 60 true o e)]
                                   ++ seg ++ [(now w2, EvRet m_check_and_shutdown_vms true)])).
    2: { rewrite trace_extend, Ht2, Ht1, <- !app_assoc. reflexivity. }
    rewrite !interactions_app. unfold interactions at 1 3. simpl.
    by rewrite ?app_nil_r.
  - unfold bind at 1 in E. rewrite ssh_execute_eq in E.
    set (w3 := after_ssh env w2 getallvms_cmd 60) in *.
    assert (trace w3 = trace w2 ++ [(now w2, ssh_event getallvms_cmd 60
                                               (e_ssh env w2 getallvms_cmd 60))])
      as Ht3 by reflexivity.
    destruct (e_ssh env w2 getallvms_cmd 60) as [[s' o'] e'].
    unfold ssh_event in *.
    unfold ret, bind in E. reduce_in E. injection E as <- <-.
    exists false, true, o, e, (interactions seg ++ [EvSsh getallvms_cmd 60 s' o' e']).
    cbn [fst snd].
    split_and!; [done | | by rewrite Hblank; intros [|] | | ].
    + rewrite (events_since_app w _ ([(now w, EvCall m_check_and_shutdown_vms);
                                      (now w0, EvSsh getallvms_cmd 60 true o e)]
                                     ++ seg ++ [(now w2, EvSsh getallvms_cmd 60 s' o' e')]
                                     ++ [(now w3, EvRet m_check_and_shutdown_vms false)])).
      2: { rewrite trace_extend, Ht3, Ht2, Ht1, <- !app_assoc. reflexivity. }
      rewrite !interactions_app. unfold interactions at 1 3 4. simpl.
      by rewrite ?app_nil_r.
    + apply Forall_app. split; [done|].
      apply Forall_cons_2; [|constructor].
      right. exists getallvms_cmd, s', o', e'. split; [done | by left].
    + intros _. exists s', o', e'. by rewrite last_snoc.
Qed.

(** X14.  [check_and_shutdown_vms] returns for every environment.  It
    begins with the listing of the workloads; when the listing fails it
    returns [True] at once, and it returns [False] only after a second
    listing, which is its last interaction.  For a listing made of ASCII
    characters: when the listing is blank it returns [True] at once, and
    otherwise it only sleeps five seconds at a time and sends state
    queries, graceful shutdowns and forced power-offs to workloads of
    the listing. *)
Theorem shutdown_sequence_stays_within_listing timeout w :
  let out := check_and_shutdown_vms env timeout w in
  let io := interactions (events_since w out.2) in
  ∃ b s o e rest,
    out.1 = Ok b
    ∧ io = EvSsh getallvms_cmd 60 s o e :: rest
    ∧ (s = false → b = true ∧ rest = [])
    ∧ (b = false → ∃ s' o' e', last rest = Some (EvSsh getallvms_cmd 60 s' o' e'))
    ∧ (ascii_only o = true →
         (PyStr.is_empty (PyStr.strip o) = true → b = true ∧ rest = [])
         ∧ Forall (shutdown_step (parse_vm_ids o)) rest).
Proof.
  cbv zeta.
  destruct (shutdown_sequence_spec timeout w)
    as (b & s & o & e & rest & H1 & H2 & H3 & H4 & H5).
  exists b, s, o, e, rest. split_and!; [done | done | | done |].
  - intros Hs. apply H3. by left.
  - intros _. split; [|done]. intros Hblank. apply H3. by right.
Qed.

(** X15.  The shutdown sequence never sends a power-on command. *)
Theorem shutdown_sequence_never_powers_on timeout w :
  let out := check_and_shutdown_vms env timeout w in
  let io := interactions (events_since w out.2) in
  ∀ id t s o e, EvSsh (poweron_cmd id) t s o e ∉ io.
Proof.
  intros out io id t s o e Hin.
  destruct (shutdown_sequence_spec timeout w)
    as (b & s0 & o0 & e0 & rest & _ & Hio & _ & Hsteps & _).
  fold out io in Hio. rewrite Hio in Hin.
  apply elem_of_cons in Hin as [Hin | Hin].
  - injection Hin as Hcmd _ _ _ _. vm_compute in Hcmd. discriminate Hcmd.
  - rewrite Forall_forall in Hsteps. apply Hsteps in Hin.
    by apply poweron_is_no_shutdown_step in Hin.
Qed.

End Shutdown.

Section Upload.

Context (env : Env) (self : Patcher).



End Upload.

(** Case analysis on the path of a run. *)
Ltac open_paths :=
  repeat match goal with
  | H : host_path _ _ _ |- _ => unfold host_path in H
  | H : patch_path _ _ _ _ |- _ => unfold patch_path in H
  | H : install_path _ _ _ _ |- _ => unfold install_path in H
  | H : after_reboot_path _ _ _ |- _ => unfold after_reboot_path in H
  | H : restore_path _ _ _ |- _ => unfold restore_path in H
  | H : quiesce_markers ?c _ _ |- _ => unfold quiesce_markers in H; destruct c
  | H : _ ∨ _ |- _ => destruct H
  | H : ∃ _, _ |- _ => destruct H
  | H : _ ∧ _ |- _ => destruct H
  | H : if ?b then _ else _ |- _ => destruct b
  | H : match ?f with Some _ => _ | None => _ end |- _ => destruct f
  end; simplify_eq.



Section HostPaths.

Context (env : Env) (self : Patcher).

Lemma runs_exists_patch_file w :
  runs (exists_patch_file env self) w
    (λ b ms, ms = [] ∧ (b = true → nonempty (patch_file self) = true)).
Proof.
  destruct (plain_exists_patch_file env self w) as (b & w' & E & _ & seg & Ht & Hs).
  exists b, w', seg. split_and!; [done | done | by apply markers_nonmarker |].
  intros ->. unfold exists_patch_file in E.
  destruct (patch_file self) as [f|]; [|by inversion E].
  simpl. destruct (PyStr.is_empty f); [by inversion E | done].
Qed.

(** The markers of a method whose body involves no other method. *)
Lemma runs_method {A} m (truthy : A → bool) (body : M A) w :
  plain body →
  runs (traced m truthy body) w (λ a ms, ms = invoked m (truthy a)).
Proof. apply runs_traced. Qed.

Lemma runs_connect_api host w :
  runs (_connect_api env host) w (λ api ms, ms = invoked m_connect_api (is_some api)).
Proof. apply runs_method. walk. Qed.

Lemma runs_get_host_system w :
  runs (_get_host_system env) w (λ ho ms, ms = invoked m_get_host_system (is_some ho)).
Proof. apply runs_method. walk. Qed.

Lemma runs_enable_services w :
  runs (enable_services_via_api env) w (λ b ms, ms = invoked m_enable_services_via_api b).
Proof. apply (runs_method m_enable_services_via_api id). walk. Qed.

Lemma runs_disable_services w :
  runs (disable_services_via_api env) w (λ b ms, ms = invoked m_disable_services_via_api b).
Proof. apply (runs_method m_disable_services_via_api id). walk. Qed.

Lemma runs_wait_for_ssh host timeout w :
  runs (wait_for_ssh env host timeout) w (λ b ms, ms = invoked m_wait_for_ssh b).
Proof. apply (runs_method m_wait_for_ssh id). apply plain_wait_for_ssh_body. Qed.

Lemma runs_ssh_connect host w :
  runs (ssh_connect env host) w (λ c ms, ms = invoked m_ssh_connect (is_some c)).
Proof. apply runs_method. walk. Qed.

Lemma runs_find_boot_datastore w :
  runs (find_boot_datastore env) w (λ ds ms, ms = invoked m_find_boot_datastore (nonempty ds)).
Proof. apply runs_method. walk. Qed.

Lemma plain_copy_body ds :
  plain (present <- exists_patch_file env self ;;
         if negb present then ret false
         else
           try_except
             (r <- ask env (e_sftp_open env) EvSftpOpen ;;
              _ <- of_reply r ;;
              reachable <- try_except
                             (_ <- sftp_stat env ds ;; ret true)
                             (λ _, ret false) ;;
              if negb reachable then
                _ <- sftp_close env ;; ret false
              else
                r <- ask env (λ w, e_sftp_put env w (fmt (patch_file self)) (remote_path self ds))
                         (EvSftpPut (fmt (patch_file self)) (remote_path self ds)) ;;
                _ <- of_reply r ;;
                st_size <- sftp_stat env (remote_path self ds) ;;
                r <- ask env (λ w, e_getsize env w (fmt (patch_file self)))
                         (EvGetSize (fmt (patch_file self))) ;;
                local_size <- of_reply r ;;
                if bool_decide (st_size = local_size) then
                  _ <- sftp_close env ;; ret true
                else
                  _ <- sftp_close env ;; ret false)
             (λ _, ret false)).
Proof.
  apply plain_bind; [apply plain_exists_patch_file|]. intros present.
  destruct (negb present); [walk|].
  apply plain_try_except; [|intros; walk].
  apply quiet_bind; [walk|]. intros r. apply quiet_bind; [walk|]. intros _.
  apply quiet_bind.
  { apply plain_quiet, plain_try_except; [|intros; walk].
    apply quiet_bind; [apply quiet_sftp_stat | intros; walk]. }
  intros reachable. destruct (negb reachable).
  { apply quiet_bind; [apply quiet_sftp_close | intros; walk]. }
  apply quiet_bind; [walk|]. intros r2. apply quiet_bind; [walk|]. intros _.
  apply quiet_bind; [apply quiet_sftp_stat|]. intros st_size.
  apply quiet_bind; [walk|]. intros r3. apply quiet_bind; [walk|]. intros local_size.
  destruct (bool_decide (st_size = local_size));
    (apply quiet_bind; [apply quiet_sftp_close | intros; walk]).
Qed.

Lemma runs_copy_patch_via_scp ds w :
  runs (copy_patch_via_scp env self ds) w (λ b ms, ms = invoked m_copy_patch_via_scp b).
Proof. apply (runs_method m_copy_patch_via_scp id). apply plain_copy_body. Qed.

Lemma runs_cleanup_patch_file ds w :
  runs (cleanup_patch_file env self ds) w (λ b ms, ms = invoked m_cleanup_patch_file b).
Proof. apply (runs_method m_cleanup_patch_file id). walk. Qed.

Lemma runs_reboot_host w :
  runs (reboot_host env) w (λ b ms, ms = invoked m_reboot_host b).
Proof. apply (runs_method m_reboot_host id). walk. Qed.

Lemma runs_wait_for_host_reboot host timeout w :
  runs (wait_for_host_reboot env host timeout) w
    (λ b ms, ms = invoked m_wait_for_host_reboot b).
Proof.
  apply (runs_method m_wait_for_host_reboot id). apply plain_wait_for_host_reboot_body.
Qed.

Lemma runs_exit_maintenance_mode w :
  runs (exit_maintenance_mode env) w (λ b ms, ms = invoked m_exit_maintenance_mode b).
Proof.
  apply (runs_method m_exit_maintenance_mode id).
  apply (plain_maintenance_body env
           (ask env (λ w, e_exit_maintenance env w 0) (EvExitMaintenanceMode 0)) false).
  walk.
Qed.

Lemma runs_start_vms_after_reboot w :
  runs (start_vms_after_reboot env) w (λ b ms, ms = invoked m_start_vms_after_reboot b).
Proof.
  apply (runs_method m_start_vms_after_reboot id).
  apply plain_try_except; [|intros; walk].
  apply plain_quiet. apply plain_bind.
  - unfold start_vms_counters. apply plain_bind; [walk|]. intros [success output].
    destruct (negb success || _); [walk|].
    apply plain_bind; [|intros; walk].
    apply plain_for_each. intros [started failed] vm_id. unfold start_vm. walk.
  - intros [[??]|]; walk.
Qed.

(** *** Steps 14 to 18 *)

Lemma retries_S k : retries (S k) = invoked m_connect_api false ++ retries k.
Proof. reflexivity. Qed.

Lemma runs_reconnect_api n host w :
  runs (reconnect_api env n host) w
    (λ api ms, (is_some api = false ∧ ms = retries n)
               ∨ ∃ k, (k < n)%nat ∧ is_some api = true
                      ∧ ms = retries k ++ invoked m_connect_api true).
Proof.
  revert w. induction n as [|n IH]; intros w; simpl.
  - apply runs_ret. by left.
  - eapply runs_bind; [apply runs_connect_api|]. intros api w1 ms1 ->.
    destruct (is_some api) eqn:Hapi.
    + apply runs_ret. right. exists 0%nat. rewrite Hapi.
      split_and!; [lia | done | by rewrite app_nil_r].
    + eapply runs_bind.
      { instantiate (1 := λ _ ms, ms = []).
        destruct n; [by apply runs_ret|].
        apply runs_plain, plain_sleep. lia. }
      intros _ w2 ms2 ->. eapply runs_mono; [apply IH|].
      intros api' ms [[Hn ->] | (k & Hk & Hs & ->)].
      * left. by rewrite retries_S.
      * right. exists (S k). split_and!; [lia | done |].
        by rewrite retries_S, <- app_assoc.
Qed.

Lemma runs_restore host is_clustered old_ssh_client w :
  runs (restore env host is_clustered old_ssh_client) w (restore_path is_clustered).
Proof.
  unfold restore. apply runs_guarded.
  eapply runs_bind; [apply runs_reconnect_api|]. intros api w1 ms1 H1.
  apply runs_guarded. destruct H1 as [[Hn ->] | (k & Hk & Hs & ->)]; rewrite ?Hn, ?Hs; reduce.
  { apply runs_leave. left. by rewrite app_nil_r. }
  eapply runs_bind; [apply runs_get_host_system|]. intros ho w2 ms2 ->.
  destruct (is_some ho); reduce.
  2: { apply runs_leave. right. exists k. split; [done|]. left.
       by rewrite app_nil_r, <- app_assoc. }
  eapply runs_bind; [apply runs_ssh_connect|]. intros ssh w3 ms3 ->.
  apply runs_guarded.
  eapply runs_bind; [apply runs_exit_maintenance_mode|]. intros left w4 ms4 ->.
  eapply runs_bind.
  { instantiate (1 := λ _ ms, ∃ started,
                    ms = if negb is_clustered && is_some ssh
                         then invoked m_start_vms_after_reboot started else []).
    destruct (negb is_clustered && is_some ssh).
    - eapply runs_bind; [apply runs_start_vms_after_reboot|].
      intros started w5 ms5 ->. apply runs_ret. exists started. by rewrite app_nil_r.
    - apply runs_ret. by exists false. }
  intros _ w5 ms5 [started ->].
  eapply runs_bind; [apply runs_disable_services|]. intros off w6 ms6 ->.
  apply runs_leave. right. exists k. split; [done|]. right.
  exists (is_some ssh), left, started, off. split; [done|].
  by rewrite app_nil_r, <- !app_assoc.
Qed.

(** *** Steps 5 to 13 *)

Lemma attempts_close (close : M unit) (opened : bool) w :
  quiet close →
  attempts (if opened then close else ret tt) w (λ _ ms, ms = []) (λ ms, ms = []).
Proof.
  intros Hq. destruct opened; [apply attempts_quiet, Hq|].
  apply attempts_runs. by apply runs_ret.
Qed.

Lemma attempts_after_reboot host is_clustered ssh_client api_connection w :
  attempts (_ <- (if is_some ssh_client then ssh_close env else ret tt) ;;
            _ <- (if is_some api_connection then disconnect env else ret tt) ;;
            back <- wait_for_host_reboot env host 600 ;;
            if negb back
            then leave env ssh_client api_connection
                   (false, "Хост не перезагрузился или недоступен после перезагрузки")
            else
              _ <- sleep 30 ;;
              restore env host is_clustered ssh_client)
    w (after_reboot_path is_clustered) (raised (after_reboot_path is_clustered)).
Proof.
  assert (raised (after_reboot_path is_clustered) []) as Hraised.
  { intros e. left. split; [by exists e | done]. }
  eapply attempts_bind; [apply attempts_close, quiet_ssh_close | by intros ms -> |].
  intros _ w1 ms1 ->.
  eapply attempts_bind; [apply attempts_close, quiet_disconnect | by intros ms -> |].
  intros _ w2 ms2 ->. apply attempts_runs.
  eapply runs_bind; [apply runs_wait_for_host_reboot|]. intros back w3 ms3 ->.
  destruct back; reduce.
  - eapply runs_bind; [apply runs_plain, plain_sleep; lia|]. intros _ w4 ms4 ->.
    eapply runs_mono; [apply runs_restore|]. intros r ms Hr.
    right. right. by exists ms.
  - apply runs_leave. right. left. done.
Qed.

Lemma attempts_install_path host is_clustered ssh_client api_connection datastore w :
  attempts (install_and_reboot env self host is_clustered ssh_client api_connection datastore)
    w (install_path (nonempty (patch_file self)) is_clustered)
    (raised (install_path (nonempty (patch_file self)) is_clustered)).
Proof.
  unfold install_and_reboot.
  eapply attempts_bind_runs; [apply runs_exists_patch_file|].
  intros present w1 ms1 [-> Hp1].
  eapply (attempts_bind_runs _ _ _
            (λ installed ms,
               (installed = true ∧ ms = [])
               ∨ (nonempty (patch_file self) = true
                  ∧ ms = invoked m_install_patch_via_ssh installed))).
  { destruct present; [|apply runs_ret; by left].
    eapply runs_mono; [apply runs_install_patch_via_ssh|].
    intros b ms ->. right. split; [by apply Hp1 | done]. }
  intros installed w2 ms2 Hinst.
  destruct installed; reduce.
  2: { apply attempts_runs, runs_leave. left.
       destruct Hinst as [[? _] | [Hp ->]]; [done|]. by rewrite app_nil_r. }
  assert (ms2 = [] ∨ nonempty (patch_file self) = true
                     ∧ ms2 = invoked m_install_patch_via_ssh true) as Hms2.
  { destruct Hinst as [[_ ->] | [Hp ->]]; [by left | by right]. }
  clear Hinst.
  eapply attempts_bind_runs; [apply (runs_verify_patch_installation env self None)|].
  intros verified w3 ms3 ->.
  eapply attempts_bind_runs; [apply runs_exists_patch_file|].
  intros present' w4 ms4 [-> Hp4].
  eapply (attempts_bind_runs _ _ _
            (λ _ ms, ms = [] ∨ nonempty (patch_file self) = true
                               ∧ ∃ b, ms = invoked m_cleanup_patch_file b)).
  { destruct present'; [|apply runs_ret; by left].
    eapply runs_bind; [apply runs_cleanup_patch_file|].
    intros b w5 ms5 ->. apply runs_ret. right.
    split; [by apply Hp4|]. exists b. by rewrite app_nil_r. }
  intros _ w5 ms5 Hms5.
  eapply attempts_bind_runs; [apply runs_reboot_host|].
  intros rebooted w6 ms6 ->.
  destruct rebooted; reduce.
  2: { apply attempts_runs, runs_leave. right.
       exists ms2, verified, ms5, false, []. split_and!; done. }
  eapply attempts_mono; [apply attempts_after_reboot | |].
  - intros r ms Hr. right. exists ms2, verified, ms5, true, ms.
    split_and!; done.
  - intros ms Hr e. right. exists ms2, verified, ms5, true, ms.
    split_and!; [done | done | done | apply Hr].
Qed.

Lemma attempts_patch_path host is_clustered ssh_client api_connection w :
  attempts (patch_and_reboot env self host is_clustered ssh_client api_connection) w
    (patch_path (nonempty (patch_file self)) is_clustered)
    (raised (patch_path (nonempty (patch_file self)) is_clustered)).
Proof.
  unfold patch_and_reboot.
  eapply attempts_bind_runs; [apply runs_find_boot_datastore|].
  intros datastore w1 ms1 ->. destruct (nonempty datastore); reduce.
  2: { apply attempts_runs, runs_leave. left. done. }
  eapply attempts_bind_runs; [apply runs_exists_patch_file|].
  intros present w2 ms2 [-> Hp2].
  eapply (attempts_bind_runs _ _ _
            (λ copied ms,
               (copied = true ∧ ms = [])
               ∨ (nonempty (patch_file self) = true
                  ∧ ms = invoked m_copy_patch_via_scp copied))).
  { destruct present; [|apply runs_ret; by left].
    eapply runs_mono; [apply runs_copy_patch_via_scp|].
    intros b ms ->. right. split; [by apply Hp2 | done]. }
  intros copied w3 ms3 Hcopy. destruct copied; reduce.
  2: { apply attempts_runs, runs_leave. right. left.
       destruct Hcopy as [[? _] | [Hp ->]]; [done|]. done. }
  assert (ms3 = [] ∨ nonempty (patch_file self) = true
                     ∧ ms3 = invoked m_copy_patch_via_scp true) as Hms3.
  { destruct Hcopy as [[_ ->] | [Hp ->]]; [by left | by right]. }
  clear Hcopy.
  eapply attempts_bind_runs; [apply runs_quiesce|].
  intros fatal w4 q Hq. destruct fatal as [reason|].
  - apply attempts_runs, runs_leave. right. right.
    exists ms3, q, (Some reason), []. split_and!; done.
  - eapply attempts_mono; [apply attempts_install_path | |].
    + intros r ms Hr. right. right. exists ms3, q, None, ms. split_and!; done.
    + intros ms Hr e. right. right. exists ms3, q, None, ms.
      split_and!; [done | done | done | apply Hr].
Qed.

(** *** The whole run *)

(** [process_host] returns for every host, in every environment, and the
    methods it invokes on the way follow one of the paths. *)
Lemma process_host_paths host w :
  ∃ r w' seg inner,
    process_host env self host w = (Ok r, w')
    ∧ trace w' = trace w ++ seg
    ∧ markers seg = EvCall m_process_host :: inner ++ [EvRet m_process_host r.1]
    ∧ host_path (nonempty (patch_file self)) r inner.
Proof.
  set (has_patch := nonempty (patch_file self)).
  assert (∀ w', runs (guarded env None None
                        (api_connection <- _connect_api env host ;;
                         guarded env None api_connection
                           (if negb (is_some api_connection)
                            then leave env None api_connection
                                   (false, "Ошибка подключения к API")
                            else
                              host_obj <- _get_host_system env ;;
                              if negb (is_some host_obj)
                              then leave env None api_connection
                                     (false, "Ошибка получения объекта хоста")
                              else
                                is_clustered <- is_host_in_cluster env ;;
                                _ <- enable_services_via_api env ;;
                                _ <- wait_for_ssh env host 120 ;;
                                ssh_client <- ssh_connect env host ;;
                                guarded env ssh_client api_connection
                                  (if negb (is_some ssh_client)
                                   then leave env ssh_client api_connection
                                          (false, "Не удалось подключиться по SSH")
                                   else patch_and_reboot env self host is_clustered
                                          ssh_client api_connection)))) w'
                   (host_path has_patch)) as Hbody.
  { intros w0. apply runs_guarded.
    eapply runs_bind; [apply runs_connect_api|]. intros api w1 ms1 ->.
    apply runs_guarded. destruct (is_some api); reduce.
    2: { apply runs_leave. by left. }
    eapply runs_bind; [apply runs_get_host_system|]. intros ho w2 ms2 ->.
    destruct (is_some ho); reduce.
    2: { apply runs_leave. right. by left. }
    eapply runs_bind; [apply runs_is_host_in_cluster|]. intros c w3 ms3 ->.
    eapply runs_bind; [apply runs_enable_services|]. intros en w4 ms4 ->.
    eapply runs_bind; [apply runs_wait_for_ssh|]. intros ws w5 ms5 ->.
    eapply runs_bind; [apply runs_ssh_connect|]. intros ssh w6 ms6 ->.
    destruct (is_some ssh) eqn:Hssh; reduce.
    2: { apply runs_guarded, runs_leave. right. right.
         exists c, en, ws, false, []. split; done. }
    eapply (runs_guarded_attempts env _ _ _ _ _
              (λ ms, ∀ e, host_path has_patch (false, "Исключение: " +:+ e)
                            (invoked m_connect_api true ++ invoked m_get_host_system true
                             ++ invoked m_is_host_in_cluster c
                             ++ invoked m_enable_services_via_api en
                             ++ invoked m_wait_for_ssh ws
                             ++ invoked m_ssh_connect true ++ ms))).
    - eapply attempts_mono; [apply attempts_patch_path | |].
      + intros r ms Hr. right. right. exists c, en, ws, true, ms. split; done.
      + intros ms Hr e. right. right. exists c, en, ws, true, ms.
        split; [done | apply Hr].
    - intros e ms H. apply H. }
  destruct (runs_traced_block m_process_host fst _ w _ Hbody)
    as (r & w' & seg & E & Ht & inner & Hm & Hs).
  exists r, w', seg, inner. split_and!; done.
Qed.

(** X1.  [process_host] returns a pair for every host in every
    environment: it never raises and its loops end.  A success carries
    the message of success; a failure carries one of eleven fixed
    reasons, or the text of an exception behind a fixed prefix. *)
Theorem process_host_returns_verdict host w :
  ∃ r w',
    process_host env self host w = (Ok r, w')
    ∧ (r.1 = true → r.2 = "Успех")
    ∧ (r.1 = false →
         r.2 ∈ failure_reasons ∨ ∃ e, r.2 = "Исключение: " +:+ e).
Proof.
  destruct (process_host_paths host w) as (r & w' & seg & inner & E & _ & _ & Hp).
  exists r, w'. split; [exact E|].
  split; intros Hr; open_paths; simpl in *; try done;
    first [ left; unfold failure_reasons, maintenance_failure; find_elem
          | right; by eexists ].
Qed.

Lemma host_run host w :
  ∃ r w' inner,
    process_host env self host w = (Ok r, w')
    ∧ markers (events_since w w')
      = EvCall m_process_host :: inner ++ [EvRet m_process_host r.1]
    ∧ host_path (nonempty (patch_file self)) r inner.
Proof.
  destruct (process_host_paths host w) as (r & w' & seg & inner & E & Ht & Hm & Hp).
  exists r, w', inner. by rewrite (events_since_app _ _ _ Ht).
Qed.

End HostPaths.

(** *** Reading a path *)

Lemma method_id_inj m m' : method_id m = method_id m' → m = m'.
Proof. destruct m, m'; simpl; intros H; first [reflexivity | discriminate H]. Qed.

Lemma is_call_of_true m ev : is_call_of m ev = true ↔ ev = EvCall m.
Proof.
  split; [|intros ->; simpl; apply Nat.eqb_refl].
  destruct ev; simpl; try done. intros H%Nat.eqb_eq%method_id_inj. by subst.
Qed.

Lemma is_ret_of_true m b ev : is_ret_of m b ev = true ↔ ev = EvRet m b.
Proof.
  split; [|intros ->; simpl; rewrite Nat.eqb_refl; by destruct b].
  destruct ev; simpl; try done.
  intros [H1%Nat.eqb_eq%method_id_inj H2%Bool.eqb_prop]%andb_true_iff. by subst.
Qed.

Lemma elem_existsb (p : Event → bool) ev ms :
  ev ∈ ms → p ev = true → existsb p ms = true.
Proof.
  intros Hin Hp. apply existsb_exists. exists ev. split; [|done].
  by apply list_elem_of_In.
Qed.

Lemma call_in m ms : EvCall m ∈ ms ↔ existsb (is_call_of m) ms = true.
Proof.
  split.
  - intros H. eapply elem_existsb; [done|]. by apply is_call_of_true.
  - intros (ev & Hin & ->%is_call_of_true)%existsb_exists. by apply list_elem_of_In.
Qed.

Lemma ret_in m b ms : EvRet m b ∈ ms ↔ existsb (is_ret_of m b) ms = true.
Proof.
  split.
  - intros H. eapply elem_existsb; [done|]. by apply is_ret_of_true.
  - intros (ev & Hin & ->%is_ret_of_true)%existsb_exists. by apply list_elem_of_In.
Qed.

Lemma existsb_retries (p : Event → bool) k :
  p (EvCall m_connect_api) = false → p (EvRet m_connect_api false) = false →
  existsb p (retries k) = false.
Proof.
  intros H1 H2. induction k as [|k IH]; [done|].
  unfold retries in *. simpl. by rewrite H1, H2.
Qed.

Lemma existsb_retries_app (p : Event → bool) k rest :
  p (EvCall m_connect_api) = false → p (EvRet m_connect_api false) = false →
  existsb p (retries k ++ rest) = existsb p rest.
Proof. intros H1 H2. by rewrite existsb_app, existsb_retries. Qed.

Lemma precedes_quiet need target seen ms :
  existsb target ms = false → precedes need target seen ms = true.
Proof.
  revert seen. induction ms as [|ev ms IH]; intros seen; simpl; [done|].
  intros [-> H]%orb_false_iff. simpl. by apply IH.
Qed.

Lemma precedes_app need target seen a b :
  precedes need target seen (a ++ b)
  = precedes need target seen a && precedes need target (seen || existsb need a) b.
Proof.
  revert seen. induction a as [|ev a IH]; intros seen; simpl.
  - by rewrite orb_false_r.
  - by rewrite IH, andb_assoc, orb_assoc.
Qed.

Lemma precedes_retries_app need target seen k rest :
  need (EvCall m_connect_api) = false → need (EvRet m_connect_api false) = false →
  target (EvCall m_connect_api) = false → target (EvRet m_connect_api false) = false →
  precedes need target seen (retries k ++ rest) = precedes need target seen rest.
Proof.
  intros N1 N2 T1 T2. rewrite precedes_app.
  rewrite precedes_quiet by (by apply existsb_retries).
  by rewrite existsb_retries, orb_false_r.
Qed.

(** What [precedes] tells about an occurrence of a target. *)
Lemma precedes_split need target ms pre ev post :
  precedes need target false ms = true →
  ms = pre ++ ev :: post → target ev = true →
  existsb need pre = true.
Proof.
  intros H -> Ht. rewrite precedes_app in H. apply andb_true_iff in H as [_ H].
  simpl in H. rewrite Ht in H. by apply andb_true_iff in H as [H _].
Qed.

Lemma call_count_app m a b : call_count m (a ++ b) = (call_count m a + call_count m b)%nat.
Proof. unfold call_count. by rewrite List.filter_app, length_app. Qed.

Lemma call_count_cons m ev ms :
  call_count m (ev :: ms) = ((if is_call_of m ev then 1 else 0) + call_count m ms)%nat.
Proof. unfold call_count. simpl. by destruct (is_call_of m ev). Qed.

Lemma call_count_retries m k :
  call_count m (retries k) = if is_call_of m (EvCall m_connect_api) then k else 0%nat.
Proof.
  induction k as [|k IH]; [by destruct (is_call_of _ _)|].
  rewrite retries_S, call_count_app, IH. unfold invoked.
  rewrite !call_count_cons. change (call_count m []) with 0%nat.
  change (is_call_of m (EvRet m_connect_api false)) with false.
  destruct (is_call_of m (EvCall m_connect_api)); lia.
Qed.

Lemma adjacent_here a b post : adjacent a b (a :: b :: post).
Proof. by exists [], post. Qed.

Lemma adjacent_cons a b x ms : adjacent a b ms → adjacent a b (x :: ms).
Proof. intros (pre & post & ->). by exists (x :: pre), post. Qed.

Lemma adjacent_app_r a b l ms : adjacent a b ms → adjacent a b (l ++ ms).
Proof. intros (pre & post & ->). exists (l ++ pre), post. by rewrite <- app_assoc. Qed.

(** Evaluate a search over the markers of a path. *)
Ltac scan :=
  cbn [app invoked fst snd] in *;
  repeat match goal with
         | |- context [if negb _ && ?b then _ else _] => is_var b; destruct b
         end;
  repeat first
    [ rewrite <- app_assoc
    | rewrite existsb_retries_app by reflexivity
    | rewrite existsb_retries by reflexivity
    | rewrite precedes_retries_app by reflexivity
    | progress cbn [existsb precedes is_call_of is_ret_of method_id Nat.eqb Bool.eqb
                    andb orb negb app invoked] ];
  rewrite ?orb_true_r.

Section HostFacts.

Context (env : Env) (self : Patcher).

(** X2.  A host is reported as patched only if its run connected to the
    management API and to the remote shell, found a datastore, entered
    maintenance mode, had the reboot command accepted and saw the host
    come back. *)
Theorem success_needs_every_fatal_step host w :
  let out := process_host env self host w in
  let ms := markers (events_since w out.2) in
  ∀ msg, out.1 = Ok (true, msg) →
    Forall (λ m, EvRet m true ∈ ms)
      [m_connect_api; m_get_host_system; m_ssh_connect; m_find_boot_datastore;
       m_enter_maintenance_mode; m_reboot_host; m_wait_for_host_reboot].
Proof.
  destruct (host_run env self host w) as (r & w' & inner & E & Hm & Hp).
  cbv zeta. rewrite E. cbn [fst snd]. rewrite Hm. intros msg [= ->].
  open_paths;
    repeat (apply Forall_cons_2; [apply ret_in; scan; reflexivity|]);
    by apply Forall_nil.
Qed.

(** X3.  The patch is installed and the host is rebooted only in
    maintenance mode: every invocation of [install_patch_via_ssh] and of
    [reboot_host] comes after [enter_maintenance_mode] returned [True]. *)
Theorem install_and_reboot_only_in_maintenance host w :
  let out := process_host env self host w in
  let ms := markers (events_since w out.2) in
  ∀ m pre post,
    m = m_install_patch_via_ssh ∨ m = m_reboot_host →
    ms = pre ++ EvCall m :: post →
    EvRet m_enter_maintenance_mode true ∈ pre.
Proof.
  destruct (host_run env self host w) as (r & w' & inner & E & Hm & Hp).
  cbv zeta. rewrite E. cbn [fst snd]. rewrite Hm. clear Hm E.
  intros m pre post Hmeth Hsplit. apply ret_in.
  eapply (precedes_split _ (is_call_of m)); [|exact Hsplit|by apply is_call_of_true].
  clear Hsplit. open_paths; scan; reflexivity.
Qed.

(** X4.  The restoration waits for the host: [exit_maintenance_mode],
    [start_vms_after_reboot] and [disable_services_via_api] are invoked
    only after [wait_for_host_reboot] returned [True], which itself is
    invoked only after [reboot_host] returned [True]. *)
Theorem restoration_only_after_host_is_back host w :
  let out := process_host env self host w in
  let ms := markers (events_since w out.2) in
  (∀ m pre post,
     m = m_exit_maintenance_mode ∨ m = m_start_vms_after_reboot
     ∨ m = m_disable_services_via_api →
     ms = pre ++ EvCall m :: post →
     EvRet m_wait_for_host_reboot true ∈ pre)
  ∧ (∀ pre post,
       ms = pre ++ EvCall m_wait_for_host_reboot :: post →
       EvRet m_reboot_host true ∈ pre).
Proof.
  destruct (host_run env self host w) as (r & w' & inner & E & Hm & Hp).
  cbv zeta. rewrite E. cbn [fst snd]. rewrite Hm. clear Hm E.
  open_paths; split.
  all: try (intros m pre post Hmeth Hsplit; apply ret_in;
            eapply (precedes_split _ (is_call_of m));
              [|exact Hsplit|by apply is_call_of_true];
            clear Hsplit; destruct Hmeth as [-> | [-> | ->]]; scan; reflexivity).
  all: intros pre post Hsplit; apply ret_in;
       eapply (precedes_split _ (is_call_of m_wait_for_host_reboot));
         [|exact Hsplit|reflexivity];
       clear Hsplit; scan; reflexivity.
Qed.

(** X5.  On a host that [is_host_in_cluster] reports as a cluster member
    the workloads are never started by the tool; they are started only on
    a host reported as standalone, and only when the remote shell was
    opened again after the reboot. *)
Theorem cluster_member_workloads_not_started host w :
  let out := process_host env self host w in
  let ms := markers (events_since w out.2) in
  (EvRet m_is_host_in_cluster true ∈ ms → EvCall m_start_vms_after_reboot ∉ ms)
  ∧ (EvCall m_start_vms_after_reboot ∈ ms →
       EvRet m_is_host_in_cluster false ∈ ms
       ∧ adjacent (EvRet m_ssh_connect true) (EvCall m_exit_maintenance_mode) ms).
Proof.
  destruct (host_run env self host w) as (r & w' & inner & E & Hm & Hp).
  cbv zeta. rewrite E. cbn [fst snd]. rewrite Hm. clear Hm E.
  open_paths; split.
  all: try (intros H1%ret_in H2%call_in; revert H1 H2; scan; intros; congruence).
  all: intros H1%call_in; revert H1; rewrite ret_in;
       scan; intros H1; try discriminate H1; (split; [reflexivity|]);
       repeat first [apply adjacent_here | apply adjacent_cons | apply adjacent_app_r].
Qed.

(** X6.  Without a configured patch file a host run uploads, installs and
    removes nothing: [copy_patch_via_scp], [install_patch_via_ssh] and
    [cleanup_patch_file] are never invoked. *)
Theorem no_patch_file_no_patch_steps host w :
  nonempty (patch_file self) = false →
  let out := process_host env self host w in
  let ms := markers (events_since w out.2) in
  ∀ m, m = m_copy_patch_via_scp ∨ m = m_install_patch_via_ssh
       ∨ m = m_cleanup_patch_file →
       EvCall m ∉ ms.
Proof.
  intros Hnone.
  destruct (host_run env self host w) as (r & w' & inner & E & Hm & Hp).
  cbv zeta. rewrite E. cbn [fst snd]. rewrite Hm. clear Hm E.
  rewrite Hnone in Hp.
  intros m Hmeth H%call_in. revert H.
  open_paths; scan; intros; congruence.
Qed.

(** X7.  A host run sends at most one reboot command, enters maintenance
    mode, shuts the workloads down and installs the patch at most once
    each, and connects to the management API at most six times: once at
    the start and up to five times after the reboot. *)
Theorem host_run_repeats_nothing_but_reconnects host w :
  let out := process_host env self host w in
  let ms := markers (events_since w out.2) in
  (∀ m, m = m_reboot_host ∨ m = m_enter_maintenance_mode
        ∨ m = m_check_and_shutdown_vms ∨ m = m_install_patch_via_ssh
        ∨ m = m_exit_maintenance_mode →
        (call_count m ms ≤ 1)%nat)
  ∧ (call_count m_connect_api ms ≤ 6)%nat.
Proof.
  destruct (host_run env self host w) as (r & w' & inner & E & Hm & Hp).
  cbv zeta. rewrite E. cbn [fst snd]. rewrite Hm. clear Hm E.
  open_paths; split.
  all: try (intros m Hmeth; destruct Hmeth as [-> | [-> | [-> | [-> | ->]]]]).
  all: scan;
       rewrite ?call_count_cons, ?call_count_app, ?call_count_retries, ?call_count_cons;
       cbn [is_call_of method_id Nat.eqb]; unfold call_count; simpl; lia.
Qed.

End HostFacts.

Section QuiesceOrder.

Context (env : Env) (self : Patcher).

(** A run that has found the datastore, and whose upload has not failed,
    goes through steps 7 and 8. *)
Lemma quiesce_reached host w :
  ∃ r w',
    process_host env self host w = (Ok r, w')
    ∧ let ms := markers (events_since w w') in
      EvRet m_find_boot_datastore true ∈ ms →
      EvRet m_copy_patch_via_scp false ∉ ms →
      (EvRet m_is_host_in_cluster true ∈ ms
       ∧ ∃ pre b post,
           ms = pre ++ EvCall m_enter_maintenance_mode
                    :: EvRet m_enter_maintenance_mode b :: post
           ∧ (b = true →
                ∃ b' t, post = EvCall m_check_and_shutdown_vms
                               :: EvRet m_check_and_shutdown_vms b' :: t))
      ∨ (EvRet m_is_host_in_cluster false ∈ ms
         ∧ ∃ pre b' b post,
             ms = pre ++ EvCall m_check_and_shutdown_vms
                      :: EvRet m_check_and_shutdown_vms b'
                      :: EvCall m_enter_maintenance_mode
                      :: EvRet m_enter_maintenance_mode b :: post).
Proof.
  destruct (host_run env self host w) as (r & w' & inner & E & Hm & Hp).
  exists r, w'. split; [exact E|]. cbv zeta. rewrite Hm. clear Hm E.
  intros Hfound Hcopied. apply ret_in in Hfound.
  assert (existsb (is_ret_of m_copy_patch_via_scp false)
            (EvCall m_process_host :: inner ++ [EvRet m_process_host r.1]) = false)
    as Hnot.
  { destruct (existsb (is_ret_of m_copy_patch_via_scp false) _) eqn:Hex; [|done].
    exfalso. by apply Hcopied, ret_in. }
  clear Hcopied.
  destruct Hp as [[-> ->] | [[-> ->] | (c & en & ws & ssh & rest & -> & Hrest)]].
  { cbn in Hfound. discriminate Hfound. }
  { cbn in Hfound. discriminate Hfound. }
  destruct ssh.
  2: { destruct Hrest as [-> ->]. cbn in Hfound. destruct c; discriminate Hfound. }
  destruct Hrest
    as [[-> ->] | [(_ & -> & ->) | (copy & q & fatal & rest' & Hcopy & Hq & -> & _)]].
  { cbn in Hfound. destruct c; discriminate Hfound. }
  { cbn in Hnot. rewrite ?orb_true_r in Hnot. destruct c; discriminate Hnot. }
  set (pre := EvCall m_process_host
              :: (invoked m_connect_api true ++ invoked m_get_host_system true
                  ++ invoked m_is_host_in_cluster c
                  ++ invoked m_enable_services_via_api en
                  ++ invoked m_wait_for_ssh ws ++ invoked m_ssh_connect true
                  ++ invoked m_find_boot_datastore true ++ copy)).
  assert (∀ tail,
            EvCall m_process_host
            :: ((invoked m_connect_api true ++ invoked m_get_host_system true
                 ++ invoked m_is_host_in_cluster c
                 ++ invoked m_enable_services_via_api en
                 ++ invoked m_wait_for_ssh ws ++ invoked m_ssh_connect true
                 ++ invoked m_find_boot_datastore true ++ copy ++ q ++ rest') ++ tail)
            = pre ++ q ++ rest' ++ tail) as Hsplit.
  { intros tail. unfold pre. cbn [app invoked]. by rewrite <- !app_assoc. }
  rewrite Hsplit.
  assert (EvRet m_is_host_in_cluster c ∈ pre ++ q ++ rest' ++ [EvRet m_process_host r.1])
    as Hc.
  { apply elem_of_app. left. unfold pre. cbn [app invoked]. find_elem. }
  unfold quiesce_markers in Hq. destruct c.
  - left. split; [exact Hc|].
    destruct Hq as [[-> ->] | (b & -> & ->)].
    + exists pre, false, (rest' ++ [EvRet m_process_host r.1]). split; [done|]. done.
    + exists pre, true,
        (EvCall m_check_and_shutdown_vms :: EvRet m_check_and_shutdown_vms b
         :: rest' ++ [EvRet m_process_host r.1]).
      split; [done|]. intros _. by eexists _, _.
  - right. split; [exact Hc|].
    destruct Hq as (b & [[-> ->] | [-> ->]]).
    + by exists pre, b, false, (rest' ++ [EvRet m_process_host r.1]).
    + by exists pre, b, true, (rest' ++ [EvRet m_process_host r.1]).
Qed.

(** C1.  A host run that has found the datastore, and whose upload has
    not failed, goes through both steps, in the order of its topology:
    a clustered run invokes [enter_maintenance_mode] and, when that
    returned [True], workload shutdown right after it; a standalone run
    invokes workload shutdown and, whatever it returned,
    [enter_maintenance_mode] right after it.  Wherever these methods are
    invoked the order is that one: in a clustered run workload shutdown
    is invoked only after [enter_maintenance_mode] has returned [True],
    in a standalone run [enter_maintenance_mode] only after workload
    shutdown has returned.  In both, a failure of
    [enter_maintenance_mode] ends the run with that reason and no further
    method is invoked, while the result of workload shutdown, whatever
    it is, is followed by the next step. *)
Theorem quiesce_order_follows_topology host w :
  let out := process_host env self host w in
  let ms := markers (events_since w out.2) in
  ∃ r, out.1 = Ok r ∧
    (EvRet m_is_host_in_cluster true ∈ ms →
       (∀ pre post, ms = pre ++ EvCall m_check_and_shutdown_vms :: post →
                    EvRet m_enter_maintenance_mode true ∈ pre)
       ∧ (∀ pre post, ms = pre ++ EvRet m_enter_maintenance_mode true :: post →
                      ∃ t, post = EvCall m_check_and_shutdown_vms :: t)
       ∧ (∀ pre post, ms = pre ++ EvRet m_enter_maintenance_mode false :: post →
                      no_call post ∧ r = (false, maintenance_failure))
       ∧ (∀ pre b post, ms = pre ++ EvRet m_check_and_shutdown_vms b :: post →
                        ∃ t, post = EvCall m_install_patch_via_ssh :: t
                             ∨ post = EvCall m_verify_patch_installation :: t))
    ∧ (EvRet m_is_host_in_cluster false ∈ ms →
         (∀ pre post, ms = pre ++ EvCall m_enter_maintenance_mode :: post →
                      ∃ b, EvRet m_check_and_shutdown_vms b ∈ pre)
         ∧ (∀ pre b post, ms = pre ++ EvRet m_check_and_shutdown_vms b :: post →
                          ∃ t, post = EvCall m_enter_maintenance_mode :: t)
         ∧ (∀ pre post, ms = pre ++ EvRet m_enter_maintenance_mode false :: post →
                        no_call post ∧ r = (false, maintenance_failure)))
    ∧ (EvRet m_find_boot_datastore true ∈ ms →
       EvRet m_copy_patch_via_scp false ∉ ms →
       (EvRet m_is_host_in_cluster true ∈ ms
        ∧ ∃ pre b post,
            ms = pre ++ EvCall m_enter_maintenance_mode
                     :: EvRet m_enter_maintenance_mode b :: post
            ∧ (b = true →
                 ∃ b' t, post = EvCall m_check_and_shutdown_vms
                                :: EvRet m_check_and_shutdown_vms b' :: t))
       ∨ (EvRet m_is_host_in_cluster false ∈ ms
          ∧ ∃ pre b' b post,
              ms = pre ++ EvCall m_check_and_shutdown_vms
                       :: EvRet m_check_and_shutdown_vms b'
                       :: EvCall m_enter_maintenance_mode
                       :: EvRet m_enter_maintenance_mode b :: post)).
Proof.
  cbv zeta.
  destruct (quiesce_order_where_marked env self host w) as (r & Hr & Hcl & Hst).
  destruct (quiesce_reached host w) as (r' & w' & E & Hreach).
  exists r. rewrite E in *. cbn [fst snd] in *.
  split_and!; [exact Hr | exact Hcl | exact Hst | exact Hreach].
Qed.

End QuiesceOrder.

Section ServiceFacts.

Import Services.

Context (host : Host).

Lemma find_service_key name services s :
  find_service name services = Some s → key s = name.
Proof.
  unfold find_service. intros H. apply List.find_some in H as [_ H].
  by apply String.eqb_eq.
Qed.

Lemma find_service_none name services :
  find_service name services = None ↔ name ∉ map key services.
Proof.
  unfold find_service. induction services as [|s ss IH]; simpl.
  - split; [intros _ H; by apply elem_of_nil in H | done].
  - destruct (String.eqb (key s) name) eqn:E.
    + apply String.eqb_eq in E. split; [done|]. intros H. destruct H. rewrite E. left.
    + apply String.eqb_neq in E. rewrite IH, not_elem_of_cons.
      split; [intros H; split; [by intros -> | done] | by intros [_ H]].
Qed.

Lemma enable_service_round acc name log :
  ∃ acc' calls,
    enable_service host acc name log = (Done acc', log ++ calls)
    ∧ round_calls true name calls
    ∧ (acc' = acc ∨ acc' = acc ++ [name])
    ∧ (acc' = acc ++ [name] ↔
       ∃ services s, service_info host log = Done services
                     ∧ find_service name services = Some s).
Proof.
  unfold enable_service, caught, then_run, read_services.
  destruct (service_info host log) as [services|e] eqn:Hinfo.
  2: { exists acc, []. rewrite app_nil_r.
       split_and!; [done | by split; [constructor | simpl; lia] | by left |].
       split; [|by intros (? & ? & ? & _)].
       intros H. apply (f_equal length) in H. rewrite length_app in H. simpl in H. lia. }
  destruct (find_service name services) as [s|] eqn:Hfind.
  2: { exists acc, []. rewrite app_nil_r.
       split_and!; [done | by split; [constructor | simpl; lia] | by left |].
       split; [|by intros (? & ? & [= <-] & ?); congruence].
       intros H. apply (f_equal length) in H. rewrite length_app in H. simpl in H. lia. }
  pose proof (find_service_key _ _ _ Hfind) as Hkey. rewrite Hkey.
  destruct (running s), (policy_is s "on"); cbn [negb]; unfold call, unit_run;
    repeat match goal with
           | |- context [accepts host ?l ?c] => destruct (accepts host l c)
           end;
    eexists (acc ++ [name]), _;
    (split_and!;
     [ rewrite <- ?app_assoc; try reflexivity; by rewrite app_nil_r
     | split; [repeat (apply Forall_cons_2; [auto|]); constructor | simpl; lia]
     | by right
     | split; [intros _; by exists services, s | done] ]).
Qed.

Lemma disable_service_round acc name log :
  ∃ acc' calls,
    disable_service host acc name log = (Done acc', log ++ calls)
    ∧ round_calls false name calls
    ∧ (acc' = acc ∨ acc' = acc ++ [name])
    ∧ (acc' = acc ++ [name] ↔
       ∃ services s, service_info host log = Done services
                     ∧ find_service name services = Some s).
Proof.
  unfold disable_service, caught, then_run, read_services.
  destruct (service_info host log) as [services|e] eqn:Hinfo.
  2: { exists acc, []. rewrite app_nil_r.
       split_and!; [done | by split; [constructor | simpl; lia] | by left |].
       split; [|by intros (? & ? & ? & _)].
       intros H. apply (f_equal length) in H. rewrite length_app in H. simpl in H. lia. }
  destruct (find_service name services) as [s|] eqn:Hfind.
  2: { exists acc, []. rewrite app_nil_r.
       split_and!; [done | by split; [constructor | simpl; lia] | by left |].
       split; [|by intros (? & ? & [= <-] & ?); congruence].
       intros H. apply (f_equal length) in H. rewrite length_app in H. simpl in H. lia. }
  pose proof (find_service_key _ _ _ Hfind) as Hkey. rewrite Hkey.
  destruct (running s), (policy_is s "off"); cbn [negb]; unfold call, unit_run;
    repeat match goal with
           | |- context [accepts host ?l ?c] => destruct (accepts host l c)
           end;
    eexists (acc ++ [name]), _;
    (split_and!;
     [ rewrite <- ?app_assoc; try reflexivity; by rewrite app_nil_r
     | split; [repeat (apply Forall_cons_2; [auto|]); constructor | simpl; lia]
     | by right
     | split; [intros _; by exists services, s | done] ]).
Qed.

(** The two rounds of a switch. *)
Lemma switch_rounds (body : list string → string → Run (list string)) start :
  (∀ acc name log,
     ∃ acc' calls,
       body acc name log = (Done acc', log ++ calls)
       ∧ round_calls start name calls
       ∧ (acc' = acc ∨ acc' = acc ++ [name])
       ∧ (acc' = acc ++ [name] ↔
          ∃ services s, service_info host log = Done services
                        ∧ find_service name services = Some s)) →
  service_system host = Done true →
  ∃ calls1 calls2 found1 found2,
    switch_services host body = (found1 || found2, calls1 ++ calls2)
    ∧ round_calls start "TSM" calls1
    ∧ round_calls start "TSM-SSH" calls2
    ∧ (found1 = true ↔
       ∃ services s, service_info host [] = Done services
                     ∧ find_service "TSM" services = Some s)
    ∧ (found2 = true ↔
       ∃ services s, service_info host calls1 = Done services
                     ∧ find_service "TSM-SSH" services = Some s).
Proof.
  intros Hbody Hsys. unfold switch_services. rewrite Hsys.
  unfold service_names, each, then_run.
  destruct (Hbody [] "TSM" []) as (acc1 & calls1 & -> & Hr1 & Hacc1 & Hf1).
  destruct (Hbody acc1 "TSM-SSH" ([] ++ calls1)) as (acc2 & calls2 & -> & Hr2 & Hacc2 & Hf2).
  unfold unit_run. simpl app in *.
  exists calls1, calls2,
    (bool_decide (acc1 = ["TSM"])), (bool_decide (acc2 = acc1 ++ ["TSM-SSH"])).
  split_and!; [|done|done| |].
  - f_equal. destruct Hacc1 as [-> | ->], Hacc2 as [-> | ->]; done.
  - rewrite bool_decide_eq_true. exact Hf1.
  - rewrite bool_decide_eq_true. exact Hf2.
Qed.

(** X17.  The two switches address the services [TSM] and [TSM-SSH] only.
    Enabling sends nothing but [Start] and [UpdateServicePolicy(.., 'on')],
    disabling nothing but [Stop] and [UpdateServicePolicy(.., 'off')]; each
    sends at most four calls.  A host whose service system is missing, or
    cannot be read, gets no call and the result [False]. *)
Theorem service_switches_touch_the_shell_services_only :
  let enabled := enable_services_via_api host in
  let disabled := disable_services_via_api host in
  Forall (switch_call true) enabled.2
  ∧ Forall (switch_call false) disabled.2
  ∧ (length enabled.2 ≤ 4)%nat ∧ (length disabled.2 ≤ 4)%nat
  ∧ (service_system host ≠ Done true →
       enabled = (false, []) ∧ disabled = (false, [])).
Proof.
  assert (∀ body start,
            (∀ acc name log,
               ∃ acc' calls,
                 body acc name log = (Done acc', log ++ calls)
                 ∧ round_calls start name calls
                 ∧ (acc' = acc ∨ acc' = acc ++ [name])
                 ∧ (acc' = acc ++ [name] ↔
                    ∃ services s, service_info host log = Done services
                                  ∧ find_service name services = Some s)) →
            let out := switch_services host body in
            Forall (switch_call start) out.2
            ∧ (length out.2 ≤ 4)%nat
            ∧ (service_system host ≠ Done true → out = (false, []))) as Hgen.
  { intros body start Hbody. cbv zeta.
    destruct (service_system host) as [[]|e] eqn:Hsys.
    2,3: unfold switch_services; rewrite Hsys; cbn [fst snd];
         (split_and!; [constructor | simpl; lia | done]).
    destruct (switch_rounds body start Hbody Hsys)
      as (calls1 & calls2 & f1 & f2 & -> & [Hc1 Hl1] & [Hc2 Hl2] & _).
    cbn [fst snd]. split_and!; [| rewrite length_app; lia | done].
    apply Forall_app. split; (eapply Forall_impl; [eassumption|]); intros c Hc; cbv beta in Hc.
    - exists "TSM". split; [apply list_elem_of_here | done].
    - exists "TSM-SSH". split; [apply list_elem_of_further, list_elem_of_here | done]. }
  cbv zeta.
  destruct (Hgen _ true (enable_service_round)) as (H1 & H2 & H3).
  destruct (Hgen _ false (disable_service_round)) as (H4 & H5 & H6).
  split_and!; [done | done | done | done |]. intros H. split; [by apply H3 | by apply H6].
Qed.

(** X18.  The result of a switch tells whether a service was found, not
    whether it was switched: on a host that lists the same services
    whatever was called, the result is [True] exactly when [TSM] or
    [TSM-SSH] is listed, whether the calls were accepted or raised. *)
Theorem service_switch_result_ignores_failed_calls keys :
  service_system host = Done true →
  (∀ log, ∃ services, service_info host log = Done services ∧ map key services = keys) →
  (enable_services_via_api host).1 = bool_decide ("TSM" ∈ keys ∨ "TSM-SSH" ∈ keys)
  ∧ (disable_services_via_api host).1 = bool_decide ("TSM" ∈ keys ∨ "TSM-SSH" ∈ keys).
Proof.
  intros Hsys Hkeys.
  assert (∀ body start,
            (∀ acc name log,
               ∃ acc' calls,
                 body acc name log = (Done acc', log ++ calls)
                 ∧ round_calls start name calls
                 ∧ (acc' = acc ∨ acc' = acc ++ [name])
                 ∧ (acc' = acc ++ [name] ↔
                    ∃ services s, service_info host log = Done services
                                  ∧ find_service name services = Some s)) →
            (switch_services host body).1
            = bool_decide ("TSM" ∈ keys ∨ "TSM-SSH" ∈ keys)) as Hgen.
  { intros body start Hbody.
    destruct (switch_rounds body start Hbody Hsys)
      as (calls1 & calls2 & f1 & f2 & -> & _ & _ & Hf1 & Hf2).
    cbn [fst].
    assert (∀ name log,
              (∃ services s, service_info host log = Done services
                             ∧ find_service name services = Some s) ↔ name ∈ keys) as Hin.
    { intros name log. destruct (Hkeys log) as (services & Hinfo & <-). split.
      - intros (ss & s & Hss & Hfind). rewrite Hinfo in Hss. injection Hss as <-.
        destruct (decide (name ∈ map key services)) as [|Hno]; [done|].
        apply find_service_none in Hno. congruence.
      - intros Hname. exists services.
        destruct (find_service name services) as [s|] eqn:Hfind; [by exists s|].
        apply find_service_none in Hfind. done. }
    rewrite Hin in Hf1. rewrite Hin in Hf2.
    destruct (f1 || f2) eqn:E; symmetry.
    - apply bool_decide_eq_true. apply orb_true_iff in E as [E | E];
        [left; by apply Hf1 | right; by apply Hf2].
    - apply bool_decide_eq_false. apply orb_false_iff in E as [E1 E2].
      intros [H | H]; [apply Hf1 in H | apply Hf2 in H]; congruence. }
  split.
  - apply (Hgen _ true). apply enable_service_round.
  - apply (Hgen _ false). apply disable_service_round.
Qed.

End ServiceFacts.

Section ObedientHost.

Import Services.

Lemma key_affect c s : key (affect c s) = key s.
Proof. destruct c; simpl; by destruct (String.eqb _ _). Qed.

Lemma find_service_obey name ss c :
  find_service name (obey ss c) = affect c <$> find_service name ss.
Proof.
  unfold find_service, obey. induction ss as [|s ss IH]; simpl; [done|].
  rewrite key_affect. by destruct (String.eqb (key s) name).
Qed.

Lemma fold_obey_snoc log c initial :
  fold_left obey (log ++ [c]) initial = obey (fold_left obey log initial) c.
Proof. by rewrite fold_left_app. Qed.

Lemma enable_on_obedient initial acc name log :
  enable_service (obedient initial) acc name log
  = match find_service name (fold_left obey log initial) with
    | None => (Done acc, log)
    | Some s => (Done (acc ++ [name]), log ++ round_of true s)
    end.
Proof.
  unfold enable_service, caught, then_run, read_services, round_of. simpl service_info.
  cbv beta iota.
  destruct (find_service name (fold_left obey log initial)) as [s|]; [|done].
  destruct (running s), (policy_is s "on"); simpl;
    rewrite ?bool_decide_eq_true_2, ?bool_decide_eq_false_2 by done;
    rewrite ?app_nil_r, <- ?app_assoc; reflexivity.
Qed.

Lemma disable_on_obedient initial acc name log :
  disable_service (obedient initial) acc name log
  = match find_service name (fold_left obey log initial) with
    | None => (Done acc, log)
    | Some s => (Done (acc ++ [name]), log ++ round_of false s)
    end.
Proof.
  unfold disable_service, caught, then_run, read_services, round_of. simpl service_info.
  cbv beta iota.
  destruct (find_service name (fold_left obey log initial)) as [s|]; [|done].
  destruct (running s), (policy_is s "off"); simpl;
    rewrite ?bool_decide_eq_true_2, ?bool_decide_eq_false_2 by done;
    rewrite ?app_nil_r, <- ?app_assoc; reflexivity.
Qed.

Lemma policy_is_true s v : policy_is s v = true ↔ policy s = Some v.
Proof.
  unfold policy_is. destruct (policy s) as [p|]; [|done].
  rewrite String.eqb_eq. split; [by intros -> | by intros [= ->]].
Qed.

(** A round switches the service it read. *)
Lemma round_switches start ss name s :
  find_service name ss = Some s →
  ∃ s', find_service name (fold_left obey (round_of start s) ss) = Some s'
        ∧ switched start s'.
Proof.
  intros Hfind. pose proof (find_service_key _ _ _ Hfind) as Hkey.
  unfold round_of, switched. rewrite fold_left_app.
  destruct (policy_is s (if start then "on" else "off")) eqn:Hpol;
    case_bool_decide as Hrun; simpl fold_left;
    rewrite ?find_service_obey, Hfind; simpl; eexists; (split; [reflexivity|]);
    destruct start; simpl; rewrite ?String.eqb_refl; simpl; rewrite ?String.eqb_refl;
    simpl; rewrite ?policy_is_true in Hpol; split; try done;
    by destruct (running s).
Qed.

(** A round leaves the services of other names as they were. *)
Lemma round_spares_others start ss name s other :
  key s = name → other ≠ name →
  find_service other (fold_left obey (round_of start s) ss) = find_service other ss.
Proof.
  intros Hkey Hne.
  assert (∀ c ss', (c = Start name ∨ c = Stop name ∨ ∃ p, c = UpdateServicePolicy name p) →
            find_service other (obey ss' c) = find_service other ss') as Hother.
  { intros c ss' Hc. rewrite find_service_obey.
    destruct (find_service other ss') as [s'|] eqn:Hf'; [|done].
    apply find_service_key in Hf'. simpl. f_equal.
    assert (String.eqb (key s') name = false) as Hk
      by (apply String.eqb_neq; congruence).
    destruct Hc as [-> | [-> | [p ->]]]; simpl; by rewrite Hk. }
  unfold round_of. rewrite fold_left_app, Hkey.
  destruct (policy_is s _); case_bool_decide; destruct start; simpl;
    rewrite ?Hother; eauto.
Qed.

(** A service that is switched already gets no call. *)
Lemma round_of_switched start s : switched start s → round_of start s = [].
Proof.
  intros [Hrun Hpol]. unfold round_of.
  rewrite bool_decide_eq_true_2 by done.
  by rewrite (proj2 (policy_is_true _ _) Hpol).
Qed.

Lemma is_some_find_obey name ss calls :
  is_some (find_service name (fold_left obey calls ss)) = is_some (find_service name ss).
Proof.
  revert ss. induction calls as [|c calls IH]; intros ss; simpl; [done|].
  rewrite IH, find_service_obey. by destruct (find_service name ss).
Qed.

(** A switch on a host that obeys. *)
Lemma switch_on_obedient (body : Host → list string → string → Run (list string)) start :
  (∀ initial acc name log,
     body (obedient initial) acc name log
     = match find_service name (fold_left obey log initial) with
       | None => (Done acc, log)
       | Some s => (Done (acc ++ [name]), log ++ round_of start s)
       end) →
  ∀ initial,
    let out := switch_services (obedient initial) (body (obedient initial)) in
    let after := fold_left obey out.2 initial in
    (∀ name s, name ∈ service_names → find_service name after = Some s →
               switched start s)
    ∧ (∀ other, other ∉ service_names →
                find_service other after = find_service other initial)
    ∧ out.1 = is_some (find_service "TSM" initial)
              || is_some (find_service "TSM-SSH" initial)
    ∧ ((∀ name s, name ∈ service_names → find_service name initial = Some s →
                  switched start s) → out.2 = []).
Proof.
  intros Hbody initial. cbv zeta.
  destruct (switch_services (obedient initial) (body (obedient initial)))
    as [res calls] eqn:E.
  cbn [fst snd].
  unfold switch_services in E. simpl service_system in E. cbv beta iota in E.
  unfold service_names, each, then_run in E. rewrite Hbody in E. simpl fold_left in E.
  assert ("TSM" ∈ ["TSM"; "TSM-SSH"]) as Hin1 by apply list_elem_of_here.
  assert ("TSM-SSH" ∈ ["TSM"; "TSM-SSH"]) as Hin2
    by apply list_elem_of_further, list_elem_of_here.
  assert (∀ other, other ∉ ["TSM"; "TSM-SSH"] → other ≠ "TSM" ∧ other ≠ "TSM-SSH")
    as Hout.
  { intros other Ho. split; intros ->; by apply Ho. }
  destruct (find_service "TSM" initial) as [s1|] eqn:Hf1.
  - pose proof (find_service_key _ _ _ Hf1) as Hk1.
    destruct (round_switches start initial "TSM" s1 Hf1) as (s1' & Hf1' & Hs1).
    rewrite Hbody in E. simpl app in E.
    set (mid := fold_left obey (round_of start s1) initial) in *.
    assert (find_service "TSM-SSH" mid = find_service "TSM-SSH" initial) as Hmid
      by (by apply (round_spares_others start initial "TSM" s1 "TSM-SSH")).
    destruct (find_service "TSM-SSH" mid) as [s2|] eqn:Hf2.
    + pose proof (find_service_key _ _ _ Hf2) as Hk2.
      destruct (round_switches start mid "TSM-SSH" s2 Hf2) as (s2' & Hf2' & Hs2).
      unfold unit_run in E. injection E as <- <-. rewrite fold_left_app. fold mid.
      split_and!.
      * intros name s [-> | [-> | H]%elem_of_cons]%elem_of_cons Hfind.
        -- rewrite (round_spares_others start mid "TSM-SSH" s2 "TSM") in Hfind by done.
           congruence.
        -- congruence.
        -- by apply elem_of_nil in H.
      * intros other [Ho1 Ho2]%Hout.
        rewrite (round_spares_others start mid "TSM-SSH" s2 other) by done.
        by apply (round_spares_others start initial "TSM" s1 other).
      * by rewrite <- Hmid.
      * intros Hdone.
        assert (round_of start s1 = []) as Hr1 by apply round_of_switched, (Hdone "TSM" s1 Hin1 Hf1).
        rewrite Hr1. simpl app.
        apply round_of_switched, (Hdone "TSM-SSH" s2 Hin2). by rewrite <- Hmid.
    + unfold unit_run in E. injection E as <- <-. fold mid. split_and!.
      * intros name s [-> | [-> | H]%elem_of_cons]%elem_of_cons Hfind.
        -- congruence.
        -- congruence.
        -- by apply elem_of_nil in H.
      * intros other [Ho1 Ho2]%Hout.
        by apply (round_spares_others start initial "TSM" s1 other).
      * by rewrite <- Hmid.
      * intros Hdone. apply round_of_switched, (Hdone "TSM" s1 Hin1 Hf1).
  - rewrite Hbody in E. simpl fold_left in E.
    destruct (find_service "TSM-SSH" initial) as [s2|] eqn:Hf2.
    + pose proof (find_service_key _ _ _ Hf2) as Hk2.
      destruct (round_switches start initial "TSM-SSH" s2 Hf2) as (s2' & Hf2' & Hs2).
      unfold unit_run in E. injection E as <- <-. simpl app. split_and!.
      * intros name s [-> | [-> | H]%elem_of_cons]%elem_of_cons Hfind.
        -- rewrite (round_spares_others start initial "TSM-SSH" s2 "TSM") in Hfind by done.
           congruence.
        -- congruence.
        -- by apply elem_of_nil in H.
      * intros other [Ho1 Ho2]%Hout.
        by apply (round_spares_others start initial "TSM-SSH" s2 other).
      * done.
      * intros Hdone. apply round_of_switched, (Hdone "TSM-SSH" s2 Hin2 Hf2).
    + unfold unit_run in E. injection E as <- <-. simpl. split_and!.
      * intros name s [-> | [-> | H]%elem_of_cons]%elem_of_cons Hfind.
        -- congruence.
        -- congruence.
        -- by apply elem_of_nil in H.
      * done.
      * done.
      * done.
Qed.

(** X19.  On a host that obeys every call, enabling leaves [TSM] and
    [TSM-SSH], where they exist, running with the policy [on]; enabling
    again sends no call and gives the same result; disabling then leaves
    them stopped with the policy [off]; the services of other names are
    never changed. *)
Theorem switches_compose_on_obedient_host initial :
  let on := enable_services_via_api (obedient initial) in
  let up := fold_left obey on.2 initial in
  let again := enable_services_via_api (obedient up) in
  let off := disable_services_via_api (obedient up) in
  let down := fold_left obey off.2 up in
  (∀ name s, name ∈ service_names → find_service name up = Some s → switched true s)
  ∧ again = (on.1, [])
  ∧ (∀ name s, name ∈ service_names → find_service name down = Some s →
               switched false s)
  ∧ (∀ other, other ∉ service_names →
              find_service other down = find_service other initial).
Proof.
  intros on up again off down.
  destruct (switch_on_obedient (λ h, enable_service h) true enable_on_obedient initial)
    as (Hup & Hspare1 & Hres1 & _).
  destruct (switch_on_obedient (λ h, enable_service h) true enable_on_obedient up)
    as (_ & _ & Hres2 & Hnone).
  destruct (switch_on_obedient (λ h, disable_service h) false disable_on_obedient up)
    as (Hdown & Hspare2 & _ & _).
  fold (enable_services_via_api (obedient initial)) in Hup, Hspare1, Hres1.
  fold (enable_services_via_api (obedient up)) in Hres2, Hnone.
  fold (disable_services_via_api (obedient up)) in Hdown, Hspare2.
  split_and!.
  - exact Hup.
  - apply injective_projections; simpl.
    + unfold again. rewrite Hres2. fold on in Hres1. rewrite Hres1.
      unfold up. by rewrite !is_some_find_obey.
    + apply Hnone. exact Hup.
  - exact Hdown.
  - intros other Hother. unfold down, off.
    etrans; [exact (Hspare2 other Hother)|]. exact (Hspare1 other Hother).
Qed.

End ObedientHost.

Section PreflightFacts.

Context (env : Env) (full_name : World → Reply string).

Lemma preflight_run host w :
  ∃ ok msg w',
    Preflight.test_connection env full_name host w = (Ok (ok, msg), w')
    ∧ preflight_verdict host ok msg (interactions (events_since w w')).
Proof.
  unfold Preflight.test_connection, Preflight.product_full_name, ssh_connect,
    _connect_api, _get_host_system, ssh_close, disconnect, traced, mark.
  repeat first [rewrite ssh_execute_eq | run_step].
  all: try discriminate.
  all: eexists _, _, _; (split; [reflexivity|]).
  all: unfold after_ssh; read_trace.
  all: repeat match goal with
              | H : _ = Done _ |- _ => clear H
              | H : _ = Fault _ |- _ => clear H
              | H : is_some (Some _) = true |- _ => clear H
              | H : is_some (head ?l) = _ |- _ => destruct l; simplify_eq/=
              end.
  all: repeat match goal with
              | |- context [ssh_event _ _ ?r] => destruct r as [[? ?] ?]; simpl
              end.
  all: unfold preflight_verdict; split_and!.
  all: try (repeat (apply Forall_cons_2; [by simpl|]); by constructor).
  all: try done.
  all: try (intros _; by eexists).
  all: try (intros [? H] [? H'];
            apply list_elem_of_In in H; apply list_elem_of_In in H'; simpl in H, H';
            by intuition discriminate).
  all: split; [intros Hok; first [discriminate Hok | simpl; eauto 6]
              | intros [[? H]|[[? H]|(? & ? & H)]]; by simpl in H].
Qed.

(** X20.  The pre-flight test of a host never raises and does nothing but
    open and close the two sessions of the host, ask for the version and
    look the host up.  It fails exactly when closing the remote shell,
    reading the product name or disconnecting raises, and then its last
    interaction is that close, that disconnect, or the look-up that found
    the host.  A host on which both connection attempts fail passes the
    test, after these two attempts alone. *)
Theorem preflight_passes_unreachable_host host w :
  let out := Preflight.test_connection env full_name host w in
  let io := interactions (events_since w out.2) in
  ∃ ok msg,
    out.1 = Ok (ok, msg)
    ∧ Forall (preflight_step host) io
    ∧ (ok = true → msg = "Тест пройден")
    ∧ (ok = false → ∃ e, msg = "Ошибка теста: " +:+ e)
    ∧ (ok = false ↔
         (∃ e, last io = Some (EvSshClose (Fault e)))
         ∨ (∃ e, last io = Some (EvDisconnect (Fault e)))
         ∨ (∃ h view, last io = Some (EvHostView (Done (h :: view)))))
    ∧ ((∃ e, EvSshConnect (ip host) (ssh_port host) (Fault e) ∈ io) →
       (∃ e, EvSmartConnect (ip host) (api_port host) (Fault e) ∈ io) →
       ok = true ∧ length io = 2%nat).
Proof.
  cbv zeta. destruct (preflight_run host w) as (ok & msg & w' & -> & H).
  exists ok, msg. split; [done|]. exact H.
Qed.

End PreflightFacts.

Section ConfigFacts.

Import Config.

Context (path_exists : string → bool)
        (read : string → Reply Parsed)
        (int : string → Reply Z)
        (basename : string → string).

Lemma get_or_loaded config section option fallback value :
  get_or config section option fallback = Loaded value →
  option_or config section option fallback value.
Proof.
  unfold get_or, option_or.
  destruct (get config section option) as [[v|]|e]; intros H; simplify_eq; eauto.
Qed.

Lemma item_loaded config section option value :
  item config section option = Loaded value →
  get config section option = Done (Some value).
Proof.
  unfold item. destruct (get config section option) as [[v|]|e]; intros H; by simplify_eq.
Qed.

Lemma to_int_loaded value n : to_int int value = Loaded n → int value = Done n.
Proof. unfold to_int. destruct (int value); intros H; by simplify_eq. Qed.

Lemma and_then_loaded {A B} (m : Outcome A) (k : A → Outcome B) b :
  and_then m k = Loaded b → ∃ a, m = Loaded a ∧ k a = Loaded b.
Proof. destruct m as [a|e]; simpl; [eauto | done]. Qed.

Lemma load_host_describes config section host :
  load_host int config section = Loaded host → describes int config section host.
Proof.
  unfold load_host. destruct (host_fields int config section) as [h|e] eqn:E.
  2: { by destruct e. }
  intros [= ->]. unfold host_fields in E.
  repeat match type of E with
         | and_then _ _ = Loaded _ =>
             let H := fresh "H" in
             apply and_then_loaded in E as (? & H & E)
         end.
  injection E as <-. simpl.
  repeat match goal with
         | H : and_then _ _ = Loaded _ |- _ =>
             let H' := fresh "H" in
             apply and_then_loaded in H as (? & H' & H)
         end.
  unfold describes. simpl.
  repeat match goal with
         | H : get_or _ _ _ _ = Loaded _ |- _ => apply get_or_loaded in H
         | H : item _ _ _ = Loaded _ |- _ => apply item_loaded in H
         | H : to_int _ _ = Loaded _ |- _ => apply to_int_loaded in H
         end.
  split_and!; eauto.
Qed.

(** The loop over the sections adds one host for each section that
    describes a host, in order. *)
Lemma load_hosts_loaded config todo acc loaded :
  load_hosts int config todo acc = Loaded loaded →
  ∃ new, loaded = acc ++ new
         ∧ Forall2 (describes int config)
             (List.filter (λ section, PyStr.startswith section "host_") todo) new.
Proof.
  revert acc. induction todo as [|section rest IH]; intros acc; simpl.
  - intros [= <-]. exists []. split; [by rewrite app_nil_r | constructor].
  - destruct (PyStr.startswith section "host_") eqn:Hs.
    + intros (host & Hh & Hr)%and_then_loaded.
      destruct (IH _ Hr) as (new & -> & Hall).
      exists (host :: new). split; [by rewrite <- app_assoc|].
      constructor; [by apply load_host_describes | done].
    + apply IH.
Qed.

Lemma load_hosts_app config pre post acc :
  load_hosts int config (pre ++ post) acc
  = and_then (load_hosts int config pre acc) (load_hosts int config post).
Proof.
  revert acc. induction pre as [|section pre IH]; intros acc; simpl; [done|].
  destruct (PyStr.startswith section "host_"); [|apply IH].
  destruct (load_host int config section) as [host|e]; simpl; [apply IH | done].
Qed.

Lemma load_hosts_good config pre acc :
  Forall (λ section, PyStr.startswith section "host_" = true →
                     ∃ host, load_host int config section = Loaded host) pre →
  ∃ loaded, load_hosts int config pre acc = Loaded loaded.
Proof.
  intros H. revert acc. induction H as [|section pre Hs _ IH]; intros acc; simpl.
  - by eexists.
  - destruct (PyStr.startswith section "host_"); [|apply IH].
    destruct Hs as [host ->]; [done|]. simpl. apply IH.
Qed.

Lemma load_host_lacks config section key :
  lacks config section key →
  load_host int config section = Failed (ValueError (missing_field section key)).
Proof.
  intros [[n Hn] [[-> Hip] | (-> & [i Hip] & [u Hu] & Hpw)]];
    unfold load_host, host_fields, get_or, item; rewrite Hn, Hip.
  - by destruct n.
  - rewrite Hu, Hpw. by destruct n, u.
Qed.

(** X21.  When [_load_config] succeeds, the file exists and was parsed, and
    the patcher holds at least one host: one for each section whose name
    begins with [host_], in the order of the file, with the section as
    the default name, [root] as the default user and 22 and 443 as the
    default ports.  The patch file is the stripped option [patch_file] of
    the section [patch], and the patch has a name, the base name of that
    file, exactly when that is not empty. *)
Theorem load_config_hosts_follow_sections config_file timeout self :
  _load_config path_exists read int basename config_file = Loaded (timeout, self) →
  ∃ config,
    path_exists config_file = true
    ∧ read config_file = Done config
    ∧ hosts self ≠ []
    ∧ Forall2 (describes int config) (host_sections config) (hosts self)
    ∧ (has_section config "patch" = false →
         patch_file self = None ∧ patch_name self = None)
    ∧ (has_section config "patch" = true →
         ∃ value, option_or config "patch" "patch_file" "" value
                  ∧ patch_file self = Some (PyStr.strip value)
                  ∧ patch_name self
                    = if PyStr.is_empty (PyStr.strip value) then None
                      else Some (basename (PyStr.strip value))).
Proof.
  unfold _load_config. destruct (path_exists config_file); [|done]. simpl.
  destruct (read config_file) as [config|e]; [|done].
  intros (loaded & Hl & (patch & Hp & H)%and_then_loaded)%and_then_loaded.
  apply load_hosts_loaded in Hl as (new & -> & Hall). simpl in *.
  destruct new as [|host new]; [done|]. injection H as <- <-.
  exists config. split_and!; try done.
  - unfold load_patch in Hp. intros Hno. rewrite Hno in Hp. by injection Hp as <-.
  - unfold load_patch in Hp. intros Hyes. rewrite Hyes in Hp.
    apply and_then_loaded in Hp as (value & Hv%get_or_loaded & Hp).
    injection Hp as <-. by exists value.
Qed.

(** X22.  A section of a host without [ip], or without [password], stops
    the load with a [ValueError] that names the section and the option:
    the first such section in the order of the file, when the sections of
    hosts before it are complete.  The sections after it, and the section
    [patch], are not looked at. *)
Theorem load_config_names_missing_option config_file config pre section post key :
  path_exists config_file = true →
  read config_file = Done config →
  sections config = pre ++ section :: post →
  Forall (λ earlier, PyStr.startswith earlier "host_" = true →
                     ∃ host, load_host int config earlier = Loaded host) pre →
  PyStr.startswith section "host_" = true →
  lacks config section key →
  _load_config path_exists read int basename config_file
  = Failed (ValueError ("Ошибка в конфиге: секция " +:+ section
                        +:+ " не содержит обязательного поля '" +:+ key +:+ "'")).
Proof.
  intros He Hr Hs Hpre Hhost Hlacks. unfold _load_config. rewrite He, Hr, Hs. simpl.
  rewrite load_hosts_app.
  destruct (load_hosts_good config pre [] Hpre) as [loaded ->]. simpl.
  rewrite Hhost, (load_host_lacks _ _ _ Hlacks). done.
Qed.

(** X23.  A configuration without a section of a host is refused with a
    [ValueError], after the option of the patch has been read.  A port
    that [int] refuses, [ssh_port] or, when [ssh_port] is an integer,
    [api_port], fails the load with the exception of [int]: that of the
    first such section, when the sections of hosts before it are
    complete. *)
Theorem load_config_refuses_no_hosts_and_bad_ports config_file config :
  path_exists config_file = true →
  read config_file = Done config →
  (host_sections config = [] →
   (∃ value, get config "patch" "patch_file" = Done value) →
   _load_config path_exists read int basename config_file
   = Failed (ValueError "Не найдены хосты в конфигурации"))
  ∧ (∀ pre section post value e,
       sections config = pre ++ section :: post →
       Forall (λ earlier, PyStr.startswith earlier "host_" = true →
                          ∃ host, load_host int config earlier = Loaded host) pre →
       PyStr.startswith section "host_" = true →
       (∃ host_name, get config section "name" = Done host_name) →
       (∃ host_ip, get config section "ip" = Done (Some host_ip)) →
       (∃ user, get config section "username" = Done user) →
       (∃ pass, get config section "password" = Done (Some pass)) →
       option_or config section "ssh_port" "22" value
       ∨ ((∃ shell port, option_or config section "ssh_port" "22" shell
                         ∧ int shell = Done port)
          ∧ option_or config section "api_port" "443" value) →
       int value = Fault e →
       _load_config path_exists read int basename config_file
       = Failed (ValueError e)).
Proof.
  intros He Hr. unfold _load_config. rewrite He, Hr. simpl. split.
  - intros Hnone [value Hv].
    assert (∀ todo acc,
              List.filter (λ section, PyStr.startswith section "host_") todo = [] →
              load_hosts int config todo acc = Loaded acc) as Hskip.
    { induction todo as [|section rest IH]; intros acc; simpl; [done|].
      destruct (PyStr.startswith section "host_"); [done | apply IH]. }
    rewrite (Hskip _ _ Hnone). simpl.
    unfold load_patch, get_or. rewrite Hv.
    by destruct (has_section config "patch"), value.
  - intros pre section post value e -> Hpre Hhost [n Hn] [i Hi] [u Hu] [p Hp] Hport Hint.
    rewrite load_hosts_app.
    destruct (load_hosts_good config pre [] Hpre) as [loaded ->]. simpl.
    rewrite Hhost.
    assert (∀ option fallback v,
              option_or config section option fallback v →
              get_or config section option fallback = Loaded v) as Hget.
    { intros option fallback v [H | [H ->]]; unfold get_or; by rewrite H. }
    assert (host_fields int config section = Failed (ValueError e)) as Hfields.
    { unfold host_fields, item.
      assert (∀ fallback, ∃ v, get_or config section "name" fallback = Loaded v) as Hname.
      { intros fallback. unfold get_or. rewrite Hn. destruct n; by eexists. }
      assert (∀ fallback, ∃ v, get_or config section "username" fallback = Loaded v)
        as Huser.
      { intros fallback. unfold get_or. rewrite Hu. destruct u; by eexists. }
      destruct (Hname section) as [vn ->]. simpl. rewrite Hi. simpl.
      destruct (Huser "root") as [vu ->]. simpl. rewrite Hp. simpl.
      destruct Hport as [Hssh | [(shell & port & Hssh & Hshell) Hapi]].
      - rewrite (Hget _ _ _ Hssh). simpl. unfold to_int. by rewrite Hint.
      - rewrite (Hget _ _ _ Hssh). simpl. unfold to_int at 1. rewrite Hshell. simpl.
        rewrite (Hget _ _ _ Hapi). simpl. unfold to_int. by rewrite Hint. }
    unfold load_host. by rewrite Hfields.
Qed.

End ConfigFacts.

Section RebootWait.

Context (env : Env).

Lemma wait_down_never_down host attempts w :
  (∀ w' port, e_probe env w' (ip host) port = Done 0) →
  ∃ w' seg,
    wait_down env attempts host w = (Ok false, w')
    ∧ trace w' = trace w ++ seg
    ∧ interactions seg
      = mjoin (replicate attempts [EvProbe (ip host) 22 (Done 0); EvSleep 5]).
Proof.
  intros Hup. revert w. induction attempts as [|n IH]; intros w.
  - exists w, []. split_and!; [done | by rewrite app_nil_r | done].
  - simpl wait_down. unfold bind at 1, try_except. unfold bind at 1.
    rewrite probe_eq, Hup. unfold ret. reduce.
    rewrite bool_decide_eq_true_2 by done. reduce.
    unfold bind at 1. rewrite sleep_eq.
    destruct (IH (extend (after_probe env w (ip host) 22) 5 (EvSleep 5)))
      as (w' & seg & -> & Ht & Hio).
    eexists w', (_ :: _ :: seg). split_and!; [done | |].
    + rewrite Ht, trace_extend. unfold after_probe. rewrite trace_extend, Hup.
      rewrite <- !app_assoc. reflexivity.
    + simpl. rewrite <- Hio. reflexivity.
Qed.

Lemma wait_up_S fuel host wait_start max_wait :
  wait_up env (S fuel) host wait_start max_wait
  = (t <- time_time ;;
     if bool_decide (t - wait_start < max_wait) then
       up <- try_except
               (result <- probe env (ip host) 22 ;;
                if bool_decide (result = 0) then
                  _ <- sleep 15 ;;
                  result_api <- probe env (ip host) 443 ;;
                  if bool_decide (result_api = 0) then
                    _ <- sleep 25 ;;
                    ret true
                  else ret false
                else ret false)
               (λ _, ret false) ;;
       if up then ret true
       else
         _ <- sleep 5 ;;
         wait_up env fuel host wait_start max_wait
     else ret false).
Proof. reflexivity. Qed.

Lemma reboot_wait_never_down host timeout w :
  (∀ w' port, e_probe env w' (ip host) port = Done 0) →
  ∃ w', wait_for_host_reboot env host timeout w = (Ok true, w')
        ∧ interactions (events_since w w') = never_down host.
Proof.
  intros Hup.
  unfold wait_for_host_reboot, traced, mark. unfold bind at 1. reduce.
  unfold bind at 1. unfold bind at 1, time_time. reduce. unfold bind at 1.
  destruct (wait_down_never_down host 60 (extend w 0 (EvCall m_wait_for_host_reboot)) Hup)
    as (w1 & seg & -> & Ht & Hio).
  reduce. unfold bind at 1. reduce.
  change (Z.to_nat 600) with (S 599). rewrite wait_up_S.
  unfold bind at 1, time_time. reduce. rewrite bool_decide_eq_true_2 by lia.
  unfold bind at 1, try_except. unfold bind at 1. rewrite probe_eq, Hup. reduce.
  rewrite bool_decide_eq_true_2 by done.
  unfold bind at 1. rewrite sleep_eq. unfold bind at 1. rewrite probe_eq, Hup. reduce.
  rewrite bool_decide_eq_true_2 by done.
  unfold bind at 1. rewrite sleep_eq. unfold ret. reduce.
  unfold bind at 1. reduce. eexists. split; [reflexivity|].
  unfold events_since, after_probe.
  rewrite !trace_extend, !Hup, Ht, trace_extend, <- !app_assoc, drop_app_length.
  rewrite !interactions_app, Hio. reflexivity.
Qed.

(** X24.  The wait for a reboot does not need to see the host go down: on
    a host that answers every probe it tries port 22 sixty times, five
    seconds apart, and then reports the host as rebooted after one more
    probe of each port. *)
Theorem reboot_wait_accepts_host_that_never_went_down host timeout w :
  (∀ w' port, e_probe env w' (ip host) port = Done 0) →
  let out := wait_for_host_reboot env host timeout w in
  out.1 = Ok true
  ∧ interactions (events_since w out.2) = never_down host.
Proof.
  intros Hup. cbv zeta.
  by destruct (reboot_wait_never_down host timeout w Hup) as (w' & -> & H).
Qed.

End RebootWait.

Section Fleet.

Context (env : Env) (self : Patcher).

(** The main loop processes every host, in order, each from the world
    that the host before it has left, and assigns each result under the
    name of its host. *)
Lemma process_all_runs todo results w :
  ∃ outs w',
    process_all env self todo results w
    = (Ok (assigned (zip (name <$> todo) outs) ∪ results), w')
    ∧ fleet_runs env self todo w outs w'.
Proof.
  revert results w. induction todo as [|host rest IH]; intros results w.
  - exists [], w. split; [|constructor].
    simpl. unfold ret, assigned. simpl. by rewrite (left_id_L ∅ (∪)).
  - destruct (process_host_shape env self host w) as (r & w1 & seg & E & _ & _).
    simpl. unfold bind at 1. rewrite E.
    unfold bind at 1.
    set (pause := match rest with [] => ret tt | _ :: _ => sleep 30 end).
    assert (pause w1
            = (Ok tt, match rest with [] => w1 | _ :: _ => extend w1 30 (EvSleep 30) end))
      as Hp by (subst pause; by destruct rest).
    rewrite Hp.
    destruct (IH (<[name host := r]> results)
                (match rest with [] => w1 | _ :: _ => extend w1 30 (EvSleep 30) end))
      as (outs & w' & Hrun & Hall).
    exists (r :: outs), w'. split.
    + rewrite Hrun. f_equal. unfold assigned. simpl.
      rewrite reverse_cons, list_to_map_app. simpl.
      rewrite insert_union_singleton_l, insert_empty.
      by rewrite (assoc_L (∪)).
    + by econstructor.
Qed.

Lemma fleet_runs_length todo w outs w' :
  fleet_runs env self todo w outs w' → length todo = length outs.
Proof. induction 1; simpl; congruence. Qed.

(** X25.  With distinct host names the fleet run processes every host, in
    the order of the configuration, each run starting where the one
    before it has ended, whatever the pre-flight tests reported; the
    report holds, under the name of each host, the result of the run of
    that host, and no other entry, and [run] returns [True] exactly when
    every host succeeded. *)
Theorem fleet_report_covers_hosts_of_distinct_names w :
  NoDup (name <$> hosts self) →
  ∃ w1 outs results w',
    for_each (λ _ host, _ <- test_connection env host ;; ret tt) (hosts self) tt w
    = (Ok tt, w1)
    ∧ fleet_runs env self (hosts self) w1 outs w'
    ∧ run_results env self w = (Ok results, w')
    ∧ (∀ i host r, hosts self !! i = Some host → outs !! i = Some r →
                   results !! name host = Some r)
    ∧ (∀ k, is_Some (results !! k) → k ∈ name <$> hosts self)
    ∧ (run env self w).1 = Ok (forallb fst outs).
Proof.
  intros Hnames.
  destruct (self_tests_return env (hosts self) w) as [w1 Ht].
  destruct (process_all_runs (hosts self) ∅ w1) as (outs & w' & Hrun & Hall).
  rewrite (right_id_L ∅ (∪)) in Hrun.
  assert (Hlen : length (name <$> hosts self) = length outs).
  { rewrite length_fmap. by eapply fleet_runs_length. }
  assert (Hfst : (zip (name <$> hosts self) outs).*1 = name <$> hosts self).
  { apply fst_zip. lia. }
  assert (Hnd : NoDup (reverse (zip (name <$> hosts self) outs)).*1).
  { rewrite fmap_reverse, Hfst. by rewrite reverse_Permutation. }
  assert (Hres : run_results env self w
                 = (Ok (assigned (zip (name <$> hosts self) outs)), w')).
  { unfold run_results. rewrite (bind_returns _ _ _ _ _ Ht). exact Hrun. }
  exists w1, outs, (assigned (zip (name <$> hosts self) outs)), w'.
  split_and!.
  - exact Ht.
  - exact Hall.
  - exact Hres.
  - intros i host r Hh Hr. unfold assigned. apply elem_of_list_to_map; [exact Hnd|].
    apply elem_of_reverse. apply (list_elem_of_lookup_2 _ i).
    apply lookup_zip_Some. split; [by rewrite list_lookup_fmap, Hh | done].
  - intros k [v Hk]. unfold assigned in Hk.
    apply elem_of_list_to_map in Hk; [|exact Hnd].
    rewrite elem_of_reverse in Hk. rewrite <- Hfst.
    apply list_elem_of_fmap. exists (k, v). split; [reflexivity | exact Hk].
  - unfold run. rewrite (bind_returns _ _ _ _ _ Hres). unfold ret. cbn [fst]. f_equal.
    rewrite <- (failures_of_zip (name <$> hosts self) outs Hlen).
    unfold fail_count, assigned.
    apply bool_decide_ext.
    rewrite (map_to_list_to_map _ Hnd), reverse_Permutation. done.
Qed.

End Fleet.

Lemma open_sessions_app s a b :
  open_sessions s (a ++ b) = open_sessions (open_sessions s a) b.
Proof. unfold open_sessions. by rewrite fold_left_app. Qed.

Lemma open_sessions_inert s seg :
  Forall (λ te, inert te.2) seg → open_sessions s seg = s.
Proof.
  induction 1 as [|te seg H _ IH]; [done|].
  unfold open_sessions in *. simpl. by rewrite H.
Qed.

Lemma within_refl s : within s s.
Proof. by split. Qed.

Lemma within_trans a b c : within a b → within b c → within a c.
Proof. intros [H1 H2] [H3 H4]. split; auto. Qed.

Lemma within_none s : within s (false, false) → s = (false, false).
Proof.
  destruct s as [[] []]; intros [H1 H2]; simpl in *; try done;
    first [by discriminate H1 | by discriminate H2].
Qed.

(** Conditions on sessions, by cases. *)
Ltac sessions :=
  unfold within in *; simpl in *;
  repeat match goal with
         | |- context [is_some ?x] => is_var x; destruct x
         | H : context [is_some ?x] |- _ => is_var x; destruct x
         | |- context [fst ?p] => is_var p; destruct p
         | |- context [snd ?p] => is_var p; destruct p
         | H : context [fst ?p] |- _ => is_var p; destruct p
         | H : context [snd ?p] |- _ => is_var p; destruct p
         end;
  simpl in *; solve [intuition (congruence || auto)].

Lemma moves_weaken {A} P P' (f : M A) (Q Q' : A → bool * bool) E E' :
  within P' P → (∀ a, within (Q a) (Q' a)) → within E E' →
  moves P f Q E → moves P' f Q' E'.
Proof.
  intros HP HQ HE Hf w. destruct (Hf w) as (seg & Ht & H). exists seg.
  split; [done|]. intros s Hs. specialize (H s (within_trans _ _ _ Hs HP)).
  destruct (f w).1; [|  |done].
  - by eapply within_trans.
  - by eapply within_trans.
Qed.

Lemma moves_ret {A} P (a : A) Q E : within P (Q a) → moves P (ret a) Q E.
Proof.
  intros H w. exists []. split; [by rewrite app_nil_r|].
  intros s Hs. simpl. by eapply within_trans.
Qed.

Lemma moves_bind {A B} P (f : M A) (Q : A → bool * bool) E (k : A → M B) R :
  moves P f Q E → (∀ a, moves (Q a) (k a) R E) → moves P (bind f k) R E.
Proof.
  intros Hf Hk w. destruct (Hf w) as (s1 & E1 & H1). unfold bind.
  destruct (f w) as [[a|e|] w1]; simpl in *; [|by exists s1|by exists s1].
  destruct (Hk a w1) as (s2 & E2 & H2). exists (s1 ++ s2). split.
  - by rewrite E2, E1, app_assoc.
  - intros s Hs. rewrite open_sessions_app. apply H2, H1, Hs.
Qed.

Lemma moves_sleep P secs E : moves P (sleep secs) (λ _, P) E.
Proof.
  intros w. exists [(now w, EvSleep secs)]. split; [done|]. by intros s Hs.
Qed.

(** A computation of inert interactions moves nothing. *)
Lemma moves_inert {A} P (f : M A) :
  emits inert f → moves P f (λ _, P) P.
Proof.
  intros Hf w. destruct (Hf w) as (seg & Ht & Hall). exists seg. split; [done|].
  intros s Hs. rewrite (open_sessions_inert _ _ Hall). by destruct (f w).1.
Qed.

Lemma moves_bind_inert {A B} P (f : M A) E (k : A → M B) R :
  within P E → emits inert f → (∀ a, moves P (k a) R E) → moves P (bind f k) R E.
Proof.
  intros HE Hf Hk. apply (moves_bind P f (λ _, P)); [|done].
  apply (moves_weaken P P f (λ _, P) (λ _, P) P E); auto using within_refl, moves_inert.
Qed.

Section SessionFacts.

Context (env : Env) (self : Patcher).

Lemma moves_connect_api P host E :
  moves P (_connect_api env host) (λ x, (P.1, is_some x || P.2)) E.
Proof.
  intros w. unfold _connect_api, traced, mark, try_except, bind, ask, perform. simpl.
  destruct (e_smart_connect env (extend w 0 (EvCall m_connect_api))
              (ip host) (api_port host)) as [si|e];
    simpl; eexists [_; _; _];
    (split; [by rewrite ?trace_extend, <- ?app_assoc|]);
    intros s Hs; unfold open_sessions; simpl; sessions.
Qed.

Lemma moves_ssh_connect P host E :
  moves P (ssh_connect env host) (λ x, (is_some x || P.1, P.2)) E.
Proof.
  intros w. unfold ssh_connect, traced, mark, try_except, bind, ask, perform. simpl.
  destruct (e_ssh_connect env (extend w 0 (EvCall m_ssh_connect))
              (ip host) (ssh_port host)) as [si|e];
    simpl; eexists [_; _; _];
    (split; [by rewrite ?trace_extend, <- ?app_assoc|]);
    intros s Hs; unfold open_sessions; simpl; sessions.
Qed.

Lemma moves_ssh_close P : moves P (ssh_close env) (λ _, (false, P.2)) (false, P.2).
Proof.
  intros w. unfold ssh_close, bind, ask, perform. simpl.
  destruct (e_ssh_close env w); simpl; eexists [_];
    (split; [by rewrite ?trace_extend|]);
    intros s Hs; unfold open_sessions; simpl; sessions.
Qed.

Lemma moves_disconnect P : moves P (disconnect env) (λ _, (P.1, false)) (P.1, false).
Proof.
  intros w. unfold disconnect, bind, ask, perform. simpl.
  destruct (e_disconnect env w); simpl; eexists [_];
    (split; [by rewrite ?trace_extend|]);
    intros s Hs; unfold open_sessions; simpl; sessions.
Qed.

(** [try: close() except: pass] *)
Lemma moves_try_close {A} P (f : M A) (Q : bool * bool) (a : A) E :
  moves P f (λ _, Q) Q → moves P (try_except f (λ _, ret a)) (λ _, Q) E.
Proof.
  intros Hf w. destruct (Hf w) as (seg & Ht & H). unfold try_except.
  destruct (f w) as [[x|e|] w1]; simpl in *; exists seg; (split; [done|]); exact H.
Qed.

(** The [finally] clause closes what the local variables hold. *)
Lemma moves_teardown P c a E :
  within P (is_some c, is_some a) →
  moves P (teardown env c a) (λ _, (false, false)) E.
Proof.
  intros HP. unfold teardown.
  apply (moves_bind P _ (λ _, (false, P.2))).
  - destruct c; simpl.
    + apply moves_try_close, moves_ssh_close.
    + apply moves_ret. sessions.
  - intros _. destruct a; simpl.
    + apply (moves_try_close (false, P.2) _ (false, false) tt E).
      apply (moves_disconnect (false, P.2)).
    + apply moves_ret. sessions.
Qed.

Lemma moves_leave P c a r E :
  within P (is_some c, is_some a) →
  moves P (leave env c a r) (λ _, (false, false)) E.
Proof.
  intros HP. unfold leave.
  apply (moves_bind P _ (λ _, (false, false))); [by apply moves_teardown|].
  intros _. by apply moves_ret.
Qed.

(** The handler of [process_host] closes what the body has left open. *)
Lemma moves_guarded P c a body E :
  moves P body (λ _, (false, false)) (is_some c, is_some a) →
  moves P (guarded env c a body) (λ _, (false, false)) E.
Proof.
  intros Hb w. destruct (Hb w) as (s1 & E1 & H1). unfold guarded, try_except.
  destruct (body w) as [[x|e|] w1]; simpl in *; [by exists s1| |by exists s1].
  destruct (moves_leave (is_some c, is_some a) c a (false, "Исключение: " +:+ e)
              (false, false) (within_refl _) w1) as (s2 & E2 & H2).
  exists (s1 ++ s2). split; [by rewrite E2, E1, app_assoc|].
  intros s Hs. rewrite open_sessions_app.
  specialize (H2 (open_sessions s s1) (H1 s Hs)).
  unfold leave, bind, ret in *.
  destruct (teardown env c a w1) as [[?|?|] ?]; simpl in *; try done.
  apply within_none in H2. rewrite H2. by split.
Qed.

(** [for attempt in range(max_retries)] returns what it has opened. *)
Lemma moves_reconnect_api P remaining host E :
  moves P (reconnect_api env remaining host) (λ x, (P.1, is_some x || P.2)) E.
Proof.
  induction remaining as [|n IH]; simpl.
  - apply moves_ret. sessions.
  - apply (moves_bind P _ (λ x, (P.1, is_some x || P.2))); [apply moves_connect_api|].
    intros [si|]; simpl.
    + apply moves_ret. sessions.
    + apply (moves_weaken P (P.1, P.2) _ (λ x, (P.1, is_some x || P.2)) _ E E);
        [sessions | intros; sessions | sessions |].
      apply (moves_bind P _ (λ _, P)); [|intros _; exact IH].
      destruct n; [by apply moves_ret | apply moves_sleep].
Qed.

(** The methods that use the sessions and neither open nor close one. *)
Lemma inert_methods host timeout cl ds pat :
  emits inert (_get_host_system env)
  ∧ emits inert (is_host_in_cluster env)
  ∧ emits inert (enable_services_via_api env)
  ∧ emits inert (disable_services_via_api env)
  ∧ emits inert (wait_for_ssh env host timeout)
  ∧ emits inert (find_boot_datastore env)
  ∧ emits inert (exists_patch_file env self)
  ∧ emits inert (copy_patch_via_scp env self ds)
  ∧ emits inert (quiesce env cl)
  ∧ emits inert (install_patch_via_ssh env self ds)
  ∧ emits inert (verify_patch_installation env self pat)
  ∧ emits inert (cleanup_patch_file env self ds)
  ∧ emits inert (reboot_host env)
  ∧ emits inert (wait_for_host_reboot env host timeout)
  ∧ emits inert (exit_maintenance_mode env)
  ∧ emits inert (start_vms_after_reboot env).
Proof.
  split_and!; emit_through; try (intros; by intros ?).
Qed.

End SessionFacts.

(** A step that opens and closes nothing. *)
Ltac inert_step := solve [emit_through; try (intros; by intros ?)].

(** Follow the workflow of a host, with the sessions that may be open. *)
Ltac move_walk :=
  cbv beta zeta;
  lazymatch goal with
  | |- moves _ (leave _ _ _ _) _ _ => apply moves_leave; sessions
  | |- moves _ (guarded _ _ _ _) _ _ => apply moves_guarded; move_walk
  | |- moves _ (bind (_connect_api _ _) _) _ _ =>
      eapply moves_bind; [apply moves_connect_api | intros ?; move_walk]
  | |- moves _ (bind (reconnect_api _ _ _) _) _ _ =>
      eapply moves_bind; [apply moves_reconnect_api | intros ?; move_walk]
  | |- moves _ (bind (ssh_connect _ _) _) _ _ =>
      eapply moves_bind; [apply moves_ssh_connect | intros ?; move_walk]
  | |- moves ?P (bind (if is_some ?c then ssh_close _ else ret tt) _) _ _ =>
      apply (moves_bind P _ (λ _, (false, P.2)));
      [ destruct c; simpl;
        [ eapply moves_weaken; [| | |apply moves_ssh_close];
          [apply within_refl | intros; apply within_refl | sessions]
        | apply moves_ret; sessions ]
      | intros _; move_walk ]
  | |- moves ?P (bind (if is_some ?a then disconnect _ else ret tt) _) _ _ =>
      apply (moves_bind P _ (λ _, (P.1, false)));
      [ destruct a; simpl;
        [ eapply moves_weaken; [| | |apply moves_disconnect];
          [apply within_refl | intros; apply within_refl | sessions]
        | apply moves_ret; sessions ]
      | intros _; move_walk ]
  | |- moves _ (bind _ _) _ _ =>
      apply moves_bind_inert; [sessions | inert_step | intros ?; move_walk]
  | |- moves _ (if ?b then _ else _) _ _ => destruct b eqn:?; move_walk
  | |- moves _ (match ?x with _ => _ end) _ _ => destruct x eqn:?; move_walk
  | |- _ => idtac
  end.

Section HostSessions.

Context (env : Env) (self : Patcher).

Lemma moves_restore host is_clustered old E :
  moves (false, false) (restore env host is_clustered old) (λ _, (false, false)) E.
Proof. unfold restore. move_walk. Qed.

Lemma moves_install_and_reboot P host is_clustered c a datastore :
  within P (is_some c, is_some a) →
  moves P (install_and_reboot env self host is_clustered c a datastore)
        (λ _, (false, false)) (is_some c, is_some a).
Proof.
  intros HP. unfold install_and_reboot. move_walk.
  eapply moves_weaken; [| | |apply moves_restore];
    [by split | intros; apply within_refl | apply within_refl].
Qed.

Lemma moves_patch_and_reboot P host is_clustered c a :
  within P (is_some c, is_some a) →
  moves P (patch_and_reboot env self host is_clustered c a)
        (λ _, (false, false)) (is_some c, is_some a).
Proof.
  intros HP. unfold patch_and_reboot. move_walk.
  by apply moves_install_and_reboot.
Qed.

Lemma moves_process_host host E :
  moves (false, false) (process_host env self host) (λ _, (false, false)) E.
Proof.
  unfold process_host, traced.
  apply (moves_bind _ _ (λ _, (false, false))).
  { intros w. eexists [_]. split; [done|]. by intros s Hs. }
  intros _. apply (moves_bind _ _ (λ _, (false, false))).
  2: { intros r. apply (moves_bind _ _ (λ _, (false, false))).
       - intros w. eexists [_]. split; [done|]. by intros s Hs.
       - intros _. by apply moves_ret. }
  move_walk. apply moves_patch_and_reboot. sessions.
Qed.

(** X26.  A host run leaves no session behind: when it ends, each remote
    shell and each session of the management API that it has opened has
    had its close called after it was opened. *)
Theorem host_run_closes_its_sessions host w :
  let out := process_host env self host w in
  (∃ r, out.1 = Ok r)
  ∧ open_sessions (false, false) (events_since w out.2) = (false, false).
Proof.
  cbv zeta. destruct (process_host_shape env self host w) as (r & w' & seg & E & _).
  destruct (moves_process_host host (false, false) w) as (seg' & Ht & H).
  rewrite (events_since_app _ _ _ Ht).
  specialize (H (false, false) (within_refl _)).
  rewrite E in *. simpl in *. split; [by eexists|]. by apply within_none.
Qed.

End HostSessions.

(** ** The properties at concrete runs *)

(** A clustered run goes through both steps: shutdown comes right after
    maintenance mode. *)
Lemma quiesce_order_follows_topology_witness :
  ∃ r, (process_host cluster_member patcher_zip esx1 world0).1 = Ok r
       ∧ (∀ pre post,
            markers (events_since world0
                       (process_host cluster_member patcher_zip esx1 world0).2)
            = pre ++ EvCall m_check_and_shutdown_vms :: post →
            EvRet m_enter_maintenance_mode true ∈ pre)
       ∧ ∃ pre b post,
           markers (events_since world0
                      (process_host cluster_member patcher_zip esx1 world0).2)
           = pre ++ EvCall m_enter_maintenance_mode
                 :: EvRet m_enter_maintenance_mode b :: post
           ∧ (b = true →
                ∃ b' t, post = EvCall m_check_and_shutdown_vms
                               :: EvRet m_check_and_shutdown_vms b' :: t).
Proof.
  destruct (quiesce_order_follows_topology cluster_member patcher_zip esx1 world0)
    as (r & Hr & Hcl & _ & Hreach).
  exists r. split; [exact Hr|]. split.
  - apply Hcl. vm_compute. find_elem.
  - destruct Hreach as [[_ H] | [Hst _]].
    + vm_compute. find_elem.
    + intros H. apply ret_in in H. vm_compute in H. discriminate H.
    + exact H.
    + apply ret_in in Hst. vm_compute in Hst. discriminate Hst.
Defined.

(** The patch of [patcher_zip] carries the date 20240300. *)
Lemma verify_checks_for_date_of_patch_witness :
  ∃ b s o e,
    (verify_patch_installation calm patcher_zip None world0).1 = Ok b
    ∧ head (interactions
              (events_since world0
                 (verify_patch_installation calm patcher_zip None world0).2))
      = Some (EvSsh "esxcli software vib list | grep -i 20240300" 60 s o e)
    ∧ b = s && negb (PyStr.is_empty o).
Proof.
  destruct (verify_checks_for_date_of_patch calm patcher_zip world0 eq_refl)
    as (b & s & o & e & Hb & Hhead & Hres & _).
  exists b, s, o, e. split_and!; [exact Hb | exact Hhead | exact Hres].
Defined.

(** A successful run on the calm host. *)
Lemma success_needs_every_fatal_step_witness :
  (process_host calm patcher_zip esx1 world0).1 = Ok (true, "Успех")
  ∧ Forall (λ m, EvRet m true
                 ∈ markers (events_since world0
                              (process_host calm patcher_zip esx1 world0).2))
      [m_connect_api; m_get_host_system; m_ssh_connect; m_find_boot_datastore;
       m_enter_maintenance_mode; m_reboot_host; m_wait_for_host_reboot].
Proof.
  split; [vm_compute; reflexivity|].
  apply (success_needs_every_fatal_step calm patcher_zip esx1 world0 "Успех").
  vm_compute. reflexivity.
Defined.

(** The reboot of the calm host comes after maintenance mode was
    entered. *)
Lemma install_and_reboot_only_in_maintenance_witness :
  EvRet m_enter_maintenance_mode true
  ∈ take 27 (markers (events_since world0
                        (process_host calm patcher_zip esx1 world0).2)).
Proof.
  apply (install_and_reboot_only_in_maintenance calm patcher_zip esx1 world0
           m_reboot_host
           (take 27 (markers (events_since world0
                                (process_host calm patcher_zip esx1 world0).2)))
           (drop 28 (markers (events_since world0
                                (process_host calm patcher_zip esx1 world0).2)))).
  - by right.
  - vm_compute. reflexivity.
Defined.

(** A run without a patch file installs nothing. *)
Lemma no_patch_file_no_patch_steps_witness :
  nonempty (patch_file patcher_twins) = false
  ∧ EvCall m_install_patch_via_ssh
    ∉ markers (events_since world0
                 (process_host calm patcher_twins twin_a world0).2).
Proof.
  split; [reflexivity|].
  apply (no_patch_file_no_patch_steps calm patcher_twins twin_a world0).
  - reflexivity.
  - right. by left.
Defined.

(** The host that refuses every call still gets the result [True]. *)
Lemma service_switch_result_ignores_failed_calls_witness :
  (Services.enable_services_via_api deaf_host).1 = true
  ∧ (Services.disable_services_via_api deaf_host).1 = true.
Proof.
  apply (service_switch_result_ignores_failed_calls deaf_host ["TSM-SSH"]).
  - reflexivity.
  - intros log. eexists. split; reflexivity.
Defined.

(** The example configuration gives one host and the name of the
    patch. *)
Lemma load_config_hosts_follow_sections_witness :
  ∃ config,
    Config.sections config = ["settings"; "patch"; "host_esxi01"]
    ∧ Forall2 (Config.describes decimal config) (Config.host_sections config)
        [{| name := "ESXi-01"; ip := "192.168.1.101"; username := "root";
            password := "your_password"; ssh_port := 22; api_port := 443 |}].
Proof.
  destruct (load_config_hosts_follow_sections (λ _, true) (λ _, Done sample_config)
              decimal id "config.ini" 300
              {| hosts := [{| name := "ESXi-01"; ip := "192.168.1.101";
                              username := "root"; password := "your_password";
                              ssh_port := 22; api_port := 443 |}];
                 patch_file := Some "/tmp/ESXi650-202403001.zip";
                 patch_name := Some "/tmp/ESXi650-202403001.zip" |})
    as (config & _ & Hread & _ & Hall & _).
  - vm_compute. reflexivity.
  - injection Hread as <-. exists sample_config. split; [reflexivity | exact Hall].
Defined.

(** The second host has no address: the load stops there. *)
Lemma load_config_names_missing_option_witness :
  Config._load_config (λ _, true) (λ _, Done config_without_ip) decimal id "config.ini"
  = Config.Failed
      (Config.ValueError
         "Ошибка в конфиге: секция host_b не содержит обязательного поля 'ip'").
Proof.
  apply (load_config_names_missing_option (λ _, true) (λ _, Done config_without_ip)
           decimal id "config.ini" config_without_ip
           ["host_a"] "host_b" ["host_c"] "ip").
  - reflexivity.
  - reflexivity.
  - reflexivity.
  - apply Forall_cons_2; [|constructor]. intros _. eexists. vm_compute. reflexivity.
  - reflexivity.
  - split; [by eexists|]. left. split; reflexivity.
Defined.

(** No host, a port of the remote shell that is no number, and a port of
    the management API that is no number. *)
Lemma load_config_refuses_no_hosts_and_bad_ports_witness :
  Config._load_config (λ _, true) (λ _, Done config_without_hosts) decimal id
    "config.ini"
  = Config.Failed (Config.ValueError "Не найдены хосты в конфигурации")
  ∧ Config._load_config (λ _, true) (λ _, Done config_with_bad_port) decimal id
      "config.ini"
    = Config.Failed (Config.ValueError "invalid literal for int() with base 10")
  ∧ Config._load_config (λ _, true) (λ _, Done config_with_bad_api_port) decimal id
      "config.ini"
    = Config.Failed (Config.ValueError "invalid literal for int() with base 10").
Proof.
  split_and!.
  - apply (load_config_refuses_no_hosts_and_bad_ports (λ _, true)
             (λ _, Done config_without_hosts) decimal id "config.ini"
             config_without_hosts); [reflexivity | reflexivity | reflexivity |].
    by eexists.
  - apply (proj2 (load_config_refuses_no_hosts_and_bad_ports (λ _, true)
                    (λ _, Done config_with_bad_port) decimal id "config.ini"
                    config_with_bad_port eq_refl eq_refl)
             [] "host_a" [] "ssh").
    + reflexivity.
    + constructor.
    + reflexivity.
    + by eexists.
    + by eexists.
    + by eexists.
    + by eexists.
    + left. left. reflexivity.
    + reflexivity.
  - apply (proj2 (load_config_refuses_no_hosts_and_bad_ports (λ _, true)
                    (λ _, Done config_with_bad_api_port) decimal id "config.ini"
                    config_with_bad_api_port eq_refl eq_refl)
             [] "host_a" [] "https").
    + reflexivity.
    + constructor.
    + reflexivity.
    + by eexists.
    + by eexists.
    + by eexists.
    + by eexists.
    + right. split; [|left; reflexivity].
      exists "22", 22. split; [right; split; reflexivity | reflexivity].
    + reflexivity.
Defined.

(** The calm host answers every probe. *)
Lemma reboot_wait_accepts_host_that_never_went_down_witness :
  (wait_for_host_reboot calm esx1 900 world0).1 = Ok true
  ∧ interactions (events_since world0 (wait_for_host_reboot calm esx1 900 world0).2)
    = never_down esx1.
Proof.
  apply (reboot_wait_accepts_host_that_never_went_down calm esx1 900 world0).
  intros w' port. reflexivity.
Defined.

(** Two hosts with different names: two runs, one after the other, and
    two entries in the report. *)
Lemma fleet_report_covers_hosts_of_distinct_names_witness :
  ∃ w1 outs results w',
    for_each (λ _ host, _ <- test_connection calm host ;; ret tt)
      (hosts patcher_pair) tt world0 = (Ok tt, w1)
    ∧ fleet_runs calm patcher_pair (hosts patcher_pair) w1 outs w'
    ∧ run_results calm patcher_pair world0 = (Ok results, w')
    ∧ (∀ i host r, hosts patcher_pair !! i = Some host → outs !! i = Some r →
                   results !! name host = Some r)
    ∧ (∀ k, is_Some (results !! k) → k ∈ name <$> hosts patcher_pair)
    ∧ (run calm patcher_pair world0).1 = Ok (forallb fst outs).
Proof.
  apply (fleet_report_covers_hosts_of_distinct_names calm patcher_pair world0).
  apply NoDup_cons. split; [|apply NoDup_singleton].
  intros H%list_elem_of_singleton. discriminate H.
Defined.
